(** * whisper-api-baileys: instance lifecycle, plugin dispatch, webhook
    delivery and the welcome batch notifier

    A shallow embedding of
    - [src/services/whatsappInstanceManager.service.js]
      (classes [WhatsAppInstance] and [WhatsAppInstanceManager]),
    - the plugin manager ([PluginManager], [core/plugin-manager.core]),
    - [src/plugins/welcome-group.plugin.js].

    JavaScript strings are [string]s, numbers are [Z], objects are records,
    [Map]s iterated in insertion order are association lists, objects used
    as dictionaries are [gmap]s.  Asynchronous methods are computations in
    a state-and-exception monad over the object they mutate and the world
    they talk to; a thrown error keeps the mutations made before it, as in
    JavaScript. *)

From stdpp Require Import base strings list gmap pretty.
From Stdlib Require Import Ascii ZArith Lia.

Open Scope Z_scope.

(** ** JavaScript string primitives used by the services *)

Module Js.

(** [\d] of a JavaScript regular expression: the ASCII digits only. *)
Definition is_digit (c : ascii) : bool :=
  (48 <=? nat_of_ascii c)%nat && (nat_of_ascii c <=? 57)%nat.

(** [s.replace(/[^\d]/g, '')] *)
Fixpoint strip_non_digits (s : string) : string :=
  match s with
  | EmptyString => EmptyString
  | String c rest =>
      if is_digit c then String c (strip_non_digits rest)
      else strip_non_digits rest
  end.

(** [s.startsWith(p)] *)
Definition startsWith (s p : string) : bool := String.prefix p s.

(** [s.substring(1)] *)
Definition substring1 (s : string) : string :=
  match s with
  | EmptyString => EmptyString
  | String _ rest => rest
  end.

(** [s.includes(p)] *)
Fixpoint includes (s p : string) : bool :=
  String.prefix p s ||
  match s with
  | EmptyString => false
  | String _ rest => includes rest p
  end.

(** [s.split(sep)[0]] for a one-character separator: the text before the
    first occurrence of [sep] (all of [s] when there is none). *)
Fixpoint split_head (sep : ascii) (s : string) : string :=
  match s with
  | EmptyString => EmptyString
  | String c rest =>
      if Ascii.eqb c sep then EmptyString else String c (split_head sep rest)
  end.

(** [xs.join(sep)], which is also how a template literal prints an array
    (with [sep = ","]). *)
Fixpoint join (sep : string) (xs : list string) : string :=
  match xs with
  | [] => ""
  | [x] => x
  | x :: rest => x +:+ sep +:+ join sep rest
  end.

(** Truthiness of an optional string: [undefined], [null] and [""] are
    falsy. *)
Definition truthy (o : option string) : bool :=
  match o with
  | Some (String _ _) => true
  | _ => false
  end.

(** [a || b] on optional strings. *)
Definition or_else (o : option string) (d : string) : string :=
  match o with
  | Some (String c r) => String c r
  | _ => d
  end.

End Js.

(** ** Phone-number normalisation ([sendMessage], [sendMediaMessage]) *)

Module Phone.

(** The block
<<
  let formattedNumber = phoneNumber.replace(/[^\d]/g, '');
  if (!formattedNumber.startsWith('62')) {
      if (formattedNumber.startsWith('0')) {
          formattedNumber = '62' + formattedNumber.substring(1);
      } else {
          formattedNumber = '62' + formattedNumber;
      }
  }
>> *)
Definition formattedNumber (phoneNumber : string) : string :=
  let formatted := Js.strip_non_digits phoneNumber in
  if negb (Js.startsWith formatted "62") then
    if Js.startsWith formatted "0" then "62" +:+ Js.substring1 formatted
    else "62" +:+ formatted
  else formatted.

(** [`${formattedNumber}@s.whatsapp.net`] *)
Definition jid_of (formatted : string) : string := formatted +:+ "@s.whatsapp.net".

End Phone.

(** ** Values exchanged with the outside world *)

(** [new Error(message)], and the errors axios rejects with: only
    [error.message], [error.code] and [error.response] are ever read. *)
Record HttpResponse := {
  resp_status : Z;
  resp_statusText : string;
  resp_headers : list (string * string);
  resp_data : string }.

Record JsError := {
  err_message : string;
  err_code : option string;
  err_response : option HttpResponse }.

Definition Error (message : string) : JsError :=
  {| err_message := message; err_code := None; err_response := None |}.

(** The row of the instance table a controller is built from. *)
Record InstanceData := {
  inst_id : string;
  inst_phone : string;
  inst_name : string;
  inst_alias : string;
  inst_status : string }.

(** The statuses the controller keeps in [this.connectionStatus]. *)
Inductive ConnectionStatus :=
| disconnected | connecting | qr_ready | connected
| reconnecting | logged_out | error_status.

(** The statuses written with [instanceService.updateStatus]. *)
Inductive DbStatus :=
| db_connecting | db_qr_ready | db_reconnecting | db_inactive | db_active | db_error.

Inductive Level := info | error_level.

(** An inbound protocol message, as far as the services read it. *)
Record MessageKey := {
  remoteJid : string;
  fromMe : bool;
  key_id : string }.

Inductive Content :=
| conversation (text : string)
| extendedTextMessage (text : string)
| groupUpdate (participants : list string) (action : string)
| otherContent (kind : string).

Record Message := {
  key : MessageKey;
  pushName : option string;
  messageTimestamp : Z;
  message : option Content }.

(** [Object.keys(message.message || {})[0] || 'unknown'] *)
Definition content_type (m : Message) : string :=
  match message m with
  | Some (conversation _) => "conversation"
  | Some (extendedTextMessage _) => "extendedTextMessage"
  | Some (groupUpdate _ _) => "groupUpdate"
  | Some (otherContent kind) => Js.or_else (Some kind) "unknown"
  | None => "unknown"
  end.

(** [message.message?.conversation ||
     message.message?.extendedTextMessage?.text || 'Media message'] *)
Definition content_text (m : Message) : string :=
  match message m with
  | Some (conversation text) => Js.or_else (Some text) "Media message"
  | Some (extendedTextMessage text) => Js.or_else (Some text) "Media message"
  | _ => "Media message"
  end.

(** The socket handle: [sock.user] is set once the session is paired. *)
Record Sock := { sock_user : option string }.

Inductive Direction := incoming | outgoing.

(** The argument of [messageService.create]. *)
Record MessageData := {
  md_instanceId : string;
  md_direction : Direction;
  md_from : string;
  md_to : string;
  md_type : string;
  md_content : string;
  md_messageId : string;
  md_pushName : option string;
  md_raw : option Message;
  md_isGroup : bool;
  md_mediaUrl : option string;
  md_filename : option string;
  md_status : string;
  md_sentAt : Z }.

(** The [data] of a [connection.update] webhook event. *)
Record ConnectionData := {
  cd_status : ConnectionStatus;
  cd_qrCode : option string;
  cd_instance : InstanceData;
  cd_timestamp : Z;
  cd_message : string;
  cd_reconnectAttempt : option Z;
  cd_maxReconnectAttempts : option Z;
  cd_disconnectReason : option Z;
  cd_wasManualRestart : option bool;
  cd_previousReconnectAttempts : option Z }.

Inductive EventData :=
| ConnectionUpdateData (d : ConnectionData)
| MessageReceivedData (m : Message) (instance : InstanceData)
| MessageSentData (stored : MessageData) (instance : InstanceData)
    (recipient : string) (isGroup : bool) (mediaType : option string).

(** The envelope posted to a webhook. *)
Record Payload := {
  pl_event : string;
  pl_data : EventData;
  pl_timestamp : Z;
  pl_instanceId : string }.

Record Webhook := { wh_id : string; wh_url : string }.

Inductive HistoryStatus := pending | success | failed | timeout.

(** The argument of [webhookHistoryService.create]. *)
Record HistoryData := {
  hd_instanceId : string;
  hd_webhookId : string;
  hd_event : string;
  hd_payload : Payload;
  hd_status : HistoryStatus;
  hd_retryCount : Z;
  hd_httpStatusCode : option Z;
  hd_responseTime : option Z;
  hd_response : option HttpResponse;
  hd_errorMessage : option string;
  hd_completedAt : option Z }.

(** The context a plugin is called with:
    [{ props: { enabled, sock, message, ...config } }]. *)
Record PluginConfig := {
  cfg_enabled : bool;
  cfg_options : list (string * string) }.

Record Props := {
  props_enabled : bool;
  props_sock : option Sock;
  props_message : Message;
  props_options : list (string * string) }.

(** What [sock.sendMessage] is given. *)
Inductive Outgoing :=
| TextMessage (text : string)
| WelcomeMessage (text : string) (mentions : list string)
| ImageMessage (url : string) (caption : option string)
| VideoMessage (url : string) (caption : option string)
| AudioMessage (url : string) (mimetype : string)
| DocumentMessage (url : string) (fileName : string) (caption : option string).

(** The options [axios.post] is given. *)
Record AxiosConfig := {
  ax_timeout : Z;
  ax_headers : list (string * string) }.

(** How an axios promise settles. *)
Inductive Settled :=
| Resolved (response : HttpResponse)
| Rejected (e : JsError).

(** What a timer will run. *)
Inductive Callback :=
| call_initialize
| call_flush (groupId : string).

(** Every call that leaves the process, in the order it is made. *)
Inductive Event :=
| Log (level : Level) (text : string)
| UpdateStatus (instanceId : string) (status : DbStatus)
| InstanceLogCreate (instanceId : string) (level : Level) (text : string)
| MessageCreate (m : MessageData)
| GetEnabledWebhooks (instanceId : string) (event : string)
| HttpPost (url : string) (p : Payload) (config : AxiosConfig)
| HttpSettled (url : string) (s : Settled)
| HistoryCreate (h : HistoryData)
| PluginCall (name : string) (props : Props)
| SockSendMessage (jid : string) (content : Outgoing)
| GroupMetadata (jid : string)
| SetTimeout (ms : Z) (callback : Callback)
| Sleep (ms : Z)
| WsClose
| SockLogout
| QrPrint (qr : string)
| EnsureAuthDir
| ReadPluginDir
| RequirePlugin (file : string)
| UseAuthState
| FetchVersion
| MakeSocket.

(** ** Plugins *)

(** A plugin is an [async] function of the dispatch context (as
    [welcome-group.plugin.js] is): calling it returns a promise, and an
    error raised in its body rejects that promise. *)
Inductive PluginPromise :=
| Fulfils
| Rejects (e : JsError).

Definition Plugin : Type := Props -> PluginPromise.

(** What [require(pluginPath)] yields: the handler and its optional
    [config] export. *)
Record PluginModule := {
  pm_handler : Plugin;
  pm_config : option PluginConfig }.

(** ** The world outside the process *)

(** The clock read by [Date.now()], and the number of outside calls made so
    far. *)
Record World := { now : Z; issued : nat }.

(** The answers of the outside world.  Each is indexed by the position of
    the call in the run, so that any pattern of failures and replies can be
    chosen.
    - [fault]: whether the call at this position throws (or rejects);
    - [webhooks_of]: the answer of [webhookService.getEnabledWebhooks];
    - [post_result]: how the promise of [axios.post] to a URL, with a given
      [timeout], settles, and after how many milliseconds; axios resolves it
      when a reply with a 2xx status
      arrives (the default [validateStatus]), rejects it with
      [error.response] set when a reply with another status arrives, and
      rejects it with code [ECONNABORTED] when the configured [timeout]
      elapses first;
    - [send_key]: [result.key.id] of a fulfilled [sock.sendMessage];
    - [plugin_files], [plugin_module]: the plugins directory;
    - [is_development]: [process.env.NODE_ENV === 'development'];
    - [pkg_name], [pkg_version], [pkg_author]: fields of package.json. *)
Record Env := {
  fault : nat -> option JsError;
  webhooks_of : nat -> string -> string -> list Webhook;
  post_result : nat -> string -> Z -> Settled * Z;
  send_key : nat -> string;
  plugin_files : nat -> list string;
  plugin_module : nat -> string -> PluginModule;
  wa_version : nat -> string * bool;
  is_development : bool;
  pkg_name : string;
  pkg_version : string;
  pkg_author : string }.

(** ** Asynchronous methods as computations *)

(** The outcome of running a method: what it returned or threw, the object
    it mutated, the world afterwards, and the outside calls it made, first
    call first. *)
Record Outcome (St A : Type) := mkOutcome {
  result : JsError + A;
  state : St;
  world : World;
  emitted : list Event }.
Arguments mkOutcome {St A}.
Arguments result {St A}.
Arguments state {St A}.
Arguments world {St A}.
Arguments emitted {St A}.

Definition M (St A : Type) : Type := St -> World -> Outcome St A.

Definition ret {St A} (a : A) : M St A :=
  fun s w => mkOutcome (inr a) s w [].

Definition throw {St A} (e : JsError) : M St A :=
  fun s w => mkOutcome (inl e) s w [].

Definition bind {St A B} (m : M St A) (k : A -> M St B) : M St B :=
  fun s w =>
    match m s w with
    | mkOutcome (inl e) s1 w1 calls1 => mkOutcome (inl e) s1 w1 calls1
    | mkOutcome (inr a) s1 w1 calls1 =>
        match k a s1 w1 with
        | mkOutcome r s2 w2 calls2 => mkOutcome r s2 w2 (calls1 ++ calls2)
        end
    end.

(** [try { body } catch (error) { handler }] *)
Definition try_catch {St A} (body : M St A) (handler : JsError -> M St A) : M St A :=
  fun s w =>
    match body s w with
    | mkOutcome (inl e) s1 w1 calls1 =>
        match handler e s1 w1 with
        | mkOutcome r s2 w2 calls2 => mkOutcome r s2 w2 (calls1 ++ calls2)
        end
    | mkOutcome (inr a) s1 w1 calls1 => mkOutcome (inr a) s1 w1 calls1
    end.

Declare Scope js_scope.
Delimit Scope js_scope with js.
Notation "'let*' x ':=' m 'in' k" := (bind m (fun x => k))
  (at level 10, x name, m at level 100, k at level 200) : js_scope.
Notation "m ';;' k" := (bind m (fun _ => k))
  (at level 100, k at level 200, right associativity) : js_scope.
Open Scope js_scope.

Definition get {St} : M St St := fun s w => mkOutcome (inr s) s w [].
Definition modify {St} (f : St -> St) : M St unit := fun s w => mkOutcome (inr tt) (f s) w [].

(** [Date.now()], [new Date()] *)
Definition date_now {St} : M St Z := fun s w => mkOutcome (inr (now w)) s w [].

(** The position the next outside call will have. *)
Definition position {St} : M St nat := fun s w => mkOutcome (inr (issued w)) s w [].

(** A call that leaves the process and cannot fail. *)
Definition emit {St} (e : Event) : M St unit :=
  fun s w => mkOutcome (inr tt) s {| now := now w; issued := S (issued w) |} [e].

(** Time passing while a promise is awaited. *)
Definition elapse {St} (ms : Z) : M St unit :=
  fun s w => mkOutcome (inr tt) s {| now := now w + ms; issued := issued w |} [].

(** [for (const x of xs) { body }] *)
Fixpoint for_of {St X} (xs : list X) (body : X -> M St unit) : M St unit :=
  match xs with
  | [] => ret tt
  | x :: rest => body x ;; for_of rest body
  end.

(** Running a method of a component that is a field of the object. *)
Definition within {St T A} (proj : St -> T) (inj : T -> St -> St) (m : M T A) : M St A :=
  fun s w =>
    match m (proj s) w with
    | mkOutcome r t w1 calls1 => mkOutcome r (inj t s) w1 calls1
    end.

Definition logger_info {St} (text : string) : M St unit := emit (Log info text).
Definition logger_error {St} (text : string) : M St unit := emit (Log error_level text).

Definition nl : string := String (ascii_of_nat 10) "".

(** ** [Map] objects iterated in insertion order *)

Fixpoint map_get {V} (k : string) (m : list (string * V)) : option V :=
  match m with
  | [] => None
  | (k', v) :: rest => if String.eqb k k' then Some v else map_get k rest
  end.

Definition map_has {V} (k : string) (m : list (string * V)) : bool :=
  match map_get k m with Some _ => true | None => false end.

(** [m.set(k, v)]: a key already present keeps its place. *)
Fixpoint map_set {V} (k : string) (v : V) (m : list (string * V)) : list (string * V) :=
  match m with
  | [] => [(k, v)]
  | (k', v') :: rest =>
      if String.eqb k k' then (k, v) :: rest else (k', v') :: map_set k v rest
  end.

(** ** The objects *)

(** [class PluginManager] *)
Record PluginManager := {
  plugins : list (string * Plugin);
  pluginConfigs : list (string * PluginConfig) }.

Definition new_PluginManager : PluginManager :=
  {| plugins := []; pluginConfigs := [] |}.

Definition set_plugins (f : list (string * Plugin) -> list (string * Plugin))
    (pm : PluginManager) : PluginManager :=
  {| plugins := f (plugins pm); pluginConfigs := pluginConfigs pm |}.

Definition set_pluginConfigs
    (f : list (string * PluginConfig) -> list (string * PluginConfig))
    (pm : PluginManager) : PluginManager :=
  {| plugins := plugins pm; pluginConfigs := f (pluginConfigs pm) |}.

(** [class WhatsAppInstance].  ([authDir] is a function of the phone number
    and [groupMetadataCache] is only read by the socket library; neither is
    kept here.) *)
Record Instance := {
  instanceData : InstanceData;
  sock : option Sock;
  isConnected : bool;
  connectionStatus : ConnectionStatus;
  qrCode : option string;
  pluginManager : PluginManager;
  reconnectAttempts : Z;
  maxReconnectAttempts : Z;
  isManualRestart : bool }.

(** [constructor(instanceData)] *)
Definition new_WhatsAppInstance (data : InstanceData) : Instance := {|
  instanceData := data;
  sock := None;
  isConnected := false;
  connectionStatus := disconnected;
  qrCode := None;
  pluginManager := new_PluginManager;
  reconnectAttempts := 0;
  maxReconnectAttempts := 5;
  isManualRestart := false |}.

Definition set_sock (v : option Sock) (i : Instance) : Instance :=
  {| instanceData := instanceData i; sock := v; isConnected := isConnected i;
     connectionStatus := connectionStatus i; qrCode := qrCode i;
     pluginManager := pluginManager i; reconnectAttempts := reconnectAttempts i;
     maxReconnectAttempts := maxReconnectAttempts i;
     isManualRestart := isManualRestart i |}.

Definition set_isConnected (v : bool) (i : Instance) : Instance :=
  {| instanceData := instanceData i; sock := sock i; isConnected := v;
     connectionStatus := connectionStatus i; qrCode := qrCode i;
     pluginManager := pluginManager i; reconnectAttempts := reconnectAttempts i;
     maxReconnectAttempts := maxReconnectAttempts i;
     isManualRestart := isManualRestart i |}.

Definition set_connectionStatus (v : ConnectionStatus) (i : Instance) : Instance :=
  {| instanceData := instanceData i; sock := sock i; isConnected := isConnected i;
     connectionStatus := v; qrCode := qrCode i;
     pluginManager := pluginManager i; reconnectAttempts := reconnectAttempts i;
     maxReconnectAttempts := maxReconnectAttempts i;
     isManualRestart := isManualRestart i |}.

Definition set_qrCode (v : option string) (i : Instance) : Instance :=
  {| instanceData := instanceData i; sock := sock i; isConnected := isConnected i;
     connectionStatus := connectionStatus i; qrCode := v;
     pluginManager := pluginManager i; reconnectAttempts := reconnectAttempts i;
     maxReconnectAttempts := maxReconnectAttempts i;
     isManualRestart := isManualRestart i |}.

Definition set_pluginManager (v : PluginManager) (i : Instance) : Instance :=
  {| instanceData := instanceData i; sock := sock i; isConnected := isConnected i;
     connectionStatus := connectionStatus i; qrCode := qrCode i;
     pluginManager := v; reconnectAttempts := reconnectAttempts i;
     maxReconnectAttempts := maxReconnectAttempts i;
     isManualRestart := isManualRestart i |}.

Definition set_reconnectAttempts (v : Z) (i : Instance) : Instance :=
  {| instanceData := instanceData i; sock := sock i; isConnected := isConnected i;
     connectionStatus := connectionStatus i; qrCode := qrCode i;
     pluginManager := pluginManager i; reconnectAttempts := v;
     maxReconnectAttempts := maxReconnectAttempts i;
     isManualRestart := isManualRestart i |}.

Definition set_isManualRestart (v : bool) (i : Instance) : Instance :=
  {| instanceData := instanceData i; sock := sock i; isConnected := isConnected i;
     connectionStatus := connectionStatus i; qrCode := qrCode i;
     pluginManager := pluginManager i; reconnectAttempts := reconnectAttempts i;
     maxReconnectAttempts := maxReconnectAttempts i;
     isManualRestart := v |}.

(** More of the JavaScript string library. *)

Definition endsWith (s p : string) : bool :=
  String.prefix (String.rev p) (String.rev s).

Fixpoint string_drop (n : nat) (s : string) : string :=
  match n, s with
  | O, _ => s
  | S n', String _ rest => string_drop n' rest
  | S _, EmptyString => EmptyString
  end.

(** [s.replace(p, '')] with a string pattern: the first occurrence only. *)
Fixpoint remove_first (p s : string) : string :=
  if String.prefix p s then string_drop (String.length p) s
  else match s with
       | EmptyString => EmptyString
       | String c rest => String c (remove_first p rest)
       end.

Definition lower_ascii (c : ascii) : ascii :=
  let n := nat_of_ascii c in
  if ((65 <=? n) && (n <=? 90))%nat then ascii_of_nat (n + 32) else c.

Definition upper_ascii (c : ascii) : ascii :=
  let n := nat_of_ascii c in
  if ((97 <=? n) && (n <=? 122))%nat then ascii_of_nat (n - 32) else c.

(** [s.toLowerCase()], on the ASCII letters. *)
Fixpoint toLowerCase (s : string) : string :=
  match s with
  | EmptyString => EmptyString
  | String c rest => String (lower_ascii c) (toLowerCase rest)
  end.

(** [s.indexOf('-')], [None] for -1. *)
Fixpoint indexOf (sep : ascii) (s : string) : option nat :=
  match s with
  | EmptyString => None
  | String c rest =>
      if Ascii.eqb c sep then Some O else S <$> indexOf sep rest
  end.

(** [s.slice(1, e)] where [e] is [s.indexOf('-')]: a negative end counts
    from the end of the string. *)
Definition slice1 (s : string) (e : option nat) : string :=
  match e with
  | Some i => String.substring 1 (i - 1) s
  | None => String.substring 1 (String.length s - 2) s
  end.

(** ** The connection state machine *)

(** The [connection] field of a [connection.update] signal. *)
Inductive Connection := conn_close | conn_open | conn_connecting.

(** A [connection.update] signal: [connection], the status code
    [lastDisconnect?.error?.output?.statusCode], and [qr]. *)
Record ConnectionUpdate := {
  connection : option Connection;
  statusCode : option Z;
  qr : option string }.

Definition show_connection (c : option Connection) : string :=
  match c with
  | Some conn_close => "close"
  | Some conn_open => "open"
  | Some conn_connecting => "connecting"
  | None => "undefined"
  end.

(** The [data] of a [connection.update] event with only the fields every
    branch sets. *)
Definition connection_data (status : ConnectionStatus) (instance : InstanceData)
    (timestamp : Z) (text : string) : ConnectionData :=
  {| cd_status := status; cd_qrCode := None; cd_instance := instance;
     cd_timestamp := timestamp; cd_message := text;
     cd_reconnectAttempt := None; cd_maxReconnectAttempts := None;
     cd_disconnectReason := None; cd_wasManualRestart := None;
     cd_previousReconnectAttempts := None |}.

Section Services.

Variable env : Env.

(** [DisconnectReason.loggedOut] of the socket library. *)
Variable loggedOut : Z.

(** An awaited call to an outside service: it is made, and the environment
    says whether it fails. *)
Definition call {St} (e : Event) : M St unit :=
  fun s w =>
    mkOutcome (match fault env (issued w) with
               | Some err => inl err
               | None => inr tt
               end)
              s {| now := now w; issued := S (issued w) |} [e].

(** *** PluginManager *)

(** [loadPlugins()] *)
Definition loadPlugins : M PluginManager unit :=
  try_catch
    (let* n := position in
     call ReadPluginDir ;;
     let files := plugin_files env n in
     let pluginFiles := filter (fun file => endsWith file ".plugin.js" = true) files in
     logger_info ("Loading " +:+ pretty (length pluginFiles) +:+ " plugins...") ;;
     for_of pluginFiles (fun file =>
       let pluginName := remove_first ".plugin.js" file in
       try_catch
         (let* k := position in
          call (RequirePlugin file) ;;
          let plugin := plugin_module env k file in
          modify (set_plugins (map_set pluginName (pm_handler plugin))) ;;
          let config := default {| cfg_enabled := true; cfg_options := [] |}
                                (pm_config plugin) in
          modify (set_pluginConfigs (map_set pluginName config)) ;;
          logger_info ("Loaded plugin: " +:+ pluginName +:+ " - Enabled: "
                       +:+ (if cfg_enabled config then "true" else "false")))
         (fun error =>
            logger_error ("Failed to load plugin " +:+ pluginName +:+ ": "
                          +:+ err_message error))) ;;
     let* this := get in
     logger_info ("Plugin loading complete. " +:+ pretty (length (plugins this))
                  +:+ " plugins loaded."))
    (fun error => logger_error ("Error loading plugins: " +:+ err_message error)).

(** The promises collected by the loop of [executePlugins]: each enabled
    plugin is called, and its promise kept with the [.catch] that logs. *)
Fixpoint call_enabled (sock : option Sock) (message : Message)
    (configs : list (string * PluginConfig))
    (entries : list (string * Plugin)) (promises : list (string * PluginPromise))
    : M PluginManager (list (string * PluginPromise)) :=
  match entries with
  | [] => ret promises
  | (pluginName, plugin) :: rest =>
      match map_get pluginName configs with
      | None => throw (Error "Cannot read properties of undefined (reading 'enabled')")
      | Some config =>
          if cfg_enabled config then
            let props := {| props_enabled := cfg_enabled config;
                            props_sock := sock;
                            props_message := message;
                            props_options := cfg_options config |} in
            emit (PluginCall pluginName props) ;;
            call_enabled sock message configs rest
                         (promises ++ [(pluginName, plugin props)])
          else call_enabled sock message configs rest promises
      end
  end.

(** [await Promise.all(promises)]: every promise carries its [.catch], so
    the join never rejects; each rejection is logged by its handler.  The
    handlers' log lines are listed in registration order: the order in which
    the plugins settle is left out of the model. *)
Definition Promise_all (promises : list (string * PluginPromise)) : M PluginManager unit :=
  for_of promises (fun '(pluginName, promise) =>
    match promise with
    | Fulfils => ret tt
    | Rejects error =>
        logger_error ("Plugin " +:+ pluginName +:+ " error: " +:+ err_message error)
    end).

(** [executePlugins(sock, message)] *)
Definition executePlugins (sock : option Sock) (message : Message) : M PluginManager unit :=
  let* this := get in
  let* promises := call_enabled sock message (pluginConfigs this) (plugins this) [] in
  Promise_all promises.

Definition with_enabled (v : bool) (config : option PluginConfig) : PluginConfig :=
  {| cfg_enabled := v;
     cfg_options := match config with Some c => cfg_options c | None => [] end |}.

(** [enablePlugin(pluginName)] *)
Definition enablePlugin (pluginName : string) : M PluginManager bool :=
  let* this := get in
  if map_has pluginName (plugins this) then
    modify (set_pluginConfigs
              (map_set pluginName (with_enabled true (map_get pluginName (pluginConfigs this))))) ;;
    logger_info ("Plugin " +:+ pluginName +:+ " enabled") ;;
    ret true
  else ret false.

(** [disablePlugin(pluginName)] *)
Definition disablePlugin (pluginName : string) : M PluginManager bool :=
  let* this := get in
  if map_has pluginName (plugins this) then
    modify (set_pluginConfigs
              (map_set pluginName (with_enabled false (map_get pluginName (pluginConfigs this))))) ;;
    logger_info ("Plugin " +:+ pluginName +:+ " disabled") ;;
    ret true
  else ret false.


(** *** WhatsAppInstance: outside services *)

Definition updateStatus (status : DbStatus) : M Instance unit :=
  let* this := get in
  call (UpdateStatus (inst_id (instanceData this)) status).

Definition instanceLog (level : Level) (text : string) : M Instance unit :=
  let* this := get in
  call (InstanceLogCreate (inst_id (instanceData this)) level text).

(** [await axios.post(webhook.url, payload, { timeout: 5000, ... })]: the
    request is issued, the wait lasts as long as the environment says, and
    the promise settles. *)
Definition axios_post (url : string) (payload : Payload) (config : AxiosConfig)
    : M Instance HttpResponse :=
  fun s w =>
    let '(settled, ms) := post_result env (issued w) url (ax_timeout config) in
    mkOutcome (match settled with
               | Resolved response => inr response
               | Rejected e => inl e
               end)
              s {| now := now w + ms; issued := S (S (issued w)) |}
              [HttpPost url payload config; HttpSettled url settled].

(** *** Webhook delivery *)

(** [{ timeout: 5000, headers: { 'Content-Type': ..., 'User-Agent': ... } }] *)
Definition webhook_config : AxiosConfig :=
  {| ax_timeout := 5000;
     ax_headers := [("Content-Type", "application/json");
                    ("User-Agent", pkg_name env +:+ "/" +:+ pkg_version env)] |}.

(** The body of the [catch] after [axios.post]: the record of a failed
    attempt. *)
Definition failure_record (historyData : HistoryData) (error : JsError)
    (responseTime completedAt : Z) : HistoryData :=
  let is_abort := bool_decide (err_code error = Some "ECONNABORTED") in
  let status := if is_abort then timeout else failed in
  let httpStatusCode :=
    if is_abort then None else resp_status <$> err_response error in
  let response := if is_abort then None else err_response error in
  {| hd_instanceId := hd_instanceId historyData;
     hd_webhookId := hd_webhookId historyData;
     hd_event := hd_event historyData;
     hd_payload := hd_payload historyData;
     hd_status := status;
     hd_retryCount := hd_retryCount historyData;
     hd_httpStatusCode := httpStatusCode;
     hd_responseTime := Some responseTime;
     hd_response := response;
     hd_errorMessage := Some (err_message error);
     hd_completedAt := Some completedAt |}.

(** The record of an attempt whose promise resolved. *)
Definition success_record (historyData : HistoryData) (response : HttpResponse)
    (responseTime completedAt : Z) : HistoryData :=
  {| hd_instanceId := hd_instanceId historyData;
     hd_webhookId := hd_webhookId historyData;
     hd_event := hd_event historyData;
     hd_payload := hd_payload historyData;
     hd_status := success;
     hd_retryCount := hd_retryCount historyData;
     hd_httpStatusCode := Some (resp_status response);
     hd_responseTime := Some responseTime;
     hd_response := Some response;
     hd_errorMessage := hd_errorMessage historyData;
     hd_completedAt := Some completedAt |}.

(** One turn of the loop [for (const webhook of webhooks)]. *)
Definition deliver (event : string) (data : EventData) (webhook : Webhook) : M Instance unit :=
  let* this := get in
  let* startTime := date_now in
  let* timestamp := date_now in
  let payload := {| pl_event := event; pl_data := data; pl_timestamp := timestamp;
                    pl_instanceId := inst_id (instanceData this) |} in
  let historyData := {| hd_instanceId := inst_id (instanceData this);
                        hd_webhookId := wh_id webhook;
                        hd_event := event;
                        hd_payload := payload;
                        hd_status := pending;
                        hd_retryCount := 0;
                        hd_httpStatusCode := None;
                        hd_responseTime := None;
                        hd_response := None;
                        hd_errorMessage := None;
                        hd_completedAt := None |} in
  let* historyData :=
    try_catch
      (let* response := axios_post (wh_url webhook) payload webhook_config in
       let* finished := date_now in
       let responseTime := finished - startTime in
       let* completedAt := date_now in
       logger_info ("Webhook " +:+ wh_id webhook +:+ " triggered successfully for "
                    +:+ event +:+ " (" +:+ pretty responseTime +:+ "ms)") ;;
       ret (success_record historyData response responseTime completedAt))
      (fun error =>
       let* finished := date_now in
       let responseTime := finished - startTime in
       let* completedAt := date_now in
       logger_error ("Failed to trigger webhook " +:+ wh_id webhook +:+ " for "
                     +:+ event +:+ ": " +:+ err_message error
                     +:+ " (" +:+ pretty responseTime +:+ "ms)") ;;
       ret (failure_record historyData error responseTime completedAt)) in
  try_catch
    (call (HistoryCreate historyData))
    (fun historyError =>
       logger_error ("Failed to save webhook history for " +:+ wh_id webhook +:+ ": "
                     +:+ err_message historyError)).

(** [triggerWebhooks(event, data)] *)
Definition triggerWebhooks (event : string) (data : EventData) : M Instance unit :=
  let* this := get in
  try_catch
    (let* n := position in
     call (GetEnabledWebhooks (inst_id (instanceData this)) event) ;;
     let webhooks := webhooks_of env n (inst_id (instanceData this)) event in
     for_of webhooks (deliver event data))
    (fun error =>
       logger_error ("Error triggering webhooks for " +:+ inst_phone (instanceData this)
                     +:+ ": " +:+ err_message error)).

(** *** WhatsAppInstance: life cycle *)

(** [close()]: close the socket without logging out. *)
Definition close : M Instance unit :=
  let* this := get in
  match sock this with
  | Some _ =>
      try_catch
        (call WsClose ;;
         logger_info ("Connection closed for " +:+ inst_phone (instanceData this)))
        (fun error =>
           logger_error ("Error closing connection for " +:+ inst_phone (instanceData this)))
  | None => ret tt
  end ;;
  modify (set_isConnected false) ;;
  modify (set_connectionStatus disconnected).

(** [disconnect()]: log out. *)
Definition disconnect : M Instance unit :=
  let* this := get in
  match sock this with
  | Some _ =>
      try_catch
        (call SockLogout ;;
         logger_info ("Instance " +:+ inst_phone (instanceData this) +:+ " logged out"))
        (fun error =>
           logger_error ("Error logging out instance " +:+ inst_phone (instanceData this)))
  | None => ret tt
  end ;;
  modify (set_isConnected false) ;;
  modify (set_connectionStatus disconnected) ;;
  updateStatus db_inactive.

(** [initialize()].  [setupEventHandlers] registers [on_connection_update],
    [handleMessagesUpsert] and [handleGroupUpdate] on the new socket and
    makes no outside call. *)
Definition initialize : M Instance unit :=
  try_catch
    (let* this := get in
     logger_info ("Initializing WhatsApp instance for "
                  +:+ inst_phone (instanceData this) +:+ "...") ;;
     updateStatus db_connecting ;;
     call EnsureAuthDir ;;
     within pluginManager set_pluginManager loadPlugins ;;
     call UseAuthState ;;
     let* n := position in
     call FetchVersion ;;
     let '(version, isLatest) := wa_version env n in
     logger_info ("Using WA version " +:+ version +:+ ", isLatest: "
                  +:+ (if isLatest : bool then "true" else "false") +:+ " for "
                  +:+ inst_phone (instanceData this)) ;;
     call MakeSocket ;;
     modify (set_sock (Some {| sock_user := None |})) ;;
     instanceLog info ("WhatsApp instance initialized. WA version " +:+ version
                       +:+ " is latest? " +:+ (if isLatest : bool then "true" else "false")))
    (fun error =>
       let* this := get in
       logger_error ("Error initializing WhatsApp instance "
                     +:+ inst_phone (instanceData this) +:+ ":") ;;
       instanceLog error_level ("Error initializing WhatsApp instance: "
                                +:+ err_message error) ;;
       modify (set_connectionStatus error_status) ;;
       updateStatus db_error).

(** [lastDisconnect?.error?.output?.statusCode !== DisconnectReason.loggedOut] *)
Definition shouldReconnect (update : ConnectionUpdate) : bool :=
  negb (bool_decide (statusCode update = Some loggedOut)).

(** The [if (qr) { ... }] block of the handler. *)
Definition on_qr (code : string) : M Instance unit :=
  modify (set_qrCode (Some code)) ;;
  let* this := get in
  logger_info ("QR Code generated for " +:+ inst_phone (instanceData this)
               +:+ ". Scan to connect.") ;;
  (if is_development env then emit (QrPrint code) else ret tt) ;;
  modify (set_connectionStatus qr_ready) ;;
  updateStatus db_qr_ready ;;
  let* timestamp := date_now in
  triggerWebhooks "connection.update"
    (ConnectionUpdateData
       {| cd_status := qr_ready; cd_qrCode := Some code;
          cd_instance := instanceData this; cd_timestamp := timestamp;
          cd_message := "QR Code generated. Scan to connect.";
          cd_reconnectAttempt := None; cd_maxReconnectAttempts := None;
          cd_disconnectReason := None; cd_wasManualRestart := None;
          cd_previousReconnectAttempts := None |}).

(** The branch of the close block that reconnects. *)
Definition on_close_reconnect (update : ConnectionUpdate) : M Instance unit :=
  let disconnectReason := statusCode update in
  modify (fun i => set_reconnectAttempts (reconnectAttempts i + 1) i) ;;
  let* this := get in
  logger_info ("Connection closed for " +:+ inst_phone (instanceData this)
               +:+ ", reconnecting... (attempt " +:+ pretty (reconnectAttempts this)
               +:+ ")") ;;
  modify (set_connectionStatus reconnecting) ;;
  modify (set_isConnected false) ;;
  updateStatus db_reconnecting ;;
  let* timestamp := date_now in
  let* this := get in
  triggerWebhooks "connection.update"
    (ConnectionUpdateData
       {| cd_status := reconnecting; cd_qrCode := None;
          cd_instance := instanceData this; cd_timestamp := timestamp;
          cd_message := "Connection lost. Reconnecting... (attempt "
                        +:+ pretty (reconnectAttempts this) +:+ "/"
                        +:+ pretty (maxReconnectAttempts this) +:+ ")";
          cd_reconnectAttempt := Some (reconnectAttempts this);
          cd_maxReconnectAttempts := Some (maxReconnectAttempts this);
          cd_disconnectReason := disconnectReason;
          cd_wasManualRestart := None;
          cd_previousReconnectAttempts := None |}) ;;
  emit (SetTimeout 5000 call_initialize).

(** The [else] branch of the close block. *)
Definition on_close_logout (update : ConnectionUpdate) : M Instance unit :=
  let disconnectReason := statusCode update in
  let* this := get in
  (if isManualRestart this then
     logger_info ("Connection closed for " +:+ inst_phone (instanceData this)
                  +:+ " due to manual restart") ;;
     modify (set_isManualRestart false)
   else
     logger_info ("Connection closed for " +:+ inst_phone (instanceData this)
                  +:+ ", logged out or max reconnect attempts reached")) ;;
  modify (set_connectionStatus logged_out) ;;
  modify (set_isConnected false) ;;
  updateStatus db_inactive ;;
  let* timestamp := date_now in
  let* this := get in
  triggerWebhooks "connection.update"
    (ConnectionUpdateData
       {| cd_status := logged_out; cd_qrCode := None;
          cd_instance := instanceData this; cd_timestamp := timestamp;
          cd_message := if isManualRestart this
                        then "Connection closed due to manual restart"
                        else "Logged out or max reconnect attempts reached";
          cd_reconnectAttempt := None; cd_maxReconnectAttempts := None;
          cd_disconnectReason := disconnectReason;
          cd_wasManualRestart := Some (isManualRestart this);
          cd_previousReconnectAttempts := None |}).

(** The [if (connection === 'close') { ... }] block. *)
Definition on_close (update : ConnectionUpdate) : M Instance unit :=
  let* this := get in
  if shouldReconnect update
     && (reconnectAttempts this <? maxReconnectAttempts this)
     && negb (isManualRestart this)
  then on_close_reconnect update
  else on_close_logout update.

(** The [else if (connection === 'open') { ... }] block. *)
Definition on_open : M Instance unit :=
  let* this := get in
  logger_info ("WhatsApp connection established for " +:+ inst_phone (instanceData this)) ;;
  modify (set_connectionStatus connected) ;;
  modify (set_isConnected true) ;;
  modify (set_qrCode None) ;;
  modify (set_reconnectAttempts 0) ;;
  updateStatus db_active ;;
  let* timestamp := date_now in
  let* this := get in
  triggerWebhooks "connection.update"
    (ConnectionUpdateData
       {| cd_status := connected; cd_qrCode := None;
          cd_instance := instanceData this; cd_timestamp := timestamp;
          cd_message := "WhatsApp connection established successfully";
          cd_reconnectAttempt := None; cd_maxReconnectAttempts := None;
          cd_disconnectReason := None; cd_wasManualRestart := None;
          cd_previousReconnectAttempts := Some (reconnectAttempts this) |}).

(** The [else if (connection === 'connecting') { ... }] block. *)
Definition on_connecting : M Instance unit :=
  let* this := get in
  logger_info ("Connecting to WhatsApp for " +:+ inst_phone (instanceData this) +:+ "...") ;;
  modify (set_connectionStatus connecting) ;;
  updateStatus db_connecting ;;
  let* timestamp := date_now in
  triggerWebhooks "connection.update"
    (ConnectionUpdateData
       (connection_data connecting (instanceData this) timestamp
                        "Attempting to connect to WhatsApp...")).

(** The handler [setupEventHandlers] registers for ['connection.update']. *)
Definition on_connection_update (update : ConnectionUpdate) : M Instance unit :=
  (match qr update with
   | Some code => if Js.truthy (Some code) then on_qr code else ret tt
   | None => ret tt
   end) ;;
  (match connection update with
   | Some conn_close => on_close update
   | Some conn_open => on_open
   | Some conn_connecting => on_connecting
   | None => ret tt
   end) ;;
  instanceLog info ("Connection status changed: " +:+ show_connection (connection update)).

(** *** WhatsAppInstance: inbound events *)

(** [storeMessage(message)] *)
Definition storeMessage (message : Message) : M Instance unit :=
  let* this := get in
  try_catch
    (match sock this with
     | None => throw (Error "Cannot read properties of null (reading 'user')")
     | Some socket =>
         let messageData :=
           {| md_instanceId := inst_id (instanceData this);
              md_direction := incoming;
              md_from := remoteJid (key message);
              md_to := Js.or_else (sock_user socket) (inst_phone (instanceData this));
              md_type := content_type message;
              md_content := content_text message;
              md_messageId := key_id (key message);
              md_pushName := pushName message;
              md_raw := Some message;
              md_isGroup := false;
              md_mediaUrl := None;
              md_filename := None;
              md_status := "received";
              md_sentAt := messageTimestamp message * 1000 |} in
         call (MessageCreate messageData)
     end)
    (fun error =>
       logger_error ("Error storing message for " +:+ inst_phone (instanceData this)
                     +:+ ": " +:+ err_message error)).

(** [this.pluginManager.executePlugins(this.sock, message)] *)
Definition dispatch_plugins (message : Message) : M Instance unit :=
  let* this := get in
  within pluginManager set_pluginManager (executePlugins (sock this) message).

(** The body of the loop of [handleMessagesUpsert] for one message. *)
Definition process_message (message : Message) : M Instance unit :=
  let* this := get in
  if fromMe (key message) then ret tt
  else
    try_catch
      (logger_info ("Processing message from " +:+ Js.or_else (pushName message) "Unknown"
                    +:+ " for instance " +:+ inst_phone (instanceData this)) ;;
       storeMessage message ;;
       dispatch_plugins message ;;
       triggerWebhooks "message.received"
         (MessageReceivedData message (instanceData this)))
      (fun error =>
         logger_error ("Error processing message for " +:+ inst_phone (instanceData this)
                       +:+ ": " +:+ err_message error)).

(** [handleMessagesUpsert({ messages, type })] *)
Definition handleMessagesUpsert (messages : list Message) (type : string) : M Instance unit :=
  if negb (String.eqb type "notify") then ret tt
  else for_of messages process_message.


(** *** WhatsAppInstance: outbound operations *)

(** The answer of a send operation. *)
Record SendResult := {
  sr_success : bool;
  sr_message : string;
  sr_messageId : string }.

(** The error thrown by the guard [if (!this.isConnected)]. *)
Definition NotConnected (phone : string) : JsError :=
  Error ("WhatsApp instance " +:+ phone +:+ " not connected").

(** [(s => s[0].toUpperCase() + s.slice(1, s.indexOf('-')))(packageJson.name)] *)
Definition product_name : M Instance string :=
  match pkg_name env with
  | EmptyString => throw (Error "Cannot read properties of undefined (reading 'toUpperCase')")
  | String c _ =>
      ret (String (upper_ascii c) (slice1 (pkg_name env) (indexOf "-" (pkg_name env))))
  end.

(** The text with the watermark appended. *)
Definition watermarked (text : string) : M Instance string :=
  let* product := product_name in
  ret (text +:+ nl +:+ nl +:+ "> Sent via " +:+ product +:+ nl
       +:+ "> @" +:+ pkg_author env +:+ "/" +:+ pkg_name env +:+ ".git").

(** [await this.sock.sendMessage(jid, content)], giving [result.key.id]. *)
Definition sock_sendMessage (jid : string) (content : Outgoing) : M Instance string :=
  let* this := get in
  match sock this with
  | None => throw (Error "Cannot read properties of null (reading 'sendMessage')")
  | Some _ =>
      let* n := position in
      call (SockSendMessage jid content) ;;
      ret (send_key env n)
  end.

Definition require_connected : M Instance unit :=
  let* this := get in
  if negb (isConnected this) then throw (NotConnected (inst_phone (instanceData this)))
  else ret tt.

Definition outgoing_record (this : Instance) (to type content messageId : string)
    (isGroup : bool) (mediaUrl filename : option string) (sentAt : Z) : MessageData :=
  {| md_instanceId := inst_id (instanceData this);
     md_direction := outgoing;
     md_from := inst_phone (instanceData this);
     md_to := to;
     md_type := type;
     md_content := content;
     md_messageId := messageId;
     md_pushName := None;
     md_raw := None;
     md_isGroup := isGroup;
     md_mediaUrl := mediaUrl;
     md_filename := filename;
     md_status := "sent";
     md_sentAt := sentAt |}.

(** [sendMessage(phoneNumber, messageText)] *)
Definition sendMessage (phoneNumber messageText : string) : M Instance SendResult :=
  let* this := get in
  try_catch
    (require_connected ;;
     let formattedNumber := Phone.formattedNumber phoneNumber in
     let jid := Phone.jid_of formattedNumber in
     logger_info ("Sending message from " +:+ inst_phone (instanceData this) +:+ " to "
                  +:+ jid +:+ ": " +:+ messageText) ;;
     let* finalMessage := watermarked messageText in
     let* messageId := sock_sendMessage jid (TextMessage finalMessage) in
     let* sentAt := date_now in
     let messageData :=
       outgoing_record this formattedNumber "text" messageText messageId false None None
                       sentAt in
     call (MessageCreate messageData) ;;
     triggerWebhooks "message.sent"
       (MessageSentData messageData (instanceData this) formattedNumber false None) ;;
     logger_info ("Message sent successfully from " +:+ inst_phone (instanceData this)
                  +:+ " to " +:+ phoneNumber) ;;
     instanceLog info ("Message sent: " +:+ messageText) ;;
     ret {| sr_success := true; sr_message := "Message sent successfully";
            sr_messageId := messageId |})
    (fun error =>
       logger_error ("Error sending message from " +:+ inst_phone (instanceData this) +:+ ":") ;;
       instanceLog error_level ("Error sending message: " +:+ err_message error) ;;
       throw error).

(** [sendGroupMessage(groupId, messageText)] *)
Definition sendGroupMessage (groupId messageText : string) : M Instance SendResult :=
  let* this := get in
  try_catch
    (require_connected ;;
     let jid := if Js.includes groupId "@g.us" then groupId else groupId +:+ "@g.us" in
     logger_info ("Sending group message from " +:+ inst_phone (instanceData this)
                  +:+ " to " +:+ jid +:+ ": " +:+ messageText) ;;
     let* finalMessage := watermarked messageText in
     let* messageId := sock_sendMessage jid (TextMessage finalMessage) in
     let* sentAt := date_now in
     let messageData :=
       outgoing_record this groupId "text" messageText messageId true None None sentAt in
     call (MessageCreate messageData) ;;
     triggerWebhooks "message.sent"
       (MessageSentData messageData (instanceData this) groupId true None) ;;
     logger_info ("Group message sent successfully from "
                  +:+ inst_phone (instanceData this) +:+ " to " +:+ groupId) ;;
     instanceLog info ("Group message sent to " +:+ groupId +:+ ": " +:+ messageText) ;;
     ret {| sr_success := true; sr_message := "Group message sent successfully";
            sr_messageId := messageId |})
    (fun error =>
       logger_error ("Error sending group message from "
                     +:+ inst_phone (instanceData this) +:+ ":") ;;
       instanceLog error_level ("Error sending group message: " +:+ err_message error) ;;
       throw error).

(** The argument [mediaData] of [sendMediaMessage]. *)
Record MediaData := {
  media_type : string;
  media_url : string;
  media_caption : option string;
  media_filename : option string }.

(** [caption ? `${caption}...watermark` : undefined] *)
Definition watermarked_caption (caption : option string) : M Instance (option string) :=
  match caption with
  | Some text =>
      if Js.truthy (Some text) then (let* c := watermarked text in ret (Some c))
      else ret None
  | None => ret None
  end.

(** The [switch (type.toLowerCase())] of [sendMediaMessage]. *)
Definition media_content (mediaData : MediaData) : M Instance Outgoing :=
  let type := toLowerCase (media_type mediaData) in
  if String.eqb type "image" then
    let* caption := watermarked_caption (media_caption mediaData) in
    ret (ImageMessage (media_url mediaData) caption)
  else if String.eqb type "video" then
    let* caption := watermarked_caption (media_caption mediaData) in
    ret (VideoMessage (media_url mediaData) caption)
  else if String.eqb type "audio" then
    ret (AudioMessage (media_url mediaData) "audio/mp4")
  else if String.eqb type "document" then
    let* caption := watermarked_caption (media_caption mediaData) in
    ret (DocumentMessage (media_url mediaData)
                         (Js.or_else (media_filename mediaData) "document") caption)
  else
    throw (Error ("Unsupported media type: " +:+ media_type mediaData
                  +:+ ". Supported types: image, video, audio, document")).

(** [sendMediaMessage(phoneNumber, mediaData)] *)
Definition sendMediaMessage (phoneNumber : string) (mediaData : MediaData)
    : M Instance SendResult :=
  let* this := get in
  try_catch
    (require_connected ;;
     let formattedNumber := Phone.formattedNumber phoneNumber in
     let jid := Phone.jid_of formattedNumber in
     let type := media_type mediaData in
     logger_info ("Sending " +:+ type +:+ " media from " +:+ inst_phone (instanceData this)
                  +:+ " to " +:+ jid) ;;
     let* messageContent := media_content mediaData in
     let* messageId := sock_sendMessage jid messageContent in
     let* sentAt := date_now in
     let messageData :=
       outgoing_record this formattedNumber (toLowerCase type)
                       (Js.or_else (media_caption mediaData) (type +:+ " media"))
                       messageId false (Some (media_url mediaData))
                       (media_filename mediaData) sentAt in
     call (MessageCreate messageData) ;;
     triggerWebhooks "message.sent"
       (MessageSentData messageData (instanceData this) formattedNumber false
                        (Some (toLowerCase type))) ;;
     logger_info (type +:+ " media sent successfully from "
                  +:+ inst_phone (instanceData this) +:+ " to " +:+ phoneNumber) ;;
     instanceLog info (type +:+ " media sent"
                       +:+ (if Js.truthy (media_caption mediaData)
                            then " with caption: " +:+ Js.or_else (media_caption mediaData) ""
                            else "")) ;;
     ret {| sr_success := true; sr_message := type +:+ " media sent successfully";
            sr_messageId := messageId |})
    (fun error =>
       logger_error ("Error sending media message from "
                     +:+ inst_phone (instanceData this) +:+ ":") ;;
       instanceLog error_level ("Error sending media message: " +:+ err_message error) ;;
       throw error).

(** *** WhatsAppInstanceManager *)

(** [class WhatsAppInstanceManager]: [instances] maps a phone number to its
    controller. *)
Record Manager := {
  instances : gmap string Instance;
  initialized : bool }.

Definition set_instance (phone : string) (i : Instance) (m : Manager) : Manager :=
  {| instances := <[phone := i]> (instances m); initialized := initialized m |}.

(** Running a method of the controller [instance] the manager holds under
    [phone]. *)
Definition on_instance {A} (phone : string) (instance : Instance) (m : M Instance A)
    : M Manager A :=
  within (fun mgr => default instance (instances mgr !! phone)) (set_instance phone) m.

Record RestartResult := {
  rr_success : bool;
  rr_message : string }.

(** [restartInstance(phone)] *)
Definition restartInstance (phone : string) : M Manager RestartResult :=
  let* this := get in
  match instances this !! phone with
  | None => throw (Error ("WhatsApp instance " +:+ phone +:+ " not found"))
  | Some instance =>
      on_instance phone instance (modify (set_isManualRestart true)) ;;
      on_instance phone instance close ;;
      emit (Sleep 1000) ;;
      on_instance phone instance initialize ;;
      ret {| rr_success := true; rr_message := "Instance restarted successfully" |}
  end.

End Services.

(** ** The welcome plugin: a debounced batch notifier *)

Module Welcome.

(** [{ id: participant, joinedAt: new Date() }] *)
Record Participant := {
  p_id : string;
  p_joinedAt : Z }.

(** The array kept under a group in [groupParticipants], with the
    [scheduled] property the plugin sets on the array object itself.  A
    fresh [[]] has no such property. *)
Record Pending := {
  items : list Participant;
  scheduled : bool }.

Definition fresh : Pending := {| items := []; scheduled := false |}.

(** An entry of [groupMetadata.participants]: [admin] is ['admin'],
    ['superadmin'] or [null]. *)
Record Member := {
  member_id : string;
  member_admin : option string }.

(** What the socket answers to the flush: the awaited
    [sock.groupMetadata(groupId)] together with [sock.user] as read just
    after it, or the rejection. *)
Inductive MetadataReply :=
| metadata (members : list Member) (user : option string)
| metadata_error (e : JsError).

Inductive SendReply :=
| sent
| send_error (e : JsError).

(** The two awaits a running flush can be suspended at. *)
Inductive Phase := awaiting_metadata | awaiting_send.

Global Instance Phase_eq_dec : EqDecision Phase.
Proof. solve_decision. Defined.

(** The module state: the accumulator object, the timers set with
    [setTimeout] that have not fired yet (by group), the flushes that have
    started and are suspended, and the outside calls made so far. *)
Record State := {
  groupParticipants : gmap string Pending;
  timers : list string;
  flushing : list (string * Phase);
  calls : list Event }.

Definition initial : State :=
  {| groupParticipants := ∅; timers := []; flushing := []; calls := [] |}.

(** What the event loop can run next: a call of [scheduleWelcome], a timer
    firing, or the resumption of a suspended flush. *)
Inductive Step :=
| accumulate (groupId : string) (participants : list Participant)
| fire (groupId : string)
| metadata_arrives (groupId : string) (reply : MetadataReply)
| send_settles (groupId : string) (reply : SendReply).

(** [groupParticipants[groupId]] once the guard
    [if (!groupParticipants[groupId]) groupParticipants[groupId] = []] has
    run. *)
Definition pending_of (gp : gmap string Pending) (groupId : string) : Pending :=
  default fresh (gp !! groupId).

(** [groupMetadata.participants.find(p => p.id === botJid)?.admin] *)
Definition isAdmin (members : list Member) (botJid : string) : bool :=
  match List.find (fun p => String.eqb (member_id p) botJid) members with
  | Some p => Js.truthy (member_admin p)
  | None => false
  end.

(** [formattedWelcomeText(participants)] *)
Definition formattedWelcomeText (participants : list Participant) : string :=
  nl +:+ "⚠️ Waspada pendatang baru detected!!" +:+ nl
  +:+ Js.join "," (map (fun p => "@" +:+ Js.split_head "@" (p_id p)) participants) +:+ nl
  +:+ nl
  +:+ "Selamat datang di *Kodingkeun Community* — Feel free untuk kenalan, share insight, atau sekadar nimbrung obrolan 👋"
  +:+ nl +:+ nl
  +:+ "Please read the group rules and enjoy your stay." +:+ nl
  +:+ nl
  +:+ "> “Alone we can do so little, together we can do so much.” — Helen Keller" +:+ nl.

(** Removing the first occurrence of [x]. *)
Fixpoint remove_one {A} `{EqDecision A} (x : A) (l : list A) : list A :=
  match l with
  | [] => []
  | y :: rest => if decide (x = y) then rest else y :: remove_one x rest
  end.

(** [groupParticipants[groupId] = []; delete groupParticipants[groupId].scheduled;]
    at the end of a flush, which is then over. *)
Definition finish (groupId : string) (phase : Phase) (log : Event) (s : State) : State :=
  {| groupParticipants := <[groupId := fresh]> (groupParticipants s);
     timers := timers s;
     flushing := remove_one (groupId, phase) (flushing s);
     calls := calls s ++ [log] |}.

(** [scheduleWelcome(groupId, participants, sock)]: it runs to its end
    without suspending. *)
Definition scheduleWelcome (groupId : string) (participants : list Participant)
    (s : State) : State :=
  let entry := pending_of (groupParticipants s) groupId in
  let pushed := items entry ++ participants in
  if negb (scheduled entry) then
    {| groupParticipants :=
         <[groupId := {| items := pushed; scheduled := true |}]> (groupParticipants s);
       timers := timers s ++ [groupId];
       flushing := flushing s;
       calls := calls s ++ [SetTimeout (5 * 60 * 1000) (call_flush groupId)] |}
  else
    {| groupParticipants :=
         <[groupId := {| items := pushed; scheduled := scheduled entry |}]>
           (groupParticipants s);
       timers := timers s;
       flushing := flushing s;
       calls := calls s |}.

Definition step (st : Step) (s : State) : option State :=
  match st with
  | accumulate groupId participants => Some (scheduleWelcome groupId participants s)
  | fire groupId =>
      if bool_decide (groupId ∈ timers s) then
        Some {| groupParticipants := groupParticipants s;
                timers := remove_one groupId (timers s);
                flushing := flushing s ++ [(groupId, awaiting_metadata)];
                calls := calls s ++ [GroupMetadata groupId] |}
      else None
  | metadata_arrives groupId reply =>
      if bool_decide ((groupId, awaiting_metadata) ∈ flushing s) then
        match reply with
        | metadata_error e =>
            Some (finish groupId awaiting_metadata
                    (Log error_level ("Error sending welcome message to " +:+ groupId
                                      +:+ ": " +:+ err_message e)) s)
        | metadata members None =>
            Some (finish groupId awaiting_metadata
                    (Log error_level ("Error sending welcome message to " +:+ groupId
                                      +:+ ": Cannot read properties of undefined (reading 'id')")) s)
        | metadata members (Some botJid) =>
            if negb (isAdmin members botJid) then
              Some (finish groupId awaiting_metadata
                      (Log info ("Skipping welcome message for " +:+ groupId
                                 +:+ " - Bot is not admin")) s)
            else
              let batch := items (pending_of (groupParticipants s) groupId) in
              Some {| groupParticipants := groupParticipants s;
                      timers := timers s;
                      flushing := (groupId, awaiting_send)
                                  :: remove_one (groupId, awaiting_metadata) (flushing s);
                      calls := calls s
                               ++ [SockSendMessage groupId
                                     (WelcomeMessage (formattedWelcomeText batch)
                                                     (map p_id batch))] |}
        end
      else None
  | send_settles groupId reply =>
      if bool_decide ((groupId, awaiting_send) ∈ flushing s) then
        match reply with
        | sent =>
            Some (finish groupId awaiting_send
                    (Log info ("Welcomed "
                               +:+ pretty (length (items (pending_of (groupParticipants s) groupId)))
                               +:+ " new members to " +:+ groupId)) s)
        | send_error e =>
            Some (finish groupId awaiting_send
                    (Log error_level ("Error sending welcome message to " +:+ groupId
                                      +:+ ": " +:+ err_message e)) s)
        end
      else None
  end.


(** A run of the event loop. *)
Fixpoint run (steps : list Step) (s : State) : option State :=
  match steps with
  | [] => Some s
  | st :: rest =>
      match step st s with
      | Some s' => run rest s'
      | None => None
      end
  end.

End Welcome.

(** ** The reporting methods, and the manager's operations on one instance *)

(** [getPluginStatus()]: the object the loop fills, one property per
    configuration entry. *)
Definition getPluginStatus (this : PluginManager) : gmap string bool :=
  foldl (fun status entry => <[entry.1 := cfg_enabled entry.2]> status) ∅
        (pluginConfigs this).

(** The object [getStatus()] returns.  The object [getInstanceByPhone]
    builds from a database row has no [reconnectAttempts]. *)
Record Status := {
  st_instanceId : string;
  st_phone : string;
  st_name : string;
  st_alias : string;
  st_isConnected : bool;
  st_connectionStatus : ConnectionStatus;
  st_qrCode : option string;
  st_reconnectAttempts : option Z;
  st_timestamp : Z }.

Definition status_record (this : Instance) (timestamp : Z) : Status :=
  {| st_instanceId := inst_id (instanceData this);
     st_phone := inst_phone (instanceData this);
     st_name := inst_name (instanceData this);
     st_alias := inst_alias (instanceData this);
     st_isConnected := isConnected this;
     st_connectionStatus := connectionStatus this;
     st_qrCode := qrCode this;
     st_reconnectAttempts := Some (reconnectAttempts this);
     st_timestamp := timestamp |}.

(** [getStatus()] *)
Definition getStatus : M Instance Status :=
  let* this := get in
  let* timestamp := date_now in
  ret (status_record this timestamp).

Module InstanceManager.

(** The error of a phone number the manager holds no controller for. *)
Definition NotFound (phone : string) : JsError :=
  Error ("WhatsApp instance " +:+ phone +:+ " not found").

(** [getInstance(phone)] *)
Definition getInstance (phone : string) : M Manager (option Instance) :=
  let* this := get in
  ret (instances this !! phone).

(** [getAllInstances()].  The statuses are listed in the order the map
    enumerates its controllers. *)
Definition getAllInstances : M Manager (list Status) :=
  let* this := get in
  let* timestamp := date_now in
  ret ((fun entry : string * Instance => status_record entry.2 timestamp)
         <$> map_to_list (instances this)).

(** The object [getManagerStatus()] returns. *)
Record ManagerStatus := {
  ms_initialized : bool;
  ms_totalInstances : Z;
  ms_connectedInstances : Z;
  ms_instances : list Status }.

(** [getManagerStatus()] *)
Definition getManagerStatus : M Manager ManagerStatus :=
  let* this := get in
  let* all := getAllInstances in
  ret {| ms_initialized := initialized this;
         ms_totalInstances := Z.of_nat (size (instances this));
         ms_connectedInstances :=
           Z.of_nat (length (List.filter (fun entry : string * Instance => isConnected entry.2)
                                         (map_to_list (instances this))));
         ms_instances := all |}.

Section Methods.

Variable env : Env.

(** [sendMessage(phone, recipientNumber, message)] *)
Definition sendMessage (phone recipientNumber message : string) : M Manager SendResult :=
  let* this := get in
  match instances this !! phone with
  | None => throw (NotFound phone)
  | Some instance => on_instance phone instance (sendMessage env recipientNumber message)
  end.

(** [sendGroupMessage(phone, groupId, message)] *)
Definition sendGroupMessage (phone groupId message : string) : M Manager SendResult :=
  let* this := get in
  match instances this !! phone with
  | None => throw (NotFound phone)
  | Some instance => on_instance phone instance (sendGroupMessage env groupId message)
  end.

(** [sendMediaMessage(phone, recipientNumber, mediaData)] *)
Definition sendMediaMessage (phone recipientNumber : string) (mediaData : MediaData)
    : M Manager SendResult :=
  let* this := get in
  match instances this !! phone with
  | None => throw (NotFound phone)
  | Some instance =>
      on_instance phone instance (sendMediaMessage env recipientNumber mediaData)
  end.

End Methods.

End InstanceManager.

(** ** The group metadata cache handed to the socket *)

Module GroupCache.

(** A controller together with its [groupMetadataCache]; a metadata object
    is kept as its list of participants. *)
Record Cached := {
  controller : Instance;
  groupMetadataCache : gmap string (list Welcome.Member) }.

Definition set_cache (f : gmap string (list Welcome.Member) -> gmap string (list Welcome.Member))
    (c : Cached) : Cached :=
  {| controller := controller c; groupMetadataCache := f (groupMetadataCache c) |}.

Section Lookup.

Variable env : Env.

(** What [sock.groupMetadata(jid)] resolves with, by the position of the
    call. *)
Variable metadata_of : nat -> string -> list Welcome.Member.

(** The closure [cachedGroupMetadata: async (jid) => { ... }] that
    [initialize] gives to [makeWASocket]. *)
Definition cachedGroupMetadata (jid : string) : M Cached (option (list Welcome.Member)) :=
  let* this := get in
  match groupMetadataCache this !! jid with
  | Some metadata => ret (Some metadata)
  | None =>
      try_catch
        (match sock (controller this) with
         | None => throw (Error "Cannot read properties of null (reading 'groupMetadata')")
         | Some _ =>
             let* n := position in
             call env (GroupMetadata jid) ;;
             let metadata := metadata_of n jid in
             modify (set_cache <[jid := metadata]>) ;;
             ret (Some metadata)
         end)
        (fun error =>
           logger_error ("Error getting group metadata of " +:+ jid +:+ " for "
                         +:+ inst_phone (instanceData (controller this)) +:+ ": "
                         +:+ err_message error) ;;
           ret None)
  end.

(** The socket asking for one group after the other. *)
Fixpoint lookups (jids : list string) : M Cached unit :=
  match jids with
  | [] => ret tt
  | jid :: rest => cachedGroupMetadata jid ;; lookups rest
  end.

End Lookup.

End GroupCache.

(** ** The manager and the instance table *)

Module Table.

(** The calls the manager makes on the instance table
    ([instanceService]) and on the directory of a phone number's
    credentials. *)
Inductive StoreCall :=
| FindAll
| Create (instanceData : InstanceData)
| FindByPhone (phone : string)
| Delete (id : string)
| AuthDirExists (phone : string)
| RemoveAuthDir (phone : string).

(** The calls of a manager method: those of the kinds a controller makes,
    and those on the table. *)
Inductive Call :=
| outside (e : Event)
| store (c : StoreCall).

(** What the table and the file system answer, by the position of the
    call. *)
Record Answers := {
  found_all : nat -> list InstanceData;
  created : nat -> InstanceData -> InstanceData;
  found_by_phone : nat -> string -> option InstanceData;
  auth_dir_exists : nat -> string -> bool }.

(** The outcome of a manager method, as [Outcome] is that of a method of a
    controller. *)
Record Run (A : Type) := mkRun {
  answer : JsError + A;
  registry : Manager;
  after : World;
  made : list Call }.
Arguments mkRun {A}.
Arguments answer {A}.
Arguments registry {A}.
Arguments after {A}.
Arguments made {A}.

Definition Task (A : Type) : Type := Manager -> World -> Run A.

Definition pure {A} (a : A) : Task A := fun s w => mkRun (inr a) s w [].

Definition raise {A} (e : JsError) : Task A := fun s w => mkRun (inl e) s w [].

Definition andThen {A B} (m : Task A) (k : A -> Task B) : Task B :=
  fun s w =>
    match m s w with
    | mkRun (inl e) s1 w1 calls1 => mkRun (inl e) s1 w1 calls1
    | mkRun (inr a) s1 w1 calls1 =>
        match k a s1 w1 with
        | mkRun r s2 w2 calls2 => mkRun r s2 w2 (calls1 ++ calls2)
        end
    end.

(** [try { body } catch (error) { handler }] *)
Definition attempt {A} (body : Task A) (handler : JsError -> Task A) : Task A :=
  fun s w =>
    match body s w with
    | mkRun (inl e) s1 w1 calls1 =>
        match handler e s1 w1 with
        | mkRun r s2 w2 calls2 => mkRun r s2 w2 (calls1 ++ calls2)
        end
    | mkRun (inr a) s1 w1 calls1 => mkRun (inr a) s1 w1 calls1
    end.

Declare Scope task_scope.
Delimit Scope task_scope with task.
Notation "'let*' x ':=' m 'in' k" := (andThen m (fun x => k))
  (at level 10, x name, m at level 100, k at level 200) : task_scope.
Notation "m ';;' k" := (andThen m (fun _ => k))
  (at level 100, k at level 200, right associativity) : task_scope.

(** A method of the manager that talks to the controllers' services only. *)
Definition lift {A} (m : M Manager A) : Task A :=
  fun s w =>
    match m s w with
    | mkOutcome r s1 w1 calls1 => mkRun r s1 w1 (outside <$> calls1)
    end.

Definition this_manager : Task Manager := fun s w => mkRun (inr s) s w [].

Definition update (f : Manager -> Manager) : Task unit := fun s w => mkRun (inr tt) (f s) w [].

Definition clock : Task Z := fun s w => mkRun (inr (now w)) s w [].

Definition at_position : Task nat := fun s w => mkRun (inr (issued w)) s w [].

Definition log (level : Level) (text : string) : Task unit :=
  fun s w => mkRun (inr tt) s {| now := now w; issued := S (issued w) |}
                   [outside (Log level text)].

(** [for (const x of xs) { body }] *)
Fixpoint each {X} (xs : list X) (body : X -> Task unit) : Task unit :=
  match xs with
  | [] => pure tt
  | x :: rest => andThen (body x) (fun _ => each rest body)
  end.

Definition set_initialized (v : bool) (m : Manager) : Manager :=
  {| instances := instances m; initialized := v |}.

Definition delete_instance (phone : string) (m : Manager) : Manager :=
  {| instances := delete phone (instances m); initialized := initialized m |}.

Section Calls.

Variable env : Env.
Variable answers : Answers.

(** An awaited call on the table: it is made, and the environment says
    whether it fails. *)
Definition ask (c : StoreCall) : Task unit :=
  fun s w =>
    mkRun (match fault env (issued w) with
           | Some err => inl err
           | None => inr tt
           end)
          s {| now := now w; issued := S (issued w) |} [store c].

(** [fs.existsSync(authDir)], which answers and never throws. *)
Definition existsSync (phone : string) : Task bool :=
  fun s w =>
    mkRun (inr (auth_dir_exists answers (issued w) phone))
          s {| now := now w; issued := S (issued w) |} [store (AuthDirExists phone)].

End Calls.

(** [instanceData.status === 'active' || instanceData.status === 'connecting'] *)
Definition was_running (instanceData : InstanceData) : bool :=
  String.eqb (inst_status instanceData) "active"
  || String.eqb (inst_status instanceData) "connecting".

(** Running a method of the controller the manager holds under [phone]. *)
Definition on_controller {A} (phone : string) (instance : Instance) (m : M Instance A)
    : Task A :=
  lift (on_instance phone instance m).

End Table.

(** The methods of [WhatsAppInstanceManager] that read or write the
    instance table. *)
Module Registry.

Import Table.

Section Methods.

Variable env : Env.
Variable answers : Answers.

Open Scope task_scope.

(** [createInstance(instanceData)] *)
Definition createInstance (instanceData : InstanceData) : Task InstanceData :=
  attempt
    (let* n := at_position in
     ask env (Create instanceData) ;;
     let dbInstance := created answers n instanceData in
     let instance := new_WhatsAppInstance dbInstance in
     update (set_instance (inst_phone dbInstance) instance) ;;
     on_controller (inst_phone dbInstance) instance (initialize env) ;;
     log info ("WhatsApp instance created for " +:+ inst_phone dbInstance) ;;
     pure dbInstance)
    (fun error =>
       log error_level "Error creating WhatsApp instance:" ;;
       raise error).

(** The answer of [deleteInstance]. *)
Record DeleteResult := {
  dr_success : bool;
  dr_message : string }.

(** [deleteInstance(phone)] *)
Definition deleteInstance (phone : string) : Task DeleteResult :=
  attempt
    (let* this := this_manager in
     match instances this !! phone with
     | Some instance =>
         on_controller phone instance (disconnect env) ;;
         update (delete_instance phone)
     | None => pure tt
     end ;;
     let* n := at_position in
     ask env (FindByPhone phone) ;;
     match found_by_phone answers n phone with
     | Some dbInstance => ask env (Delete (inst_id dbInstance))
     | None => pure tt
     end ;;
     let* there := existsSync answers phone in
     (if there then ask env (RemoveAuthDir phone) else pure tt) ;;
     log info ("WhatsApp instance deleted for " +:+ phone) ;;
     pure {| dr_success := true; dr_message := "Instance deleted successfully" |})
    (fun error =>
       log error_level ("Error deleting WhatsApp instance " +:+ phone +:+ ":") ;;
       raise error).

(** [getInstanceByPhone(phone)]: the status of the controller when the
    manager holds one, an offline status made from the row of the table
    otherwise, [null] when there is no row either. *)
Definition getInstanceByPhone (phone : string) : Task (option Status) :=
  let* this := this_manager in
  match instances this !! phone with
  | Some instance =>
      let* status := on_controller phone instance getStatus in
      pure (Some status)
  | None =>
      let* n := at_position in
      ask env (FindByPhone phone) ;;
      let* timestamp := clock in
      pure (match found_by_phone answers n phone with
            | Some dbInstance =>
                Some {| st_instanceId := inst_id dbInstance;
                        st_phone := inst_phone dbInstance;
                        st_name := inst_name dbInstance;
                        st_alias := inst_alias dbInstance;
                        st_isConnected := false;
                        st_connectionStatus := disconnected;
                        st_qrCode := None;
                        st_reconnectAttempts := None;
                        st_timestamp := timestamp |}
            | None => None
            end)
  end.

(** [initialize()] of the manager; [initialize env] in its body is that of
    the controller. *)
Definition initialize : Task unit :=
  attempt
    (log info "Initializing WhatsApp Instance Manager..." ;;
     let* n := at_position in
     ask env FindAll ;;
     let existingInstances := found_all answers n in
     each existingInstances (fun instanceData =>
       let instance := new_WhatsAppInstance instanceData in
       update (set_instance (inst_phone instanceData) instance) ;;
       if was_running instanceData
       then on_controller (inst_phone instanceData) instance (initialize env)
       else pure tt) ;;
     update (set_initialized true) ;;
     log info ("WhatsApp Instance Manager initialized with "
               +:+ pretty (length existingInstances) +:+ " instances"))
    (fun error =>
       log error_level "Error initializing WhatsApp Instance Manager:" ;;
       raise error).

End Methods.

End Registry.

(** * Properties *)

(** ** Phone numbers *)

Lemma strip_non_digits_filter (s : string) :
  String.list_ascii_of_string (Js.strip_non_digits s)
  = List.filter Js.is_digit (String.list_ascii_of_string s).
Proof.
  induction s as [|c rest IH]; simpl; [reflexivity|].
  destruct (Js.is_digit c); simpl; congruence.
Qed.

Lemma strip_non_digits_digits (s : string) :
  List.forallb Js.is_digit (String.list_ascii_of_string (Js.strip_non_digits s)) = true.
Proof.
  induction s as [|c rest IH]; simpl; [reflexivity|].
  destruct (Js.is_digit c) eqn:Hc; simpl; [rewrite Hc|]; assumption.
Qed.

Lemma forallb_digits_tail (s : string) :
  List.forallb Js.is_digit (String.list_ascii_of_string s) = true ->
  List.forallb Js.is_digit (String.list_ascii_of_string (Js.substring1 s)) = true.
Proof.
  destruct s as [|c rest]; simpl; [trivial|].
  intros H. apply andb_prop in H. tauto.
Qed.

(** C7: normalisation keeps the digits of the input and nothing else; a
    number already starting with 62 is unchanged, a leading 0 is replaced
    by 62, and any other number gets 62 in front; the result is made of
    digits and starts with 62.  The three examples of the specification
    evaluate as stated. *)
Theorem formattedNumber_normalizes (phoneNumber : string) :
  let digits := Js.strip_non_digits phoneNumber in
  String.list_ascii_of_string digits
    = List.filter Js.is_digit (String.list_ascii_of_string phoneNumber)
  /\ (Js.startsWith digits "62" = true -> Phone.formattedNumber phoneNumber = digits)
  /\ (forall rest, digits = String "0" rest ->
        Phone.formattedNumber phoneNumber = "62" +:+ rest)
  /\ (Js.startsWith digits "62" = false -> Js.startsWith digits "0" = false ->
        Phone.formattedNumber phoneNumber = "62" +:+ digits)
  /\ List.forallb Js.is_digit (String.list_ascii_of_string (Phone.formattedNumber phoneNumber)) = true
  /\ Js.startsWith (Phone.formattedNumber phoneNumber) "62" = true
  /\ Phone.formattedNumber "081234567" = "6281234567"
  /\ Phone.formattedNumber "81234567" = "6281234567"
  /\ Phone.formattedNumber "6281234567" = "6281234567".
Proof.
  intros digits. split_and!.
  - apply strip_non_digits_filter.
  - intros H. unfold Phone.formattedNumber. fold digits. rewrite H. reflexivity.
  - intros rest H. unfold Phone.formattedNumber. fold digits. rewrite H.
    unfold Js.startsWith. simpl. destruct rest; reflexivity.
  - intros H62 H0. unfold Phone.formattedNumber. fold digits. rewrite H62, H0. reflexivity.
  - unfold Phone.formattedNumber. fold digits.
    pose proof (strip_non_digits_digits phoneNumber) as Hd. fold digits in Hd.
    destruct (Js.startsWith digits "62"); simpl; [assumption|].
    destruct (Js.startsWith digits "0"); simpl.
    + apply forallb_digits_tail. assumption.
    + assumption.
  - unfold Phone.formattedNumber. fold digits.
    destruct (Js.startsWith digits "62") eqn:H62; simpl; [assumption|].
    destruct (Js.startsWith digits "0"); unfold Js.startsWith; simpl.
    + destruct (Js.substring1 digits); reflexivity.
    + destruct digits; reflexivity.
  - reflexivity.
  - reflexivity.
  - reflexivity.
Qed.

(** ** Reasoning about computations *)

Section Frames.

Context {St : Type}.

(** A computation that never throws. *)
Definition succeeds {A} (m : M St A) : Prop :=
  forall s w, exists a, result (m s w) = inr a.

(** A computation whose final object is related to the initial one. *)
Definition keeps {A} (R : St -> St -> Prop) (m : M St A) : Prop :=
  forall s w, R s (state (m s w)).

(** A computation all of whose outside calls satisfy [Q]. *)
Definition emits_only {A} (Q : Event -> Prop) (m : M St A) : Prop :=
  forall s w, Forall Q (emitted (m s w)).

Lemma bind_inr {A B} (m : M St A) (k : A -> M St B) s w a :
  result (m s w) = inr a ->
  bind m k s w =
  mkOutcome (result (k a (state (m s w)) (world (m s w))))
            (state (k a (state (m s w)) (world (m s w))))
            (world (k a (state (m s w)) (world (m s w))))
            (emitted (m s w) ++ emitted (k a (state (m s w)) (world (m s w)))).
Proof.
  unfold bind. destruct (m s w) as [r s1 w1 c1]. simpl. intros ->.
  destruct (k a s1 w1); reflexivity.
Qed.

Lemma bind_inl {A B} (m : M St A) (k : A -> M St B) s w e :
  result (m s w) = inl e ->
  bind m k s w = mkOutcome (inl e) (state (m s w)) (world (m s w)) (emitted (m s w)).
Proof. unfold bind. destruct (m s w) as [r s1 w1 c1]. simpl. intros ->. reflexivity. Qed.

Lemma try_catch_inr {A} (body : M St A) handler s w a :
  result (body s w) = inr a -> try_catch body handler s w = body s w.
Proof. unfold try_catch. destruct (body s w) as [r s1 w1 c1]. simpl. intros ->. reflexivity. Qed.

Lemma try_catch_inl {A} (body : M St A) handler s w e :
  result (body s w) = inl e ->
  try_catch body handler s w =
  mkOutcome (result (handler e (state (body s w)) (world (body s w))))
            (state (handler e (state (body s w)) (world (body s w))))
            (world (handler e (state (body s w)) (world (body s w))))
            (emitted (body s w) ++ emitted (handler e (state (body s w)) (world (body s w)))).
Proof.
  unfold try_catch. destruct (body s w) as [r s1 w1 c1]. simpl. intros ->.
  destruct (handler e s1 w1); reflexivity.
Qed.

(** *** Never throwing *)

Lemma succeeds_ret {A} (a : A) : succeeds (ret a).
Proof. intros s w. eexists. reflexivity. Qed.

Lemma succeeds_get : succeeds (@get St).
Proof. intros s w. eexists. reflexivity. Qed.

Lemma succeeds_modify f : succeeds (@modify St f).
Proof. intros s w. eexists. reflexivity. Qed.

Lemma succeeds_date_now : succeeds (@date_now St).
Proof. intros s w. eexists. reflexivity. Qed.

Lemma succeeds_position : succeeds (@position St).
Proof. intros s w. eexists. reflexivity. Qed.

Lemma succeeds_emit e : succeeds (@emit St e).
Proof. intros s w. eexists. reflexivity. Qed.

Lemma succeeds_bind {A B} (m : M St A) (k : A -> M St B) :
  succeeds m -> (forall a, succeeds (k a)) -> succeeds (bind m k).
Proof.
  intros Hm Hk s w. destruct (Hm s w) as [a Ha].
  rewrite (bind_inr _ _ _ _ _ Ha). simpl. apply Hk.
Qed.

Lemma succeeds_try_catch {A} (body : M St A) handler :
  (forall e, succeeds (handler e)) -> succeeds (try_catch body handler).
Proof.
  intros Hh s w. destruct (result (body s w)) as [e|a] eqn:Hb.
  - rewrite (try_catch_inl _ _ _ _ _ Hb). simpl. apply Hh.
  - rewrite (try_catch_inr _ _ _ _ _ Hb). eauto.
Qed.

Lemma succeeds_for_of {X} (xs : list X) (body : X -> M St unit) :
  (forall x, succeeds (body x)) -> succeeds (for_of xs body).
Proof.
  intros Hb. induction xs as [|x rest IH]; simpl.
  - apply succeeds_ret.
  - apply succeeds_bind; auto.
Qed.

(** *** Relating the final object to the initial one *)

Section Keeps.

Context (R : St -> St -> Prop) `{!PreOrder R}.

Lemma keeps_ret {A} (a : A) : keeps R (ret a).
Proof. intros s w. simpl. reflexivity. Qed.

Lemma keeps_throw {A} e : keeps R (@throw St A e).
Proof. intros s w. simpl. reflexivity. Qed.

Lemma keeps_get : keeps R (@get St).
Proof. intros s w. simpl. reflexivity. Qed.

Lemma keeps_date_now : keeps R (@date_now St).
Proof. intros s w. simpl. reflexivity. Qed.

Lemma keeps_position : keeps R (@position St).
Proof. intros s w. simpl. reflexivity. Qed.

Lemma keeps_emit e : keeps R (@emit St e).
Proof. intros s w. simpl. reflexivity. Qed.

Lemma keeps_call env e : keeps R (@call env St e).
Proof. intros s w. simpl. reflexivity. Qed.

Lemma keeps_modify f : (forall s, R s (f s)) -> keeps R (@modify St f).
Proof. intros Hf s w. simpl. apply Hf. Qed.

Lemma keeps_bind {A B} (m : M St A) (k : A -> M St B) :
  keeps R m -> (forall a, keeps R (k a)) -> keeps R (bind m k).
Proof.
  intros Hm Hk s w. destruct (result (m s w)) as [e|a] eqn:Hr.
  - rewrite (bind_inl _ _ _ _ _ Hr). apply Hm.
  - rewrite (bind_inr _ _ _ _ _ Hr). simpl. etransitivity; [apply Hm | apply Hk].
Qed.

Lemma keeps_try_catch {A} (body : M St A) handler :
  keeps R body -> (forall e, keeps R (handler e)) -> keeps R (try_catch body handler).
Proof.
  intros Hb Hh s w. destruct (result (body s w)) as [e|a] eqn:Hr.
  - rewrite (try_catch_inl _ _ _ _ _ Hr). simpl. etransitivity; [apply Hb | apply Hh].
  - rewrite (try_catch_inr _ _ _ _ _ Hr). apply Hb.
Qed.

Lemma keeps_for_of {X} (xs : list X) (body : X -> M St unit) :
  (forall x, keeps R (body x)) -> keeps R (for_of xs body).
Proof.
  intros Hb. induction xs as [|x rest IH]; simpl.
  - apply keeps_ret.
  - apply keeps_bind; auto.
Qed.

End Keeps.

(** *** Constraining the outside calls *)

Section Emits.

Context (Q : Event -> Prop).

Lemma emits_ret {A} (a : A) : emits_only Q (@ret St A a).
Proof. intros s w. constructor. Qed.

Lemma emits_throw {A} e : emits_only Q (@throw St A e).
Proof. intros s w. constructor. Qed.

Lemma emits_get : emits_only Q (@get St).
Proof. intros s w. constructor. Qed.

Lemma emits_modify f : emits_only Q (@modify St f).
Proof. intros s w. constructor. Qed.

Lemma emits_date_now : emits_only Q (@date_now St).
Proof. intros s w. constructor. Qed.

Lemma emits_position : emits_only Q (@position St).
Proof. intros s w. constructor. Qed.

Lemma emits_emit e : Q e -> emits_only Q (@emit St e).
Proof. intros He s w. simpl. repeat constructor. assumption. Qed.

Lemma emits_call env e : Q e -> emits_only Q (@call env St e).
Proof. intros He s w. simpl. repeat constructor. assumption. Qed.

Lemma emits_bind {A B} (m : M St A) (k : A -> M St B) :
  emits_only Q m -> (forall a, emits_only Q (k a)) -> emits_only Q (bind m k).
Proof.
  intros Hm Hk s w. destruct (result (m s w)) as [e|a] eqn:Hr.
  - rewrite (bind_inl _ _ _ _ _ Hr). apply Hm.
  - rewrite (bind_inr _ _ _ _ _ Hr). simpl. apply Forall_app. split; [apply Hm | apply Hk].
Qed.

Lemma emits_try_catch {A} (body : M St A) handler :
  emits_only Q body -> (forall e, emits_only Q (handler e)) ->
  emits_only Q (try_catch body handler).
Proof.
  intros Hb Hh s w. destruct (result (body s w)) as [e|a] eqn:Hr.
  - rewrite (try_catch_inl _ _ _ _ _ Hr). simpl. apply Forall_app. split; [apply Hb | apply Hh].
  - rewrite (try_catch_inr _ _ _ _ _ Hr). apply Hb.
Qed.

Lemma emits_for_of {X} (xs : list X) (body : X -> M St unit) :
  (forall x, emits_only Q (body x)) -> emits_only Q (for_of xs body).
Proof.
  intros Hb. induction xs as [|x rest IH]; simpl.
  - apply emits_ret.
  - apply emits_bind; auto.
Qed.

End Emits.

End Frames.

Lemma succeeds_within {St T A} (proj : St -> T) inj (m : M T A) :
  succeeds m -> succeeds (within proj inj m).
Proof.
  intros Hm s w. unfold within. destruct (Hm (proj s) w) as [a Ha].
  destruct (m (proj s) w); simpl in *. eauto.
Qed.

Lemma emits_within {St T A} Q (proj : St -> T) inj (m : M T A) :
  emits_only Q m -> emits_only Q (within proj inj m).
Proof.
  intros Hm s w. unfold within. specialize (Hm (proj s) w).
  destruct (m (proj s) w); simpl in *. assumption.
Qed.

Lemma keeps_within {St T A} (R : St -> St -> Prop) (proj : St -> T) inj (m : M T A) :
  (forall t s, R s (inj t s)) -> keeps R (within proj inj m).
Proof. intros H s w. unfold within. destruct (m (proj s) w); simpl. apply H. Qed.

(** ** One delivery attempt, run symbolically *)

Section DeliveryFacts.

Variable env : Env.

(** The envelope [deliver] posts. *)
Definition attempt_payload (event : string) (data : EventData) (this : Instance)
    (w : World) : Payload :=
  {| pl_event := event; pl_data := data; pl_timestamp := now w;
     pl_instanceId := inst_id (instanceData this) |}.

(** The record [deliver] starts from. *)
Definition pending_record (event : string) (data : EventData) (webhook : Webhook)
    (this : Instance) (w : World) : HistoryData :=
  {| hd_instanceId := inst_id (instanceData this);
     hd_webhookId := wh_id webhook;
     hd_event := event;
     hd_payload := attempt_payload event data this w;
     hd_status := pending;
     hd_retryCount := 0;
     hd_httpStatusCode := None;
     hd_responseTime := None;
     hd_response := None;
     hd_errorMessage := None;
     hd_completedAt := None |}.

(** The record [deliver] hands to [webhookHistoryService.create], given how
    the POST settled and after how long. *)
Definition attempt_record (event : string) (data : EventData) (webhook : Webhook)
    (this : Instance) (w : World) (settled : Settled) (ms : Z) : HistoryData :=
  match settled with
  | Resolved response =>
      success_record (pending_record event data webhook this w) response ms (now w + ms)
  | Rejected e =>
      failure_record (pending_record event data webhook this w) e ms (now w + ms)
  end.

(** The line [deliver] logs once the POST has settled. *)
Definition attempt_log (event : string) (webhook : Webhook) (settled : Settled) (ms : Z)
    : Event :=
  match settled with
  | Resolved _ =>
      Log info ("Webhook " +:+ wh_id webhook +:+ " triggered successfully for "
                +:+ event +:+ " (" +:+ pretty ms +:+ "ms)")
  | Rejected e =>
      Log error_level ("Failed to trigger webhook " +:+ wh_id webhook +:+ " for "
                       +:+ event +:+ ": " +:+ err_message e
                       +:+ " (" +:+ pretty ms +:+ "ms)")
  end.

(** The line logged when the record cannot be saved. *)
Definition history_failure_log (webhook : Webhook) (historyError : JsError) : Event :=
  Log error_level ("Failed to save webhook history for " +:+ wh_id webhook +:+ ": "
                   +:+ err_message historyError).

Lemma deliver_run (event : string) (data : EventData) (webhook : Webhook)
    (this : Instance) (w : World) :
  let settled := (post_result env (issued w) (wh_url webhook) 5000).1 in
  let ms := (post_result env (issued w) (wh_url webhook) 5000).2 in
  deliver env event data webhook this w =
  mkOutcome (inr tt) this
    {| now := now w + ms;
       issued := match fault env (3 + issued w)%nat with
                 | Some _ => (5 + issued w)%nat
                 | None => (4 + issued w)%nat
                 end |}
    ([HttpPost (wh_url webhook) (attempt_payload event data this w) (webhook_config env);
      HttpSettled (wh_url webhook) settled;
      attempt_log event webhook settled ms;
      HistoryCreate (attempt_record event data webhook this w settled ms)]
     ++ match fault env (3 + issued w)%nat with
        | Some historyError => [history_failure_log webhook historyError]
        | None => []
        end).
Proof.
  intros settled ms. subst settled ms.
  unfold deliver, bind, try_catch, get, date_now, axios_post, logger_info, logger_error,
    emit, call, ret; simpl.
  destruct (post_result env (issued w) (wh_url webhook) 5000) as [settled ms]; simpl.
  destruct settled as [response|e]; simpl;
    replace (now w + ms - now w) with ms by lia;
    destruct (fault env (S (S (S (issued w))))); reflexivity.
Qed.

End DeliveryFacts.


Section WebhookFacts.

Variable env : Env.

Lemma deliver_succeeds event data webhook : succeeds (deliver env event data webhook).
Proof. intros s w. rewrite deliver_run. eexists. reflexivity. Qed.

Lemma deliver_keeps event data webhook : keeps eq (deliver env event data webhook).
Proof. intros s w. rewrite deliver_run. reflexivity. Qed.

Lemma deliveries_succeed event data webhooks :
  succeeds (for_of webhooks (deliver env event data)).
Proof. apply succeeds_for_of. intros x. apply deliver_succeeds. Qed.

Lemma deliveries_result event data webhooks this w :
  result (for_of webhooks (deliver env event data) this w) = inr tt.
Proof. destruct (deliveries_succeed event data webhooks this w) as [[] H]. exact H. Qed.

Lemma deliveries_state event data webhooks this w :
  state (for_of webhooks (deliver env event data) this w) = this.
Proof.
  symmetry. apply (keeps_for_of eq). intros x. apply deliver_keeps.
Qed.

(** [triggerWebhooks], run symbolically: the registry is asked; if that
    fails the error is logged, otherwise the webhooks are served in turn. *)
Lemma triggerWebhooks_run event data this w :
  triggerWebhooks env event data this w =
  match fault env (issued w) with
  | Some e =>
      mkOutcome (inr tt) this {| now := now w; issued := S (S (issued w)) |}
        [GetEnabledWebhooks (inst_id (instanceData this)) event;
         Log error_level ("Error triggering webhooks for "
                          +:+ inst_phone (instanceData this) +:+ ": " +:+ err_message e)]
  | None =>
      let loop :=
        for_of (webhooks_of env (issued w) (inst_id (instanceData this)) event)
               (deliver env event data) this
               {| now := now w; issued := S (issued w) |} in
      mkOutcome (inr tt) this (world loop)
        (GetEnabledWebhooks (inst_id (instanceData this)) event :: emitted loop)
  end.
Proof.
  unfold triggerWebhooks, bind, try_catch, get, position, call, logger_error, emit; simpl.
  destruct (fault env (issued w)) as [e|]; simpl; [reflexivity|].
  pose proof (deliveries_result event data
                (webhooks_of env (issued w) (inst_id (instanceData this)) event) this
                {| now := now w; issued := S (issued w) |}) as Hr.
  pose proof (deliveries_state event data
                (webhooks_of env (issued w) (inst_id (instanceData this)) event) this
                {| now := now w; issued := S (issued w) |}) as Hs.
  destruct (for_of _ _ _ _) as [r s1 w1 c1]. simpl in *. subst. reflexivity.
Qed.

Lemma triggerWebhooks_succeeds event data : succeeds (triggerWebhooks env event data).
Proof.
  intros s w. rewrite triggerWebhooks_run.
  destruct (fault env (issued w)); eexists; reflexivity.
Qed.

Lemma triggerWebhooks_keeps event data : keeps eq (triggerWebhooks env event data).
Proof.
  intros s w. rewrite triggerWebhooks_run.
  destruct (fault env (issued w)); reflexivity.
Qed.

End WebhookFacts.

(** ** Webhook delivery: outcomes and records *)


(** The requests issued by a run. *)
Definition posts (tr : list Event) : list (string * Payload) :=
  omap (fun e => match e with HttpPost url p _ => Some (url, p) | _ => None end) tr.





Lemma posts_app tr1 tr2 : posts (tr1 ++ tr2) = posts tr1 ++ posts tr2.
Proof. unfold posts. apply omap_app. Qed.









(** ** Webhook delivery: order of the requests *)



(** The status a record gets from the way its own request settled. *)
Definition status_of (settled : Settled) : HistoryStatus :=
  match settled with
  | Resolved _ => success
  | Rejected e =>
      if bool_decide (err_code e = Some "ECONNABORTED") then timeout else failed
  end.

(** A scene: an instance with two webhooks; the first endpoint stays silent
    until the 5000 ms bound, the second answers 200 after 120 ms. *)
Definition scene_data : InstanceData :=
  {| inst_id := "1"; inst_phone := "6281234567"; inst_name := "main";
     inst_alias := "main"; inst_status := "active" |}.

Definition hook_slow : Webhook := {| wh_id := "slow"; wh_url := "http://slow.test/hook" |}.
Definition hook_fast : Webhook := {| wh_id := "fast"; wh_url := "http://fast.test/hook" |}.

Definition reply_200 : HttpResponse :=
  {| resp_status := 200; resp_statusText := "OK"; resp_headers := []; resp_data := "ok" |}.

Definition timeout_error : JsError :=
  {| err_message := "timeout of 5000ms exceeded";
     err_code := Some "ECONNABORTED"; err_response := None |}.

Definition no_module : PluginModule :=
  {| pm_handler := fun _ => Fulfils; pm_config := None |}.

(** An environment in which nothing fails and nothing is registered. *)
Definition calm : Env :=
  {| fault := fun _ => None;
     webhooks_of := fun _ _ _ => [];
     post_result := fun _ _ _ => (Resolved reply_200, 0);
     send_key := fun _ => "KEY";
     plugin_files := fun _ => [];
     plugin_module := fun _ _ => no_module;
     wa_version := fun _ => ("2.3000.1", true);
     is_development := false;
     pkg_name := "whisper-api";
     pkg_version := "1.0.0";
     pkg_author := "author" |}.

Definition with_webhooks (hooks : list Webhook) (post : nat -> string -> Z -> Settled * Z)
    (e : Env) : Env :=
  {| fault := fault e;
     webhooks_of := fun _ _ _ => hooks;
     post_result := post;
     send_key := send_key e;
     plugin_files := plugin_files e;
     plugin_module := plugin_module e;
     wa_version := wa_version e;
     is_development := is_development e;
     pkg_name := pkg_name e;
     pkg_version := pkg_version e;
     pkg_author := pkg_author e |}.

Definition with_fault (f : nat -> option JsError) (e : Env) : Env :=
  {| fault := f;
     webhooks_of := webhooks_of e;
     post_result := post_result e;
     send_key := send_key e;
     plugin_files := plugin_files e;
     plugin_module := plugin_module e;
     wa_version := wa_version e;
     is_development := is_development e;
     pkg_name := pkg_name e;
     pkg_version := pkg_version e;
     pkg_author := pkg_author e |}.

Definition two_hooks : Env :=
  with_webhooks [hook_slow; hook_fast]
    (fun _ url bound => if String.eqb url "http://slow.test/hook"
                        then (Rejected timeout_error, bound)
                        else (Resolved reply_200, 120))
    calm.

Definition dawn : World := {| now := 0; issued := 0 |}.

Definition greeting : Message :=
  {| key := {| remoteJid := "628111@s.whatsapp.net"; fromMe := false; key_id := "M1" |};
     pushName := Some "Ani"; messageTimestamp := 1700000000;
     message := Some (conversation "halo") |}.




Lemma posts_deliver env event data webhook this w :
  posts (emitted (deliver env event data webhook this w))
  = [(wh_url webhook, attempt_payload event data this w)].
Proof.
  rewrite deliver_run. simpl.
  destruct (post_result env (issued w) (wh_url webhook) 5000) as [[r|e] ms]; simpl;
    destruct (fault env (S (S (S (issued w))))); reflexivity.
Qed.

Lemma posts_deliveries env event data webhooks this w :
  (posts (emitted (for_of webhooks (deliver env event data) this w))).*1
  = wh_url <$> webhooks.
Proof.
  revert w. induction webhooks as [|webhook rest IH]; intros w; [reflexivity|].
  simpl for_of.
  destruct (deliver_succeeds env event data webhook this w) as [[] Hd].
  rewrite (bind_inr _ _ _ _ _ Hd). simpl emitted.
  rewrite posts_app, posts_deliver, fmap_app.
  rewrite <- (deliver_keeps env event data webhook this w), IH. reflexivity.
Qed.




(** ** Plugin dispatch *)

(** Every registered plugin has a configuration entry. *)
Definition configs_cover (pm : PluginManager) : bool :=
  forallb (fun entry => map_has entry.1 (pluginConfigs pm)) (plugins pm).

(** The enabled flag the manager holds for a plugin name. *)
Definition is_enabled (configs : list (string * PluginConfig)) (pluginName : string) : bool :=
  match map_get pluginName configs with
  | Some config => cfg_enabled config
  | None => false
  end.

(** The context a plugin is given. *)
Definition props_for (sock : option Sock) (message : Message)
    (configs : list (string * PluginConfig)) (pluginName : string) : Props :=
  {| props_enabled := is_enabled configs pluginName;
     props_sock := sock;
     props_message := message;
     props_options := match map_get pluginName configs with
                      | Some config => cfg_options config
                      | None => []
                      end |}.

(** The registered plugins whose flag is set, in registration order. *)
Definition enabled_plugins (pm : PluginManager) : list (string * Plugin) :=
  List.filter (fun entry => is_enabled (pluginConfigs pm) entry.1) (plugins pm).

Definition invocation (sock : option Sock) (message : Message) (pm : PluginManager)
    (entry : string * Plugin) : Event :=
  PluginCall entry.1 (props_for sock message (pluginConfigs pm) entry.1).

(** The promise a plugin returns for this dispatch. *)
Definition promise_of (sock : option Sock) (message : Message) (pm : PluginManager)
    (entry : string * Plugin) : PluginPromise :=
  entry.2 (props_for sock message (pluginConfigs pm) entry.1).

(** The line logged for a plugin whose promise rejects. *)
Definition rejection_log (sock : option Sock) (message : Message) (pm : PluginManager)
    (entry : string * Plugin) : option Event :=
  match promise_of sock message pm entry with
  | Fulfils => None
  | Rejects e =>
      Some (Log error_level ("Plugin " +:+ entry.1 +:+ " error: " +:+ err_message e))
  end.

Definition rejects (p : PluginPromise) : bool :=
  match p with Rejects _ => true | Fulfils => false end.



Lemma call_enabled_run sock message (pm : PluginManager) entries promises this w :
  forallb (fun entry => map_has entry.1 (pluginConfigs pm)) entries = true ->
  let enabled := List.filter (fun entry => is_enabled (pluginConfigs pm) entry.1) entries in
  call_enabled sock message (pluginConfigs pm) entries promises this w =
  mkOutcome (inr (promises ++ map (fun entry => (entry.1, promise_of sock message pm entry))
                                  enabled))
            this
            {| now := now w; issued := (issued w + length enabled)%nat |}
            (map (invocation sock message pm) enabled).
Proof.
  intros Hcover enabled. subst enabled.
  revert promises w. induction entries as [|[name plugin] rest IH]; intros promises w.
  - simpl. rewrite app_nil_r, Nat.add_0_r. destruct w; reflexivity.
  - simpl in Hcover. apply andb_prop in Hcover as [Hname Hrest].
    unfold map_has in Hname.
    destruct (map_get name (pluginConfigs pm)) as [config|] eqn:Hconfig; [|discriminate].
    assert (Hie : is_enabled (pluginConfigs pm) name = cfg_enabled config)
      by (unfold is_enabled; rewrite Hconfig; reflexivity).
    assert (Hprops : props_for sock message (pluginConfigs pm) name
                     = {| props_enabled := cfg_enabled config; props_sock := sock;
                          props_message := message; props_options := cfg_options config |})
      by (unfold props_for; rewrite Hie, Hconfig; reflexivity).
    cbn [call_enabled List.filter fst]. rewrite Hconfig, Hie.
    destruct (cfg_enabled config) eqn:Hen.
    + unfold bind at 1. cbn [emit]. rewrite (IH Hrest).
      cbn [map length fst snd app]. unfold promise_of at 2, invocation at 2.
      cbn [fst snd]. rewrite Hprops, <- app_assoc. cbn [app issued now].
      rewrite Nat.add_succ_r. reflexivity.
    + apply IH. assumption.
Qed.

Lemma Promise_all_run promises this w :
  Promise_all promises this w =
  mkOutcome (inr tt) this
    {| now := now w; issued := (issued w + length (List.filter (fun p => rejects p.2) promises))%nat |}
    (omap (fun p => match p.2 with
                    | Fulfils => None
                    | Rejects e =>
                        Some (Log error_level ("Plugin " +:+ p.1 +:+ " error: "
                                               +:+ err_message e))
                    end) promises).
Proof.
  unfold Promise_all. revert w.
  induction promises as [|[name promise] rest IH]; intros w.
  - simpl. rewrite Nat.add_0_r. destruct w; reflexivity.
  - simpl for_of. destruct promise as [|e].
    + unfold bind at 1. simpl. rewrite IH. reflexivity.
    + unfold bind at 1. simpl. rewrite IH. simpl. repeat f_equal. lia.
Qed.

Lemma rejection_logs sock message pm (l : list (string * Plugin)) :
  omap (fun p : string * PluginPromise =>
          match p.2 with
          | Fulfils => None
          | Rejects e =>
              Some (Log error_level ("Plugin " +:+ p.1 +:+ " error: " +:+ err_message e))
          end)
       (map (fun entry => (entry.1, promise_of sock message pm entry)) l)
  = omap (rejection_log sock message pm) l.
Proof.
  induction l as [|entry rest IH]; [reflexivity|].
  rewrite map_cons.
  change (omap ?f (?x :: ?r))
    with (match f x with Some y => y :: omap f r | None => omap f r end).
  rewrite IH. unfold rejection_log at 3. cbn [fst snd].
  destruct (promise_of sock message pm entry); reflexivity.
Qed.

Lemma executePlugins_run sock message pm w :
  configs_cover pm = true ->
  result (executePlugins sock message pm w) = inr tt
  /\ state (executePlugins sock message pm w) = pm
  /\ now (world (executePlugins sock message pm w)) = now w
  /\ emitted (executePlugins sock message pm w)
     = map (invocation sock message pm) (enabled_plugins pm)
       ++ omap (rejection_log sock message pm) (enabled_plugins pm).
Proof.
  intros Hcover.
  pose proof (call_enabled_run sock message pm (plugins pm) [] pm w Hcover) as Hc.
  cbn zeta in Hc. fold (enabled_plugins pm) in Hc.
  unfold executePlugins, bind, get. rewrite Hc, Promise_all_run.
  cbn [result state world emitted now issued app].
  split_and!; try reflexivity.
  f_equal. apply rejection_logs.
Qed.






Definition with_plugins (files : list string) (modules : string -> PluginModule)
    (e : Env) : Env :=
  {| fault := fault e;
     webhooks_of := webhooks_of e;
     post_result := post_result e;
     send_key := send_key e;
     plugin_files := fun _ => files;
     plugin_module := fun _ => modules;
     wa_version := wa_version e;
     is_development := is_development e;
     pkg_name := pkg_name e;
     pkg_version := pkg_version e;
     pkg_author := pkg_author e |}.

(** A plugins directory with three enabled plugins, one of which fails, a
    disabled plugin and a file that is no plugin. *)
Definition plugin_dir : Env :=
  with_plugins
    ["alpha.plugin.js"; "beta.plugin.js"; "gamma.plugin.js"; "delta.plugin.js"; "notes.txt"]
    (fun file =>
       if String.eqb file "beta.plugin.js" then
         {| pm_handler := fun _ => Rejects (Error "boom"); pm_config := None |}
       else if String.eqb file "delta.plugin.js" then
         {| pm_handler := fun _ => Rejects (Error "never called");
            pm_config := Some {| cfg_enabled := false; cfg_options := [] |} |}
       else no_module)
    calm.

Definition loaded_manager : PluginManager :=
  state (loadPlugins plugin_dir new_PluginManager dawn).


(** ** The connection state machine: the close block *)

(** A close signal: [{ connection: 'close', lastDisconnect }], with the
    status code of the disconnect reason when there is one. *)
Definition close_signal (code : option Z) : ConnectionUpdate :=
  {| connection := Some conn_close; statusCode := code; qr := None |}.

(** The controller after the reconnect branch. *)
Definition after_reconnect (this : Instance) : Instance :=
  set_isConnected false
    (set_connectionStatus reconnecting
       (set_reconnectAttempts (reconnectAttempts this + 1) this)).

(** The controller after the other branch. *)
Definition after_logout (this : Instance) : Instance :=
  set_isConnected false
    (set_connectionStatus logged_out
       (if isManualRestart this then set_isManualRestart false this else this)).

(** The controller after the close block. *)
Definition after_close (loggedOut : Z) (update : ConnectionUpdate) (this : Instance)
    : Instance :=
  if shouldReconnect loggedOut update
     && (reconnectAttempts this <? maxReconnectAttempts this)
     && negb (isManualRestart this)
  then after_reconnect this
  else after_logout this.

(** The [data] the logout branch hands to [triggerWebhooks]. *)
Definition logout_data (update : ConnectionUpdate) (this : Instance) (timestamp : Z)
    : ConnectionData :=
  {| cd_status := logged_out; cd_qrCode := None;
     cd_instance := instanceData this; cd_timestamp := timestamp;
     cd_message := "Logged out or max reconnect attempts reached";
     cd_reconnectAttempt := None; cd_maxReconnectAttempts := None;
     cd_disconnectReason := statusCode update;
     cd_wasManualRestart := Some false;
     cd_previousReconnectAttempts := None |}.

(** The [data] the reconnect branch hands to [triggerWebhooks]. *)
Definition reconnect_data (update : ConnectionUpdate) (this : Instance) (timestamp : Z)
    : ConnectionData :=
  {| cd_status := reconnecting; cd_qrCode := None;
     cd_instance := instanceData this; cd_timestamp := timestamp;
     cd_message := "Connection lost. Reconnecting... (attempt "
                   +:+ pretty (reconnectAttempts this + 1) +:+ "/"
                   +:+ pretty (maxReconnectAttempts this) +:+ ")";
     cd_reconnectAttempt := Some (reconnectAttempts this + 1);
     cd_maxReconnectAttempts := Some (maxReconnectAttempts this);
     cd_disconnectReason := statusCode update;
     cd_wasManualRestart := None;
     cd_previousReconnectAttempts := None |}.

Definition logout_log (this : Instance) : Event :=
  if isManualRestart this then
    Log info ("Connection closed for " +:+ inst_phone (instanceData this)
              +:+ " due to manual restart")
  else
    Log info ("Connection closed for " +:+ inst_phone (instanceData this)
              +:+ ", logged out or max reconnect attempts reached").

Definition reconnect_log (this : Instance) : Event :=
  Log info ("Connection closed for " +:+ inst_phone (instanceData this)
            +:+ ", reconnecting... (attempt " +:+ pretty (reconnectAttempts this + 1)
            +:+ ")").

Section CloseFacts.

Variable env : Env.
Variable loggedOut : Z.

Lemma triggerWebhooks_outcome event data this w :
  exists w' calls,
    triggerWebhooks env event data this w = mkOutcome (inr tt) this w' calls.
Proof.
  destruct (triggerWebhooks_succeeds env event data this w) as [[] Hr].
  pose proof (triggerWebhooks_keeps env event data this w) as Hs.
  destruct (triggerWebhooks env event data this w) as [r s1 w1 c1]. simpl in *.
  subst. eauto.
Qed.

Lemma on_close_logout_run update this w :
  on_close_logout env update this w =
  match fault env (1 + issued w)%nat with
  | Some e =>
      mkOutcome (inl e) (after_logout this)
        {| now := now w; issued := (2 + issued w)%nat |}
        [logout_log this; UpdateStatus (inst_id (instanceData this)) db_inactive]
  | None =>
      let t := triggerWebhooks env "connection.update"
                 (ConnectionUpdateData (logout_data update this (now w)))
                 (after_logout this)
                 {| now := now w; issued := (2 + issued w)%nat |} in
      mkOutcome (inr tt) (after_logout this) (world t)
        ([logout_log this; UpdateStatus (inst_id (instanceData this)) db_inactive]
         ++ emitted t)
  end.
Proof.
  unfold on_close_logout, after_logout, logout_log, logout_data, updateStatus.
  unfold bind, get, modify, date_now, logger_info, emit, call.
  destruct (isManualRestart this) eqn:Hflag;
    cbn -[triggerWebhooks String.append];
    try rewrite Hflag;
    (destruct (fault env (S (issued w))) as [e|]; [reflexivity|]);
    match goal with
    | |- context [triggerWebhooks env ?ev ?d ?s ?w0] =>
        destruct (triggerWebhooks_outcome ev d s w0) as (w' & calls & ->)
    end; reflexivity.
Qed.

Lemma on_close_reconnect_run update this w :
  on_close_reconnect env update this w =
  match fault env (1 + issued w)%nat with
  | Some e =>
      mkOutcome (inl e) (after_reconnect this)
        {| now := now w; issued := (2 + issued w)%nat |}
        [reconnect_log this; UpdateStatus (inst_id (instanceData this)) db_reconnecting]
  | None =>
      let t := triggerWebhooks env "connection.update"
                 (ConnectionUpdateData (reconnect_data update this (now w)))
                 (after_reconnect this)
                 {| now := now w; issued := (2 + issued w)%nat |} in
      mkOutcome (inr tt) (after_reconnect this)
        {| now := now (world t); issued := S (issued (world t)) |}
        ([reconnect_log this; UpdateStatus (inst_id (instanceData this)) db_reconnecting]
         ++ emitted t ++ [SetTimeout 5000 call_initialize])
  end.
Proof.
  unfold on_close_reconnect, after_reconnect, reconnect_log, reconnect_data, updateStatus.
  unfold bind, get, modify, date_now, logger_info, emit, call.
  cbn -[triggerWebhooks String.append pretty Z.add].
  destruct (fault env (S (issued w))) as [e|]; [reflexivity|].
  match goal with
  | |- context [triggerWebhooks env ?ev ?d ?s ?w0] =>
      destruct (triggerWebhooks_outcome ev d s w0) as (w' & calls & ->)
  end. reflexivity.
Qed.

Lemma on_close_state update this w :
  state (on_close env loggedOut update this w) = after_close loggedOut update this.
Proof.
  unfold on_close, after_close, bind at 1, get.
  destruct (shouldReconnect loggedOut update
            && (reconnectAttempts this <? maxReconnectAttempts this)
            && negb (isManualRestart this)).
  - rewrite on_close_reconnect_run. destruct (fault env (1 + issued w)%nat); reflexivity.
  - rewrite on_close_logout_run. destruct (fault env (1 + issued w)%nat); reflexivity.
Qed.

End CloseFacts.

(** ** The connection state machine: what each handler may change *)

(** The reconnection policy fields are left as they were. *)
Definition same_policy (s s' : Instance) : Prop :=
  reconnectAttempts s' = reconnectAttempts s
  /\ maxReconnectAttempts s' = maxReconnectAttempts s
  /\ isManualRestart s' = isManualRestart s.

Global Instance same_policy_preorder : PreOrder same_policy.
Proof.
  split.
  - intros s. repeat split.
  - intros s1 s2 s3 (H1 & H2 & H3) (H4 & H5 & H6). unfold same_policy. split_and!; congruence.
Qed.

(** The attempts counter is within the ceiling, and the ceiling is 5. *)
Definition bounded (s : Instance) : Prop :=
  reconnectAttempts s <= maxReconnectAttempts s /\ maxReconnectAttempts s = 5.

Definition stays_bounded (s s' : Instance) : Prop := bounded s -> bounded s'.

Global Instance stays_bounded_preorder : PreOrder stays_bounded.
Proof.
  split.
  - intros s H. exact H.
  - intros s1 s2 s3 H1 H2 H. auto.
Qed.

Lemma same_policy_bounded s s' : same_policy s s' -> stays_bounded s s'.
Proof. intros (H1 & H2 & H3) [Ha Hb]. unfold bounded. rewrite H1, H2. auto. Qed.

Lemma keeps_impl {St A} (R R' : St -> St -> Prop) (m : M St A) :
  (forall s s', R s s' -> R' s s') -> keeps R m -> keeps R' m.
Proof. intros H Hm s w. apply H, Hm. Qed.

Lemma keeps_eq_any {St A} (R : St -> St -> Prop) `{!Reflexive R} (m : M St A) :
  keeps eq m -> keeps R m.
Proof. intros Hm s w. rewrite <- (Hm s w). reflexivity. Qed.

Lemma bind_ret_l {St A B} (a : A) (k : A -> M St B) s w :
  bind (ret a) k s w = k a s w.
Proof. unfold bind, ret. destruct (k a s w). reflexivity. Qed.

Lemma state_bind_keeps {St A B} (m : M St A) (k : A -> M St B) s w :
  (forall a, keeps eq (k a)) -> state (bind m k s w) = state (m s w).
Proof.
  intros Hk. destruct (result (m s w)) as [e|a] eqn:Hr.
  - rewrite (bind_inl _ _ _ _ _ Hr). reflexivity.
  - rewrite (bind_inr _ _ _ _ _ Hr). simpl. symmetry. apply Hk.
Qed.

(** One step of a proof that a computation keeps a relation: descend into
    sequencing, handlers and loops, and close the leaves. *)
Ltac keeps_step :=
  first
    [ apply keeps_ret; typeclasses eauto
    | apply keeps_throw; typeclasses eauto
    | apply keeps_get; typeclasses eauto
    | apply keeps_date_now; typeclasses eauto
    | apply keeps_position; typeclasses eauto
    | apply keeps_emit; typeclasses eauto
    | apply keeps_call; typeclasses eauto
    | apply keeps_bind; [typeclasses eauto | | intros ?]
    | apply keeps_try_catch; [typeclasses eauto | | intros ?]
    | apply keeps_for_of; [typeclasses eauto | intros ?]
    | apply keeps_modify; intros ? ].

Section HandlerFacts.

Variable env : Env.
Variable loggedOut : Z.

Lemma updateStatus_keeps status : keeps eq (updateStatus env status).
Proof. unfold updateStatus. repeat keeps_step. Qed.

Lemma instanceLog_keeps level text : keeps eq (instanceLog env level text).
Proof. unfold instanceLog. repeat keeps_step. Qed.

Section AnyRelation.

Context (R : Instance -> Instance -> Prop) `{!PreOrder R}.

Hypothesis R_sock : forall v s, R s (set_sock v s).
Hypothesis R_isConnected : forall v s, R s (set_isConnected v s).
Hypothesis R_connectionStatus : forall v s, R s (set_connectionStatus v s).
Hypothesis R_qrCode : forall v s, R s (set_qrCode v s).
Hypothesis R_pluginManager : forall v s, R s (set_pluginManager v s).

Lemma updateStatus_keeps_any status : keeps R (updateStatus env status).
Proof. apply keeps_eq_any; [typeclasses eauto | apply updateStatus_keeps]. Qed.

Lemma instanceLog_keeps_any level text : keeps R (instanceLog env level text).
Proof. apply keeps_eq_any; [typeclasses eauto | apply instanceLog_keeps]. Qed.

Lemma triggerWebhooks_keeps_any event data : keeps R (triggerWebhooks env event data).
Proof. apply keeps_eq_any; [typeclasses eauto | apply triggerWebhooks_keeps]. Qed.

Lemma on_qr_keeps code : keeps R (on_qr env code).
Proof.
  unfold on_qr, logger_info.
  repeat first [ apply updateStatus_keeps_any | apply triggerWebhooks_keeps_any
               | keeps_step ]; auto.
  destruct (is_development env); keeps_step.
Qed.

Lemma on_connecting_keeps : keeps R (on_connecting env).
Proof.
  unfold on_connecting, logger_info.
  repeat first [ apply updateStatus_keeps_any | apply triggerWebhooks_keeps_any
               | keeps_step ]; auto.
Qed.

Lemma close_keeps : keeps R (close env).
Proof.
  unfold close, logger_info, logger_error.
  apply keeps_bind; [typeclasses eauto|keeps_step|]. intros this.
  apply keeps_bind; [typeclasses eauto| |].
  - destruct (sock this); repeat keeps_step.
  - intros _. repeat keeps_step; auto.
Qed.

Lemma initialize_keeps : keeps R (initialize env).
Proof.
  unfold initialize, logger_info, logger_error.
  apply keeps_try_catch; [typeclasses eauto| |].
  - apply keeps_bind; [typeclasses eauto|keeps_step|]. intros this.
    apply keeps_bind; [typeclasses eauto|keeps_step|]. intros _.
    apply keeps_bind; [typeclasses eauto|apply updateStatus_keeps_any|]. intros _.
    apply keeps_bind; [typeclasses eauto|keeps_step|]. intros _.
    apply keeps_bind; [typeclasses eauto|apply keeps_within; auto|]. intros _.
    apply keeps_bind; [typeclasses eauto|keeps_step|]. intros _.
    apply keeps_bind; [typeclasses eauto|keeps_step|]. intros n.
    apply keeps_bind; [typeclasses eauto|keeps_step|]. intros _.
    destruct (wa_version env n) as [version isLatest].
    repeat first [ apply instanceLog_keeps_any | keeps_step ]; auto.
  - intros e.
    repeat first [ apply instanceLog_keeps_any | apply updateStatus_keeps_any
                 | keeps_step ]; auto.
Qed.

Lemma on_open_keeps :
  (forall s, R s (set_reconnectAttempts 0 s)) -> keeps R (on_open env).
Proof.
  intros R_reset. unfold on_open, logger_info.
  repeat first [ apply updateStatus_keeps_any | apply triggerWebhooks_keeps_any
               | keeps_step ]; auto.
Qed.

Lemma on_connection_update_keeps update :
  keeps R (on_close env loggedOut update) -> keeps R (on_open env) ->
  keeps R (on_connection_update env loggedOut update).
Proof.
  intros Hclose Hopen. unfold on_connection_update.
  apply keeps_bind; [typeclasses eauto| |intros _].
  - destruct (qr update) as [code|]; [|keeps_step].
    destruct (Js.truthy (Some code)); [apply on_qr_keeps | keeps_step].
  - apply keeps_bind; [typeclasses eauto| |intros _; apply instanceLog_keeps_any].
    destruct (connection update) as [[| |]|];
      [assumption | assumption | apply on_connecting_keeps | keeps_step].
Qed.

End AnyRelation.

Lemma on_close_bounded update : keeps stays_bounded (on_close env loggedOut update).
Proof.
  intros s w. rewrite on_close_state. unfold after_close, stays_bounded, bounded.
  destruct (shouldReconnect loggedOut update); simpl;
    [destruct (Z.ltb_spec (reconnectAttempts s) (maxReconnectAttempts s)); simpl;
     [destruct (isManualRestart s); simpl|]|];
    unfold after_reconnect, after_logout; try destruct (isManualRestart s); simpl; lia.
Qed.

Lemma on_connection_update_bounded update :
  keeps stays_bounded (on_connection_update env loggedOut update).
Proof.
  apply on_connection_update_keeps; try typeclasses eauto;
    try (intros v s H; exact H).
  - apply on_close_bounded.
  - apply on_open_keeps; try typeclasses eauto; try (intros v s H; exact H).
    intros s [H1 H2]. unfold bounded. simpl. lia.
Qed.

Lemma on_connection_update_same_policy update :
  connection update <> Some conn_close -> connection update <> Some conn_open ->
  keeps same_policy (on_connection_update env loggedOut update).
Proof.
  intros Hc Ho. unfold on_connection_update.
  apply keeps_bind; [typeclasses eauto| |intros _].
  - destruct (qr update) as [code|]; [|keeps_step].
    destruct (Js.truthy (Some code)); [|keeps_step].
    apply on_qr_keeps; try typeclasses eauto; intros v s; repeat split.
  - apply keeps_bind; [typeclasses eauto| |intros _].
    + destruct (connection update) as [[| |]|]; try congruence; [|keeps_step].
      apply on_connecting_keeps; try typeclasses eauto; intros v s; repeat split.
    + apply instanceLog_keeps_any. typeclasses eauto.
Qed.

Lemma initialize_same_policy : keeps same_policy (initialize env).
Proof. apply initialize_keeps; try typeclasses eauto; intros v s; repeat split. Qed.

Lemma initialize_bounded : keeps stays_bounded (initialize env).
Proof.
  apply (keeps_impl same_policy); [apply same_policy_bounded | apply initialize_same_policy].
Qed.

Lemma close_signal_state code this w :
  state (on_connection_update env loggedOut (close_signal code) this w)
  = after_close loggedOut (close_signal code) this.
Proof.
  unfold on_connection_update. cbn [qr connection close_signal].
  rewrite bind_ret_l.
  rewrite state_bind_keeps by (intros a; apply instanceLog_keeps).
  apply on_close_state.
Qed.

End HandlerFacts.

(** ** The controller driven by the event loop *)

(** What the event loop can hand to a controller: a ['connection.update']
    signal of its socket, a call of [this.initialize()] (by the reconnect
    timer, or by [restartInstance] after its settle delay), and the first
    half of [restartInstance] (the flag is set and the socket closed). *)
Inductive Input :=
| signal (update : ConnectionUpdate)
| run_initialize
| restart_requested.

Definition react (env : Env) (loggedOut : Z) (i : Input) : M Instance unit :=
  match i with
  | signal update => on_connection_update env loggedOut update
  | run_initialize => initialize env
  | restart_requested => modify (set_isManualRestart true) ;; close env
  end.

(** The inputs are handled one after the other; a handler that rejects
    leaves the controller as it was at the throw and the loop goes on. *)
Fixpoint feed (env : Env) (loggedOut : Z) (inputs : list Input) (this : Instance)
    (w : World) : Outcome Instance unit :=
  match inputs with
  | [] => mkOutcome (inr tt) this w []
  | i :: rest =>
      match react env loggedOut i this w with
      | mkOutcome _ s1 w1 calls1 =>
          match feed env loggedOut rest s1 w1 with
          | mkOutcome r s2 w2 calls2 => mkOutcome r s2 w2 (calls1 ++ calls2)
          end
      end
  end.

Definition is_closure (i : Input) : bool :=
  match i with
  | signal {| connection := Some conn_close |} => true
  | _ => false
  end.

(** The closures among the inputs. *)
Definition closures (inputs : list Input) : Z :=
  Z.of_nat (length (List.filter is_closure inputs)).

(** What an unresolved outage is made of: closures for a reason other than
    "logged out", the [connecting] signals of the new sockets, and the
    re-initialisations by the reconnect timer; no [open], no operator. *)
Definition outage_input (loggedOut : Z) (i : Input) : bool :=
  match i with
  | signal {| connection := Some conn_close; statusCode := code; qr := None |} =>
      negb (bool_decide (code = Some loggedOut))
  | signal {| connection := Some conn_connecting; qr := None |} => true
  | run_initialize => true
  | _ => false
  end.

Lemma feed_cons env loggedOut i rest this w :
  state (feed env loggedOut (i :: rest) this w)
  = state (feed env loggedOut rest (state (react env loggedOut i this w))
                (world (react env loggedOut i this w))).
Proof.
  simpl. destruct (react env loggedOut i this w) as [r s1 w1 c1]. simpl.
  destruct (feed env loggedOut rest s1 w1). reflexivity.
Qed.

Lemma feed_app env loggedOut xs ys this w :
  state (feed env loggedOut (xs ++ ys) this w)
  = state (feed env loggedOut ys (state (feed env loggedOut xs this w))
                (world (feed env loggedOut xs this w))).
Proof.
  revert this w. induction xs as [|i rest IH]; intros this w; [reflexivity|].
  change ((i :: rest) ++ ys) with (i :: (rest ++ ys)). rewrite feed_cons, IH.
  simpl. destruct (react env loggedOut i this w) as [r s1 w1 c1]. simpl.
  destruct (feed env loggedOut rest s1 w1). reflexivity.
Qed.

Lemma react_bounded env loggedOut i : keeps stays_bounded (react env loggedOut i).
Proof.
  destruct i as [update| |]; simpl.
  - apply on_connection_update_bounded.
  - apply initialize_bounded.
  - apply keeps_bind; [typeclasses eauto| |intros _].
    + apply keeps_modify. intros s H. exact H.
    + apply close_keeps; try typeclasses eauto; intros v s H; exact H.
Qed.

Lemma feed_bounded env loggedOut inputs this w :
  bounded this -> bounded (state (feed env loggedOut inputs this w)).
Proof.
  revert this w. induction inputs as [|i rest IH]; intros this w Hb; [exact Hb|].
  rewrite feed_cons. apply IH. apply (react_bounded env loggedOut i this w Hb).
Qed.

Lemma outage_step env loggedOut i this w :
  outage_input loggedOut i = true ->
  maxReconnectAttempts this = 5 -> isManualRestart this = false ->
  reconnectAttempts this <= 5 ->
  let s' := state (react env loggedOut i this w) in
  maxReconnectAttempts s' = 5 /\ isManualRestart s' = false
  /\ reconnectAttempts s' = Z.min (reconnectAttempts this + closures [i]) 5.
Proof.
  intros Hi Hmax Hflag Hle s'. subst s'.
  destruct i as [[[[| |]|] code [code'|]]| |]; try discriminate; simpl in Hi.
  - (* a closure *)
    apply negb_true_iff, bool_decide_eq_false in Hi.
    change (react env loggedOut (signal {| connection := Some conn_close;
                                           statusCode := code; qr := None |}))
      with (on_connection_update env loggedOut (close_signal code)).
    rewrite close_signal_state. unfold after_close, shouldReconnect. simpl.
    rewrite bool_decide_eq_false_2 by assumption. rewrite Hflag, Hmax. simpl.
    unfold closures. simpl.
    destruct (Z.ltb_spec (reconnectAttempts this) 5); simpl; rewrite ?Hflag; simpl; lia.
  - (* a connecting signal *)
    destruct (on_connection_update_same_policy env loggedOut
                {| connection := Some conn_connecting; statusCode := code; qr := None |}
                ltac:(discriminate) ltac:(discriminate) this w) as (H1 & H2 & H3).
    simpl. rewrite H1, H2, H3. unfold closures. simpl. split_and!; try assumption; lia.
  - (* a re-initialisation *)
    destruct (initialize_same_policy env this w) as (H1 & H2 & H3).
    simpl. rewrite H1, H2, H3. unfold closures. simpl. split_and!; try assumption; lia.
Qed.

Lemma outage_counts env loggedOut outage this w :
  forallb (outage_input loggedOut) outage = true ->
  maxReconnectAttempts this = 5 -> isManualRestart this = false ->
  0 <= reconnectAttempts this <= 5 ->
  let s' := state (feed env loggedOut outage this w) in
  maxReconnectAttempts s' = 5 /\ isManualRestart s' = false
  /\ reconnectAttempts s' = Z.min (reconnectAttempts this + closures outage) 5.
Proof.
  revert this w. induction outage as [|i rest IH]; intros this w Hall Hmax Hflag Hle.
  - simpl. unfold closures. simpl. split_and!; auto; lia.
  - simpl in Hall. apply andb_prop in Hall as [Hi Hrest].
    cbv zeta. rewrite feed_cons.
    destruct (outage_step env loggedOut i this w Hi Hmax Hflag ltac:(lia))
      as (Hmax' & Hflag' & Hatt').
    assert (Hc : 0 <= closures [i]) by (unfold closures; lia).
    destruct (IH _ (world (react env loggedOut i this w)) Hrest Hmax' Hflag' ltac:(lia))
      as (H1 & H2 & H3).
    split_and!; [assumption | assumption |].
    rewrite H3, Hatt'.
    assert (Hsplit : closures (i :: rest) = closures [i] + closures rest).
    { unfold closures. simpl. destruct (is_closure i); simpl; lia. }
    assert (Hr : 0 <= closures rest) by (unfold closures; lia).
    rewrite Hsplit. lia.
Qed.

(** C1: whatever the event loop hands to a controller, [reconnectAttempts]
    never exceeds 5.  A close signal with a reason other than "logged
    out", with no manual restart in progress, increments the counter and
    enters [reconnecting] exactly when the counter is below 5, and
    otherwise enters [logged_out] leaving the counter alone.  During one
    unresolved outage (closures, the [connecting] signals and the
    re-initialisations between them, starting from a counter of 0) the
    counter is the number of closures up to 5, and the next closure enters
    [reconnecting] when fewer than 5 came before it and [logged_out]
    otherwise: the sixth closure in a row is answered with [logged_out]. *)
Theorem reconnect_attempts_never_exceed_ceiling (env : Env) (loggedOut : Z)
    (data : InstanceData) (inputs outage : list Input) (this : Instance)
    (code : option Z) (w w1 w2 w3 : World) :
  reconnectAttempts (state (feed env loggedOut inputs (new_WhatsAppInstance data) w)) <= 5
  /\ (code <> Some loggedOut -> isManualRestart this = false ->
      maxReconnectAttempts this = 5 ->
      let after := state (on_connection_update env loggedOut (close_signal code) this w1) in
      (reconnectAttempts this < 5 ->
       connectionStatus after = reconnecting
       /\ reconnectAttempts after = reconnectAttempts this + 1)
      /\ (5 <= reconnectAttempts this ->
          connectionStatus after = logged_out
          /\ reconnectAttempts after = reconnectAttempts this)
      /\ (connectionStatus after = reconnecting <-> reconnectAttempts this < 5))
  /\ (code <> Some loggedOut -> isManualRestart this = false ->
      maxReconnectAttempts this = 5 -> reconnectAttempts this = 0 ->
      forallb (outage_input loggedOut) outage = true ->
      let before := state (feed env loggedOut outage this w2) in
      let after := state (on_connection_update env loggedOut (close_signal code) before w3) in
      reconnectAttempts before = Z.min (closures outage) 5
      /\ (closures outage < 5 ->
          connectionStatus after = reconnecting
          /\ reconnectAttempts after = closures outage + 1)
      /\ (5 <= closures outage ->
          connectionStatus after = logged_out /\ reconnectAttempts after = 5)).
Proof.
  assert (Hstep : forall s w0, code <> Some loggedOut -> isManualRestart s = false ->
            maxReconnectAttempts s = 5 ->
            let after := state (on_connection_update env loggedOut (close_signal code) s w0) in
            (reconnectAttempts s < 5 ->
             connectionStatus after = reconnecting
             /\ reconnectAttempts after = reconnectAttempts s + 1)
            /\ (5 <= reconnectAttempts s ->
                connectionStatus after = logged_out
                /\ reconnectAttempts after = reconnectAttempts s)).
  { intros s w0 Hcode Hflag Hmax after. subst after.
    rewrite close_signal_state. unfold after_close, shouldReconnect. simpl.
    rewrite bool_decide_eq_false_2 by assumption. rewrite Hflag, Hmax. simpl.
    destruct (Z.ltb_spec (reconnectAttempts s) 5); simpl; rewrite ?Hflag; simpl;
      split; intros; try lia; split; reflexivity. }
  split_and!.
  - assert (Hb : bounded (new_WhatsAppInstance data)) by (split; simpl; [lia | reflexivity]).
    destruct (feed_bounded env loggedOut inputs _ w Hb) as [H1 H2]. lia.
  - intros Hcode Hflag Hmax after.
    destruct (Hstep this w1 Hcode Hflag Hmax) as [Hlt Hge]. fold after in Hlt, Hge.
    split_and!; [exact Hlt | exact Hge |].
    split.
    + intros Hrec. destruct (Z.lt_ge_cases (reconnectAttempts this) 5) as [|Hfive]; [assumption|].
      destruct (Hge Hfive) as [Hlo _]. congruence.
    + intros Hbelow. apply Hlt. assumption.
  - intros Hcode Hflag Hmax Hzero Hout before after.
    destruct (outage_counts env loggedOut outage this w2 Hout Hmax Hflag ltac:(lia))
      as (Hmax' & Hflag' & Hatt').
    fold before in Hmax', Hflag', Hatt'. rewrite Hzero in Hatt'. simpl in Hatt'.
    destruct (Hstep before w3 Hcode Hflag' Hmax') as [Hlt Hge]. fold after in Hlt, Hge.
    assert (Hc : 0 <= closures outage) by (unfold closures; lia).
    split_and!; [exact Hatt' | |].
    + intros Hfew. destruct Hlt as [Hs Ha]; [lia|]. split; [exact Hs | lia].
    + intros Hmany. destruct Hge as [Hs Ha]; [lia|]. split; [exact Hs | lia].
Qed.

(** An outage: the connection closes five times for a network reason
    (status code 428), each time followed by the re-initialisation and the
    [connecting] signal of the new socket; then it closes a sixth time. *)
Definition retry : list Input :=
  [signal (close_signal (Some 428)); run_initialize;
   signal {| connection := Some conn_connecting; statusCode := None; qr := None |}].

Definition five_closures : list Input := retry ++ retry ++ retry ++ retry ++ retry.

Definition connected_instance : Instance :=
  set_isConnected true (set_connectionStatus connected (new_WhatsAppInstance scene_data)).

Lemma reconnect_ceiling_witness :
  let before := state (feed calm 401 five_closures connected_instance dawn) in
  let after := state (on_connection_update calm 401 (close_signal (Some 428)) before dawn) in
  forallb (outage_input 401) five_closures = true
  /\ closures five_closures = 5
  /\ reconnectAttempts before = 5
  /\ connectionStatus after = logged_out
  /\ reconnectAttempts after = 5.
Proof.
  assert (Hout : forallb (outage_input 401) five_closures = true) by reflexivity.
  assert (Hcode : Some 428 <> Some 401) by discriminate.
  destruct (reconnect_attempts_never_exceed_ceiling calm 401 scene_data [] five_closures
              connected_instance (Some 428) dawn dawn dawn dawn)
    as (_ & _ & Houtage).
  destruct (Houtage Hcode eq_refl eq_refl eq_refl Hout) as (Hbefore & _ & Hsixth).
  destruct (Hsixth ltac:(vm_compute; discriminate)) as [Hstatus Hattempts].
  split_and!;
    [exact Hout | reflexivity | exact Hbefore | exact Hstatus | exact Hattempts].
Defined.

(** ** What the handlers may emit *)

Ltac emits_step :=
  first
    [ apply emits_ret | apply emits_throw | apply emits_get | apply emits_modify
    | apply emits_date_now | apply emits_position
    | apply emits_emit | apply emits_call
    | apply emits_bind; [|intros ?]
    | apply emits_try_catch; [|intros ?]
    | apply emits_for_of; intros ?
    | apply emits_within ].

Section EmitFacts.

Variable env : Env.
Variable Q : Event -> Prop.

(** The calls of a webhook trigger: the registry query, log lines, and for
    each webhook the request carrying the trigger's event and data, its
    settlement and its record. *)
Record webhook_calls_ok (event : string) (data : EventData) : Prop := {
  ok_query : forall id, Q (GetEnabledWebhooks id event);
  ok_log : forall level text, Q (Log level text);
  ok_post : forall url p, pl_event p = event -> pl_data p = data ->
            Q (HttpPost url p (webhook_config env));
  ok_settled : forall url settled, Q (HttpSettled url settled);
  ok_record : forall h, hd_event h = event -> Q (HistoryCreate h) }.

Lemma deliver_emits event data webhook :
  webhook_calls_ok event data -> emits_only Q (deliver env event data webhook).
Proof.
  intros Hok s w. rewrite deliver_run. cbn [emitted].
  apply Forall_app. split.
  - repeat constructor.
    + apply Hok; reflexivity.
    + apply Hok.
    + unfold attempt_log. destruct (post_result env (issued w) (wh_url webhook) 5000).1; apply Hok.
    + apply Hok. destruct (post_result env (issued w) (wh_url webhook) 5000).1; reflexivity.
  - destruct (fault env (3 + issued w)%nat); repeat constructor. apply Hok.
Qed.

Lemma triggerWebhooks_emits event data :
  webhook_calls_ok event data -> emits_only Q (triggerWebhooks env event data).
Proof.
  intros Hok. unfold triggerWebhooks, logger_error.
  apply emits_bind; [emits_step|]. intros this.
  apply emits_try_catch.
  - apply emits_bind; [emits_step|]. intros n.
    apply emits_bind; [apply emits_call, Hok|]. intros _.
    apply emits_for_of. intros webhook. apply deliver_emits. assumption.
  - intros e. apply emits_emit, Hok.
Qed.

End EmitFacts.

(** Neither a timer nor a step of the automatic reconnection. *)
Definition unprompted (e : Event) : bool :=
  match e with
  | SetTimeout _ _ => true
  | UpdateStatus _ db_reconnecting => true
  | _ => false
  end.

Definition is_logout (e : Event) : bool :=
  match e with SockLogout => true | _ => false end.

(** An event an event filter lets through. *)
Definition passes (allowed : Event -> bool) (e : Event) : Prop := allowed e = true.

Section QuietFacts.

Variable env : Env.
Variable allowed : Event -> bool.

Hypothesis allowed_log : forall level text, allowed (Log level text) = true.
Hypothesis allowed_query : forall id event, allowed (GetEnabledWebhooks id event) = true.
Hypothesis allowed_post : forall url p c, allowed (HttpPost url p c) = true.
Hypothesis allowed_settled : forall url settled, allowed (HttpSettled url settled) = true.
Hypothesis allowed_record : forall h, allowed (HistoryCreate h) = true.
Hypothesis allowed_instance_log :
  forall id level text, allowed (InstanceLogCreate id level text) = true.

Local Abbreviation Q := (passes allowed).

Lemma triggerWebhooks_allowed event data : emits_only Q (triggerWebhooks env event data).
Proof. apply triggerWebhooks_emits. split; intros; unfold passes; auto. Qed.

Lemma instanceLog_allowed level text : emits_only Q (instanceLog env level text).
Proof.
  unfold instanceLog. apply emits_bind; [emits_step|]. intros this.
  apply emits_call. apply allowed_instance_log.
Qed.

Lemma on_close_logout_allowed update :
  (forall id, allowed (UpdateStatus id db_inactive) = true) ->
  emits_only Q (on_close_logout env update).
Proof.
  intros Hinactive. unfold on_close_logout, updateStatus, logger_info.
  apply emits_bind; [emits_step|]. intros this.
  apply emits_bind.
  - destruct (isManualRestart this); repeat emits_step; apply allowed_log.
  - intros _.
    repeat first [ apply triggerWebhooks_allowed | apply emits_call, Hinactive
                 | emits_step ].
Qed.

Lemma close_allowed :
  allowed WsClose = true -> emits_only Q (close env).
Proof.
  intros Hws. unfold close, logger_info, logger_error.
  apply emits_bind; [emits_step|]. intros this.
  apply emits_bind; [|intros _; repeat emits_step].
  destruct (sock this); [|emits_step].
  apply emits_try_catch; [|intros e; apply emits_emit, allowed_log].
  apply emits_bind; [apply emits_call, Hws|]. intros _. apply emits_emit, allowed_log.
Qed.

Lemma loadPlugins_allowed :
  allowed ReadPluginDir = true -> (forall file, allowed (RequirePlugin file) = true) ->
  emits_only Q (loadPlugins env).
Proof.
  intros Hread Hrequire. unfold loadPlugins, logger_info, logger_error.
  apply emits_try_catch; [|intros e; apply emits_emit, allowed_log].
  apply emits_bind; [emits_step|]. intros n.
  apply emits_bind; [apply emits_call, Hread|]. intros _.
  apply emits_bind; [apply emits_emit, allowed_log|]. intros _.
  apply emits_bind.
  - apply emits_for_of. intros file.
    apply emits_try_catch; [|intros e; apply emits_emit, allowed_log].
    apply emits_bind; [emits_step|]. intros k.
    apply emits_bind; [apply emits_call, Hrequire|]. intros _.
    repeat first [ apply emits_emit, allowed_log | emits_step ].
  - intros _. apply emits_bind; [emits_step|]. intros this.
    apply emits_emit, allowed_log.
Qed.

Lemma initialize_allowed :
  (forall id, allowed (UpdateStatus id db_connecting) = true) ->
  (forall id, allowed (UpdateStatus id db_error) = true) ->
  allowed EnsureAuthDir = true -> allowed ReadPluginDir = true ->
  (forall file, allowed (RequirePlugin file) = true) ->
  allowed UseAuthState = true -> allowed FetchVersion = true ->
  allowed MakeSocket = true ->
  emits_only Q (initialize env).
Proof.
  intros Hconnecting Herror Hdir Hread Hrequire Hauth Hfetch Hmake.
  unfold initialize, updateStatus, logger_info, logger_error.
  apply emits_try_catch.
  - apply emits_bind; [emits_step|]. intros this.
    apply emits_bind; [apply emits_emit, allowed_log|]. intros _.
    apply emits_bind.
    { apply emits_bind; [emits_step|]. intros this'. apply emits_call, Hconnecting. }
    intros _.
    apply emits_bind; [apply emits_call, Hdir|]. intros _.
    apply emits_bind; [apply emits_within, loadPlugins_allowed; assumption|]. intros _.
    apply emits_bind; [apply emits_call, Hauth|]. intros _.
    apply emits_bind; [emits_step|]. intros n.
    apply emits_bind; [apply emits_call, Hfetch|]. intros _.
    destruct (wa_version env n) as [version isLatest].
    apply emits_bind; [apply emits_emit, allowed_log|]. intros _.
    apply emits_bind; [apply emits_call, Hmake|]. intros _.
    apply emits_bind; [emits_step|]. intros _.
    apply instanceLog_allowed.
  - intros e.
    apply emits_bind; [emits_step|]. intros this.
    apply emits_bind; [apply emits_emit, allowed_log|]. intros _.
    apply emits_bind; [apply instanceLog_allowed|]. intros _.
    apply emits_bind; [emits_step|]. intros _.
    apply emits_bind; [emits_step|]. intros this'. apply emits_call, Herror.
Qed.

End QuietFacts.

(** ** Manual restart *)

Section RestartFacts.

Variable env : Env.
Variable loggedOut : Z.

Lemma close_succeeds : succeeds (close env).
Proof.
  unfold close, logger_info, logger_error.
  apply succeeds_bind; [apply succeeds_get|]. intros this.
  apply succeeds_bind.
  - destruct (sock this); [|apply succeeds_ret].
    apply succeeds_try_catch. intros e. apply succeeds_emit.
  - intros _. apply succeeds_bind; [apply succeeds_modify|].
    intros _. apply succeeds_modify.
Qed.

(** With the flag set the close block takes its [else] branch. *)
Lemma on_close_flagged update this w :
  isManualRestart this = true ->
  on_close env loggedOut update this w = on_close_logout env update this w.
Proof.
  intros Hflag. unfold on_close, bind at 1, get. rewrite Hflag, andb_false_r.
  destruct (on_close_logout env update this w). reflexivity.
Qed.

(** A close signal without pairing code runs the close block and then
    writes the instance log. *)
Lemma closing_run update this w :
  connection update = Some conn_close -> Js.truthy (qr update) = false ->
  on_connection_update env loggedOut update this w
  = bind (on_close env loggedOut update)
         (fun _ => instanceLog env info "Connection status changed: close") this w.
Proof.
  intros Hc Hq. unfold on_connection_update. rewrite Hc.
  destruct (qr update) as [code|]; [rewrite Hq|]; rewrite bind_ret_l; reflexivity.
Qed.

Lemma bind_get {St B} (k : St -> M St B) s w : bind get k s w = k s s w.
Proof. unfold bind, get. destruct (k s s w). reflexivity. Qed.

Lemma on_instance_run {A} phone instance (m : M Instance A) mgr w current :
  instances mgr !! phone = Some current ->
  on_instance phone instance m mgr w =
  mkOutcome (result (m current w)) (set_instance phone (state (m current w)) mgr)
            (world (m current w)) (emitted (m current w)).
Proof.
  intros Hfound. unfold on_instance, within. rewrite Hfound. cbn [default from_option id].
  destruct (m current w); reflexivity.
Qed.

Lemma lookup_set_instance phone i mgr :
  instances (set_instance phone i mgr) !! phone = Some i.
Proof. unfold set_instance. cbn [instances]. apply lookup_insert_eq. Qed.

Lemma restartInstance_run phone mgr w instance :
  instances mgr !! phone = Some instance ->
  let flagged := set_isManualRestart true instance in
  let c := close env flagged w in
  let r := initialize env (state c)
             {| now := now (world c); issued := S (issued (world c)) |} in
  restartInstance env phone mgr w =
  mkOutcome
    (match result r with
     | inl e => inl e
     | inr _ => inr {| rr_success := true; rr_message := "Instance restarted successfully" |}
     end)
    (set_instance phone (state r)
       (set_instance phone (state c) (set_instance phone flagged mgr)))
    (world r)
    (emitted c ++ Sleep 1000 :: emitted r).
Proof.
  intros Hfound flagged c r.
  unfold restartInstance. rewrite bind_get, Hfound.
  erewrite bind_inr by (rewrite (on_instance_run _ _ _ _ _ _ Hfound); reflexivity).
  rewrite (on_instance_run _ _ _ _ _ _ Hfound). cbn [state world emitted modify].
  fold flagged.
  destruct (close_succeeds flagged w) as [[] Hc]. fold c in Hc.
  erewrite bind_inr
    by (rewrite (on_instance_run _ _ _ _ _ _ (lookup_set_instance _ _ _)); exact Hc).
  rewrite (on_instance_run _ _ _ _ _ _ (lookup_set_instance _ _ _)).
  fold c. cbn [state world emitted].
  erewrite bind_inr by reflexivity. cbn [state world emitted emit now issued].
  destruct (result r) as [e|[]] eqn:Hr.
  - erewrite bind_inl
      by (rewrite (on_instance_run _ _ _ _ _ _ (lookup_set_instance _ _ _)); exact Hr).
    rewrite (on_instance_run _ _ _ _ _ _ (lookup_set_instance _ _ _)).
    fold r. cbn [state world emitted app]. reflexivity.
  - erewrite bind_inr
      by (rewrite (on_instance_run _ _ _ _ _ _ (lookup_set_instance _ _ _)); exact Hr).
    rewrite (on_instance_run _ _ _ _ _ _ (lookup_set_instance _ _ _)).
    fold r. cbn [state world emitted app ret result]. rewrite app_nil_r. reflexivity.
Qed.

End RestartFacts.

Lemma emitted_bind_prefix {St A B} (m : M St A) (k : A -> M St B) s w :
  exists rest, emitted (bind m k s w) = emitted (m s w) ++ rest.
Proof.
  destruct (result (m s w)) as [e|a] eqn:Hr.
  - rewrite (bind_inl _ _ _ _ _ Hr). exists []. simpl. rewrite app_nil_r. reflexivity.
  - rewrite (bind_inr _ _ _ _ _ Hr). eexists. reflexivity.
Qed.

Lemma emitted_try_catch_prefix {St A} (body : M St A) handler s w :
  exists rest, emitted (try_catch body handler s w) = emitted (body s w) ++ rest.
Proof.
  destruct (result (body s w)) as [e|a] eqn:Hr.
  - rewrite (try_catch_inl _ _ _ _ _ Hr). eexists. reflexivity.
  - rewrite (try_catch_inr _ _ _ _ _ Hr). exists []. rewrite app_nil_r. reflexivity.
Qed.

Lemma emitted_bind_emit {St B} e (k : unit -> M St B) s w :
  emitted (bind (emit e) k s w)
  = e :: emitted (k tt s {| now := now w; issued := S (issued w) |}).
Proof. unfold bind, emit. destruct (k tt s _). reflexivity. Qed.

Lemma emitted_feed_cons env loggedOut i rest this w :
  emitted (feed env loggedOut (i :: rest) this w)
  = emitted (react env loggedOut i this w)
    ++ emitted (feed env loggedOut rest (state (react env loggedOut i this w))
                     (world (react env loggedOut i this w))).
Proof.
  simpl. destruct (react env loggedOut i this w) as [r s1 w1 c1]. simpl.
  destruct (feed env loggedOut rest s1 w1). reflexivity.
Qed.

Lemma passes_negb (f : Event -> bool) (l : list Event) :
  Forall (passes (fun e => negb (f e))) l -> Forall (fun e => f e = false) l.
Proof.
  intros Hl. eapply Forall_impl; [exact Hl|].
  intros e H. unfold passes in H. apply negb_true_iff in H. exact H.
Qed.

Section RestartTheorem.

Variable env : Env.
Variable loggedOut : Z.

(** [initialize] begins by logging and by persisting the status
    [connecting]. *)
Lemma initialize_begins this w :
  exists rest,
    emitted (initialize env this w)
    = Log info ("Initializing WhatsApp instance for "
                +:+ inst_phone (instanceData this) +:+ "...")
      :: UpdateStatus (inst_id (instanceData this)) db_connecting :: rest.
Proof.
  unfold initialize.
  match goal with
  | |- context [emitted (try_catch ?body ?h ?s ?w0)] =>
      destruct (emitted_try_catch_prefix body h s w0) as [rest1 ->]
  end.
  rewrite bind_get. unfold logger_info. rewrite emitted_bind_emit.
  match goal with
  | |- context [emitted (bind (updateStatus env db_connecting) ?k ?s ?w0)] =>
      destruct (emitted_bind_prefix (updateStatus env db_connecting) k s w0) as [rest2 ->]
  end.
  unfold updateStatus. rewrite bind_get. cbn [call emitted app].
  eexists. reflexivity.
Qed.

(** What a close signal does while the manual-restart flag is set. *)
Lemma flagged_close update this w :
  connection update = Some conn_close -> Js.truthy (qr update) = false ->
  isManualRestart this = true ->
  let o := on_connection_update env loggedOut update this w in
  state o = set_isConnected false
              (set_connectionStatus logged_out (set_isManualRestart false this))
  /\ Forall (fun e => unprompted e = false) (emitted o).
Proof.
  intros Hc Hq Hflag o. subst o. rewrite (closing_run env loggedOut update this w Hc Hq).
  split.
  - rewrite state_bind_keeps by (intros a; apply instanceLog_keeps).
    rewrite on_close_state. unfold after_close. rewrite Hflag, andb_false_r.
    unfold after_logout. rewrite Hflag. reflexivity.
  - destruct (result (on_close env loggedOut update this w)) as [e|[]] eqn:Hr.
    + rewrite (bind_inl _ _ _ _ _ Hr). cbn [emitted].
      rewrite (on_close_flagged env loggedOut update this w Hflag).
      apply passes_negb, on_close_logout_allowed; reflexivity.
    + rewrite (bind_inr _ _ _ _ _ Hr). cbn [emitted].
      apply Forall_app. split.
      * rewrite (on_close_flagged env loggedOut update this w Hflag).
        apply passes_negb, on_close_logout_allowed; reflexivity.
      * apply passes_negb, instanceLog_allowed; reflexivity.
Qed.

End RestartTheorem.

Lemma close_same_policy env : keeps same_policy (close env).
Proof. apply close_keeps; try typeclasses eauto; intros v s; repeat split. Qed.

Lemma close_status env this w : connectionStatus (state (close env this w)) = disconnected.
Proof.
  unfold close. rewrite bind_get.
  match goal with
  | |- context [bind ?m ?k this w] =>
      assert (Hm : exists w1 c1, m this w = mkOutcome (inr tt) this w1 c1)
  end.
  { destruct (sock this); [|do 2 eexists; reflexivity].
    unfold try_catch, bind, call, logger_info, logger_error, emit.
    destruct (fault env (issued w)); do 2 eexists; reflexivity. }
  destruct Hm as (w1 & c1 & Hm).
  erewrite bind_inr by (rewrite Hm; reflexivity). rewrite Hm. reflexivity.
Qed.

Lemma close_begins env this w :
  is_Some (sock this) -> exists rest, emitted (close env this w) = WsClose :: rest.
Proof.
  intros [socket Hs]. unfold close. rewrite bind_get, Hs.
  match goal with
  | |- context [emitted (bind ?m ?k ?s ?w0)] =>
      destruct (emitted_bind_prefix m k s w0) as [rest1 ->]
  end.
  unfold try_catch, bind, call, logger_info, logger_error, emit.
  destruct (fault env (issued w)); eexists; reflexivity.
Qed.

(** C2: a close signal handled while the manual-restart flag is set takes
    the [logged_out] branch, consumes the flag, and neither sets a timer
    nor persists [reconnecting].  [restartInstance] sets the flag, closes
    the socket (no logout is ever called), waits 1000 ms and then runs
    [initialize], which begins by persisting [connecting].  When the close
    signal arrives between the two halves of the restart, the controller
    goes through [logged_out] to the re-initialisation with the flag
    consumed and without any step of the automatic reconnection. *)
Theorem manual_restart_suppresses_reconnect (env : Env) (loggedOut : Z)
    (update : ConnectionUpdate) (this : Instance) (w : World)
    (phone : string) (mgr : Manager) (instance : Instance) :
  (connection update = Some conn_close -> Js.truthy (qr update) = false ->
   isManualRestart this = true ->
   let o := on_connection_update env loggedOut update this w in
   connectionStatus (state o) = logged_out
   /\ isManualRestart (state o) = false
   /\ isConnected (state o) = false
   /\ reconnectAttempts (state o) = reconnectAttempts this
   /\ Forall (fun e => unprompted e = false) (emitted o))
  /\ (instances mgr !! phone = Some instance ->
      let flagged := set_isManualRestart true instance in
      let closing := close env flagged w in
      let reinit := initialize env (state closing)
                      {| now := now (world closing); issued := S (issued (world closing)) |} in
      let o := restartInstance env phone mgr w in
      isManualRestart flagged = true
      /\ emitted o = emitted closing ++ Sleep 1000 :: emitted reinit
      /\ (is_Some (sock instance) -> exists rest, emitted closing = WsClose :: rest)
      /\ connectionStatus (state closing) = disconnected
      /\ isManualRestart (state closing) = true
      /\ Forall (fun e => is_logout e = false) (emitted o)
      /\ Forall (fun e => unprompted e = false) (emitted o)
      /\ (exists rest,
            emitted reinit
            = Log info ("Initializing WhatsApp instance for "
                        +:+ inst_phone (instanceData (state closing)) +:+ "...")
              :: UpdateStatus (inst_id (instanceData (state closing))) db_connecting :: rest)
      /\ instances (state o) !! phone = Some (state reinit))
  /\ (connection update = Some conn_close -> Js.truthy (qr update) = false ->
      let closed := react env loggedOut restart_requested instance w in
      let signalled := on_connection_update env loggedOut update (state closed) (world closed) in
      let o := feed env loggedOut [restart_requested; signal update; run_initialize]
                    instance w in
      connectionStatus (state signalled) = logged_out
      /\ isManualRestart (state o) = false
      /\ Forall (fun e => unprompted e = false) (emitted o)).
Proof.
  split_and!.
  - intros Hc Hq Hflag o.
    destruct (flagged_close env loggedOut update this w Hc Hq Hflag) as [Hs Hquiet].
    fold o in Hs, Hquiet. rewrite Hs. split_and!; try reflexivity. exact Hquiet.
  - intros Hfound flagged closing reinit o.
    assert (Hrun := restartInstance_run env phone mgr w instance Hfound).
    cbv zeta in Hrun. fold flagged closing reinit o in Hrun.
    assert (Hem : emitted o = emitted closing ++ Sleep 1000 :: emitted reinit)
      by (rewrite Hrun; reflexivity).
    split_and!.
    + reflexivity.
    + exact Hem.
    + intros Hsock. apply close_begins. exact Hsock.
    + apply close_status.
    + destruct (close_same_policy env flagged w) as (_ & _ & H). exact H.
    + rewrite Hem. apply Forall_app. split; [|constructor; [reflexivity|]].
      * apply passes_negb, close_allowed; reflexivity.
      * apply passes_negb, initialize_allowed; reflexivity.
    + rewrite Hem. apply Forall_app. split; [|constructor; [reflexivity|]].
      * apply passes_negb, close_allowed; reflexivity.
      * apply passes_negb, initialize_allowed; reflexivity.
    + apply initialize_begins.
    + rewrite Hrun. cbn [state]. apply lookup_set_instance.
  - intros Hc Hq closed signalled o.
    assert (Hclosed : state closed = state (close env (set_isManualRestart true instance) w)
                      /\ emitted closed = emitted (close env (set_isManualRestart true instance) w)).
    { subst closed. unfold react.
      erewrite bind_inr by reflexivity. cbn [state world emitted modify app]. auto. }
    destruct Hclosed as [Hst Hem].
    assert (Hflag : isManualRestart (state closed) = true).
    { rewrite Hst.
      destruct (close_same_policy env (set_isManualRestart true instance) w) as (_ & _ & H).
      exact H. }
    destruct (flagged_close env loggedOut update (state closed) (world closed) Hc Hq Hflag)
      as [Hs Hquiet].
    fold signalled in Hs, Hquiet.
    split_and!.
    + rewrite Hs. reflexivity.
    + subst o. rewrite !feed_cons. fold closed. cbn [react]. fold signalled.
      cbn [feed state].
      destruct (initialize_same_policy env (state signalled) (world signalled)) as (_ & _ & H).
      rewrite H, Hs. reflexivity.
    + subst o. rewrite !emitted_feed_cons. fold closed. cbn [react]. fold signalled.
      cbn [feed emitted]. rewrite app_nil_r.
      repeat (apply Forall_app; split).
      * rewrite Hem. apply passes_negb, close_allowed; reflexivity.
      * exact Hquiet.
      * apply passes_negb, initialize_allowed; reflexivity.
Qed.

(** A controller with an open session, registered with its manager. *)
Definition open_instance : Instance :=
  set_sock (Some {| sock_user := Some "6281234567:1@s.whatsapp.net" |}) connected_instance.

Definition one_instance : Manager :=
  {| instances := {[ "6281234567" := open_instance ]}; initialized := true |}.

Lemma manual_restart_witness :
  let o := feed calm 401 [restart_requested; signal (close_signal (Some 428)); run_initialize]
                open_instance dawn in
  let r := restartInstance calm "6281234567" one_instance dawn in
  instances one_instance !! "6281234567" = Some open_instance
  /\ isManualRestart (state o) = false
  /\ Forall (fun e => unprompted e = false) (emitted o)
  /\ Forall (fun e => is_logout e = false) (emitted r)
  /\ (exists rest, emitted (close calm (set_isManualRestart true open_instance) dawn)
                   = WsClose :: rest).
Proof.
  assert (Hfound : instances one_instance !! "6281234567" = Some open_instance)
    by apply lookup_singleton_eq.
  destruct (manual_restart_suppresses_reconnect calm 401 (close_signal (Some 428))
              (set_isManualRestart true open_instance) dawn "6281234567" one_instance
              open_instance) as (_ & Hrestart & Hscene).
  destruct (Hrestart Hfound) as (_ & _ & Hws & _ & _ & Hlogout & _).
  destruct (Hscene eq_refl eq_refl) as (_ & Hflag & Hquiet).
  split_and!;
    [exact Hfound | exact Hflag | exact Hquiet | exact Hlogout
    | apply Hws; eexists; reflexivity].
Defined.

(** ** The payload of the [logged_out] event *)

Section LogoutPayload.

Variable env : Env.
Variable loggedOut : Z.

Lemma triggerWebhooks_posts event data this w url p c :
  HttpPost url p c ∈ emitted (triggerWebhooks env event data this w) ->
  pl_event p = event /\ pl_data p = data.
Proof.
  intros Hin.
  assert (H : emits_only (fun e => forall url p c, e = HttpPost url p c ->
                                   pl_event p = event /\ pl_data p = data)
                         (triggerWebhooks env event data)).
  { apply triggerWebhooks_emits. split; try (intros; discriminate).
    intros url' p' He Hd url'' p'' c'' [= _ <- _]. auto. }
  specialize (H this w). rewrite Forall_forall in H. exact (H _ Hin url p c eq_refl).
Qed.

Lemma on_close_logout_posts update this w url p c :
  HttpPost url p c ∈ emitted (on_close_logout env update this w) ->
  pl_event p = "connection.update"
  /\ pl_data p = ConnectionUpdateData (logout_data update this (now w)).
Proof.
  rewrite on_close_logout_run.
  destruct (fault env (1 + issued w)%nat) as [e|]; cbn [emitted].
  - intros Hin. apply elem_of_cons in Hin as [Hin|Hin];
      [unfold logout_log in Hin; destruct (isManualRestart this); discriminate|].
    apply elem_of_cons in Hin as [Hin|Hin]; [discriminate|]. inversion Hin.
  - intros Hin. apply elem_of_app in Hin as [Hin|Hin].
    + apply elem_of_cons in Hin as [Hin|Hin];
        [unfold logout_log in Hin; destruct (isManualRestart this); discriminate|].
      apply elem_of_cons in Hin as [Hin|Hin]; [discriminate|]. inversion Hin.
    + apply triggerWebhooks_posts in Hin. exact Hin.
Qed.

Lemma closing_posts update this w url p c :
  connection update = Some conn_close -> Js.truthy (qr update) = false ->
  HttpPost url p c ∈ emitted (on_connection_update env loggedOut update this w) ->
  HttpPost url p c ∈ emitted (on_close env loggedOut update this w).
Proof.
  intros Hc Hq. rewrite (closing_run env loggedOut update this w Hc Hq).
  destruct (result (on_close env loggedOut update this w)) as [e|[]] eqn:Hr.
  - rewrite (bind_inl _ _ _ _ _ Hr). auto.
  - rewrite (bind_inr _ _ _ _ _ Hr). cbn [emitted]. intros Hin.
    apply elem_of_app in Hin as [Hin|Hin]; [exact Hin|].
    unfold instanceLog in Hin. rewrite bind_get in Hin. cbn [call emitted] in Hin.
    apply list_elem_of_singleton in Hin. discriminate.
Qed.

(** With the ceiling reached (and no flag) the close block takes the same
    [else] branch. *)
Lemma on_close_exhausted update this w :
  maxReconnectAttempts this <= reconnectAttempts this ->
  on_close env loggedOut update this w = on_close_logout env update this w.
Proof.
  intros Hmax. unfold on_close, bind at 1, get.
  destruct (Z.ltb_spec (reconnectAttempts this) (maxReconnectAttempts this)); [lia|].
  rewrite andb_false_r. cbn [andb].
  destruct (on_close_logout env update this w). reflexivity.
Qed.

End LogoutPayload.

Lemma closing_posts_urls env loggedOut update this w :
  connection update = Some conn_close -> Js.truthy (qr update) = false ->
  isManualRestart this = true ->
  fault env (1 + issued w)%nat = None -> fault env (2 + issued w)%nat = None ->
  (posts (emitted (on_connection_update env loggedOut update this w))).*1
  = wh_url <$> webhooks_of env (2 + issued w)%nat (inst_id (instanceData this))
                           "connection.update".
Proof.
  intros Hc Hq Hflag Hstatus Hquery.
  rewrite (closing_run env loggedOut update this w Hc Hq).
  assert (Hrun := on_close_logout_run env update this w). rewrite Hstatus in Hrun.
  cbv zeta in Hrun.
  rewrite <- (on_close_flagged env loggedOut update this w Hflag) in Hrun.
  erewrite bind_inr by (rewrite Hrun; reflexivity).
  rewrite Hrun. cbn [state world emitted].
  unfold instanceLog at 1. rewrite bind_get. cbn [call emitted].
  rewrite !posts_app.
  assert (Hlog : posts [logout_log this;
                        UpdateStatus (inst_id (instanceData this)) db_inactive] = [])
    by (unfold logout_log; destruct (isManualRestart this); reflexivity).
  rewrite Hlog. cbn [app posts omap list_omap]. rewrite app_nil_r.
  rewrite triggerWebhooks_run. cbn [issued now]. rewrite Hquery.
  cbn [emitted posts omap list_omap instanceData after_logout set_isConnected
       set_connectionStatus].
  replace (instanceData (if isManualRestart this then set_isManualRestart false this else this))
    with (instanceData this) by (destruct (isManualRestart this); reflexivity).
  apply posts_deliveries.
Qed.

(** C10: the [data] of the [logged_out] event says [wasManualRestart:
    false] and "Logged out or max reconnect attempts reached", whatever
    brought the controller there.  Every request emitted for a close
    signal handled with the manual-restart flag set carries exactly that
    [data] (and one is sent to each enabled webhook when the status write
    and the registry query succeed); a closure at the exhausted ceiling
    carries the same [data]: for the same instance, reason and time the two
    payloads are equal. *)
Theorem logged_out_payload_hides_manual_restart (env : Env) (loggedOut : Z)
    (update : ConnectionUpdate) (this exhausted : Instance) (w w' : World) :
  cd_status (logout_data update this (now w)) = logged_out
  /\ cd_wasManualRestart (logout_data update this (now w)) = Some false
  /\ cd_message (logout_data update this (now w))
     = "Logged out or max reconnect attempts reached"
  /\ (connection update = Some conn_close -> Js.truthy (qr update) = false ->
      isManualRestart this = true ->
      (forall url p c,
         HttpPost url p c ∈ emitted (on_connection_update env loggedOut update this w) ->
         pl_event p = "connection.update"
         /\ pl_data p = ConnectionUpdateData (logout_data update this (now w)))
      /\ (fault env (1 + issued w)%nat = None -> fault env (2 + issued w)%nat = None ->
          (posts (emitted (on_connection_update env loggedOut update this w))).*1
          = wh_url <$> webhooks_of env (2 + issued w)%nat (inst_id (instanceData this))
                                   "connection.update"))
  /\ (connection update = Some conn_close -> Js.truthy (qr update) = false ->
      isManualRestart exhausted = false ->
      maxReconnectAttempts exhausted <= reconnectAttempts exhausted ->
      forall url p c,
        HttpPost url p c ∈ emitted (on_connection_update env loggedOut update exhausted w') ->
        pl_event p = "connection.update"
        /\ pl_data p = ConnectionUpdateData (logout_data update exhausted (now w')))
  /\ (instanceData exhausted = instanceData this -> now w' = now w ->
      logout_data update exhausted (now w') = logout_data update this (now w)).
Proof.
  split_and!; try reflexivity.
  - intros Hc Hq Hflag. split.
    + intros url p c Hin. apply (closing_posts env loggedOut update this w url p c Hc Hq) in Hin.
      rewrite (on_close_flagged env loggedOut update this w Hflag) in Hin.
      apply on_close_logout_posts in Hin. exact Hin.
    + intros Hstatus Hquery. apply closing_posts_urls; assumption.
  - intros Hc Hq Hflag Hmax url p c Hin.
    apply (closing_posts env loggedOut update exhausted w' url p c Hc Hq) in Hin.
    rewrite (on_close_exhausted env loggedOut update exhausted w' Hmax) in Hin.
    apply on_close_logout_posts in Hin. exact Hin.
  - intros Hdata Hnow. unfold logout_data. rewrite Hdata, Hnow. reflexivity.
Qed.

(** A scene for the payload: the instance has one enabled webhook. *)
Definition one_hook : Env :=
  with_webhooks [hook_fast] (fun _ _ _ => (Resolved reply_200, 120)) calm.

Lemma logged_out_payload_witness :
  let flagged := set_isManualRestart true open_instance in
  let o := on_connection_update one_hook 401 (close_signal (Some 428)) flagged dawn in
  isManualRestart flagged = true
  /\ (posts (emitted o)).*1 = ["http://fast.test/hook"]
  /\ (forall url p c,
        HttpPost url p c ∈ emitted o ->
        pl_event p = "connection.update"
        /\ pl_data p = ConnectionUpdateData (logout_data (close_signal (Some 428)) flagged 0)).
Proof.
  destruct (logged_out_payload_hides_manual_restart one_hook 401 (close_signal (Some 428))
              (set_isManualRestart true open_instance) open_instance dawn dawn)
    as (_ & _ & _ & Hflagged & _).
  destruct (Hflagged eq_refl eq_refl eq_refl) as [Hposts Hurls].
  split_and!; [reflexivity | exact (Hurls eq_refl eq_refl) | exact Hposts].
Defined.

(** ** Sending while disconnected *)

(** The send attempts and the message records of a run. *)
Definition sends (tr : list Event) : list (string * Outgoing) :=
  omap (fun e => match e with SockSendMessage jid c => Some (jid, c) | _ => None end) tr.

Definition stored (tr : list Event) : list MessageData :=
  omap (fun e => match e with MessageCreate m => Some m | _ => None end) tr.

(** What the [catch] of a send operation makes of the guard's error: the
    error is logged, the instance log is written, and the error is thrown
    again, unless writing the instance log fails first. *)
Definition refusal (env : Env) (logged wrote : string) (this : Instance) (w : World)
    : Outcome Instance SendResult :=
  let e := NotConnected (inst_phone (instanceData this)) in
  mkOutcome (match fault env (1 + issued w)%nat with
             | Some logError => inl logError
             | None => inl e
             end)
            this {| now := now w; issued := (2 + issued w)%nat |}
            [Log error_level logged;
             InstanceLogCreate (inst_id (instanceData this)) error_level
               (wrote +:+ err_message e)].

Section SendFacts.

Variable env : Env.

Lemma sendMessage_refused phoneNumber messageText this w :
  isConnected this = false ->
  sendMessage env phoneNumber messageText this w
  = refusal env ("Error sending message from " +:+ inst_phone (instanceData this) +:+ ":")
            "Error sending message: " this w.
Proof.
  intros Hc. unfold sendMessage, refusal. rewrite bind_get.
  unfold try_catch, bind at 1, require_connected. rewrite bind_get, Hc.
  cbn [negb throw]. unfold bind, logger_error, instanceLog, get, emit, call, throw.
  cbn -[String.append NotConnected].
  destruct (fault env (S (issued w))); reflexivity.
Qed.

Lemma sendGroupMessage_refused groupId messageText this w :
  isConnected this = false ->
  sendGroupMessage env groupId messageText this w
  = refusal env ("Error sending group message from "
                 +:+ inst_phone (instanceData this) +:+ ":")
            "Error sending group message: " this w.
Proof.
  intros Hc. unfold sendGroupMessage, refusal. rewrite bind_get.
  unfold try_catch, bind at 1, require_connected. rewrite bind_get, Hc.
  cbn [negb throw]. unfold bind, logger_error, instanceLog, get, emit, call, throw.
  cbn -[String.append NotConnected].
  destruct (fault env (S (issued w))); reflexivity.
Qed.

Lemma sendMediaMessage_refused phoneNumber mediaData this w :
  isConnected this = false ->
  sendMediaMessage env phoneNumber mediaData this w
  = refusal env ("Error sending media message from "
                 +:+ inst_phone (instanceData this) +:+ ":")
            "Error sending media message: " this w.
Proof.
  intros Hc. unfold sendMediaMessage, refusal. rewrite bind_get.
  unfold try_catch, bind at 1, require_connected. rewrite bind_get, Hc.
  cbn [negb throw]. unfold bind, logger_error, instanceLog, get, emit, call, throw.
  cbn -[String.append NotConnected].
  destruct (fault env (S (issued w))); reflexivity.
Qed.

Lemma refusal_facts logged wrote this w :
  let o := refusal env logged wrote this w in
  (exists e, result o = inl e)
  /\ (fault env (1 + issued w)%nat = None ->
      result o = inl (NotConnected (inst_phone (instanceData this))))
  /\ (forall logError, fault env (1 + issued w)%nat = Some logError ->
      result o = inl logError)
  /\ sends (emitted o) = []
  /\ stored (emitted o) = []
  /\ state o = this.
Proof.
  unfold refusal. cbn [result state emitted].
  destruct (fault env (1 + issued w)%nat) as [logError|];
    split_and!; try reflexivity; try discriminate; eauto.
  intros ? [= <-]. reflexivity.
Qed.

End SendFacts.

(** C8, as the code has it: while [isConnected] is false, [sendMessage],
    [sendGroupMessage] and [sendMediaMessage] raise an error to the caller,
    attempt no send and persist no message record, and leave the
    controller as it was.  The error raised is the not-connected error
    whenever the error entry is written to the instance log; when that
    write fails, its error is the one raised. *)
Theorem send_while_disconnected_is_refused (env : Env) (this : Instance) (w : World)
    (phoneNumber groupId messageText : string) (mediaData : MediaData) :
  isConnected this = false ->
  let refused (o : Outcome Instance SendResult) :=
    (exists e, result o = inl e)
    /\ (fault env (1 + issued w)%nat = None ->
        result o = inl (NotConnected (inst_phone (instanceData this))))
    /\ (forall logError, fault env (1 + issued w)%nat = Some logError ->
        result o = inl logError)
    /\ sends (emitted o) = []
    /\ stored (emitted o) = []
    /\ state o = this in
  refused (sendMessage env phoneNumber messageText this w)
  /\ refused (sendGroupMessage env groupId messageText this w)
  /\ refused (sendMediaMessage env phoneNumber mediaData this w).
Proof.
  intros Hc refused. subst refused. cbv beta.
  rewrite (sendMessage_refused env phoneNumber messageText this w Hc).
  rewrite (sendGroupMessage_refused env groupId messageText this w Hc).
  rewrite (sendMediaMessage_refused env phoneNumber mediaData this w Hc).
  split_and!; apply refusal_facts.
Qed.

(** The instance log cannot be written: its second call of a run fails. *)
Definition log_store_down : Env :=
  with_fault (fun n => if Nat.eqb n 1 then Some (Error "database is down") else None) calm.

Lemma send_refused_witness :
  isConnected (new_WhatsAppInstance scene_data) = false
  /\ result (sendMessage calm "081234567" "halo" (new_WhatsAppInstance scene_data) dawn)
     = inl (NotConnected "6281234567")
  /\ stored (emitted (sendMessage calm "081234567" "halo"
                        (new_WhatsAppInstance scene_data) dawn)) = [].
Proof.
  destruct (send_while_disconnected_is_refused calm (new_WhatsAppInstance scene_data) dawn
              "081234567" "120363@g.us" "halo"
              {| media_type := "image"; media_url := "http://x.test/a.png";
                 media_caption := None; media_filename := None |} eq_refl)
    as ((_ & Hnot & _ & _ & Hstored & _) & _).
  split_and!; [reflexivity | exact (Hnot eq_refl) | exact Hstored].
Defined.

(** C8, as stated, fails: when the instance log cannot be written, the
    caller of [sendMessage] on a disconnected instance receives the log
    store's error, not the not-connected error. *)
Lemma send_refusal_masked_by_log_failure :
  isConnected (new_WhatsAppInstance scene_data) = false
  /\ result (sendMessage log_store_down "081234567" "halo"
               (new_WhatsAppInstance scene_data) dawn)
     = inl (Error "database is down")
  /\ Error "database is down" <> NotConnected "6281234567".
Proof. split_and!; [reflexivity | reflexivity | discriminate]. Qed.

(** ** Inbound messages: order and isolation of the three steps *)

(** The three steps of handling an inbound message. *)
Inductive Stage := persistence | dispatch | delivery.

(** The call that marks a step: the write to the message store, the call
    of a plugin, the query for the webhooks to serve. *)
Definition stage_of (e : Event) : option Stage :=
  match e with
  | MessageCreate _ => Some persistence
  | PluginCall _ _ => Some dispatch
  | GetEnabledWebhooks _ _ => Some delivery
  | _ => None
  end.

Definition stages (tr : list Event) : list Stage := omap stage_of tr.

(** The steps taken for one message by a controller with [n] enabled
    plugins. *)
Definition steps_for (n : nat) (message : Message) : list Stage :=
  if fromMe (key message) then []
  else [persistence] ++ replicate n dispatch ++ [delivery].

(** The record [storeMessage] writes. *)
Definition incoming_record (this : Instance) (socket : Sock) (message : Message)
    : MessageData :=
  {| md_instanceId := inst_id (instanceData this);
     md_direction := incoming;
     md_from := remoteJid (key message);
     md_to := Js.or_else (sock_user socket) (inst_phone (instanceData this));
     md_type := content_type message;
     md_content := content_text message;
     md_messageId := key_id (key message);
     md_pushName := pushName message;
     md_raw := Some message;
     md_isGroup := false;
     md_mediaUrl := None;
     md_filename := None;
     md_status := "received";
     md_sentAt := messageTimestamp message * 1000 |}.

Lemma stages_app tr1 tr2 : stages (tr1 ++ tr2) = stages tr1 ++ stages tr2.
Proof. unfold stages. apply omap_app. Qed.

Section InboundFacts.

Variable env : Env.

Lemma storeMessage_run message this w socket :
  sock this = Some socket ->
  storeMessage env message this w =
  mkOutcome (inr tt) this
    {| now := now w;
       issued := match fault env (issued w) with
                 | Some _ => (2 + issued w)%nat
                 | None => (1 + issued w)%nat
                 end |}
    (MessageCreate (incoming_record this socket message)
     :: match fault env (issued w) with
        | Some e => [Log error_level ("Error storing message for "
                                      +:+ inst_phone (instanceData this) +:+ ": "
                                      +:+ err_message e)]
        | None => []
        end).
Proof.
  intros Hs. unfold storeMessage. rewrite bind_get, Hs.
  unfold try_catch, call, logger_error, emit, incoming_record.
  destruct (fault env (issued w)); reflexivity.
Qed.

Lemma set_pluginManager_same this : set_pluginManager (pluginManager this) this = this.
Proof. destruct this; reflexivity. Qed.

Lemma dispatch_plugins_run message this w :
  configs_cover (pluginManager this) = true ->
  result (dispatch_plugins message this w) = inr tt
  /\ state (dispatch_plugins message this w) = this
  /\ now (world (dispatch_plugins message this w)) = now w
  /\ emitted (dispatch_plugins message this w)
     = map (invocation (sock this) message (pluginManager this))
           (enabled_plugins (pluginManager this))
       ++ omap (rejection_log (sock this) message (pluginManager this))
               (enabled_plugins (pluginManager this)).
Proof.
  intros Hcover. unfold dispatch_plugins. rewrite bind_get. unfold within.
  destruct (executePlugins_run (sock this) message (pluginManager this) w Hcover)
    as (Hr & Hs & Hn & He).
  destruct (executePlugins (sock this) message (pluginManager this) w) as [r s1 w1 c1].
  cbn [result state world emitted] in *. subst.
  rewrite set_pluginManager_same. auto.
Qed.

Lemma stages_dispatch message this w :
  configs_cover (pluginManager this) = true ->
  stages (emitted (dispatch_plugins message this w))
  = replicate (length (enabled_plugins (pluginManager this))) dispatch.
Proof.
  intros Hcover. destruct (dispatch_plugins_run message this w Hcover) as (_ & _ & _ & ->).
  rewrite stages_app.
  generalize (enabled_plugins (pluginManager this)). intros l.
  assert (Hlogs : stages (omap (rejection_log (sock this) message (pluginManager this)) l) = []).
  { induction l as [|x l IH]; [reflexivity|].
    change (omap ?f (?y :: ?r))
      with (match f y with Some z => z :: omap f r | None => omap f r end).
    destruct (rejection_log (sock this) message (pluginManager this) x) as [z|] eqn:Hz;
      [|exact IH].
    unfold rejection_log in Hz.
    destruct (promise_of (sock this) message (pluginManager this) x); [discriminate|].
    injection Hz as <-. exact IH. }
  rewrite Hlogs, app_nil_r. clear Hlogs.
  induction l as [|x l IH]; [reflexivity|]. cbn [map length replicate].
  change (stages (?e :: ?r)) with (match stage_of e with
                                   | Some z => z :: stages r
                                   | None => stages r
                                   end).
  cbn [stage_of invocation]. rewrite IH. reflexivity.
Qed.

Lemma stages_deliver event data webhook this w :
  stages (emitted (deliver env event data webhook this w)) = [].
Proof.
  rewrite deliver_run. cbn [emitted].
  destruct (post_result env (issued w) (wh_url webhook) 5000) as [[r|e] ms];
    destruct (fault env (3 + issued w)%nat); reflexivity.
Qed.

Lemma stages_deliveries event data webhooks this w :
  stages (emitted (for_of webhooks (deliver env event data) this w)) = [].
Proof.
  revert w. induction webhooks as [|webhook rest IH]; intros w; [reflexivity|].
  simpl for_of.
  destruct (deliver_succeeds env event data webhook this w) as [[] Hd].
  rewrite (bind_inr _ _ _ _ _ Hd). cbn [emitted].
  rewrite stages_app, stages_deliver.
  rewrite <- (deliver_keeps env event data webhook this w), IH. reflexivity.
Qed.

Lemma stages_triggerWebhooks event data this w :
  stages (emitted (triggerWebhooks env event data this w)) = [delivery].
Proof.
  rewrite triggerWebhooks_run. destruct (fault env (issued w)); [reflexivity|].
  cbn [emitted]. change (stages (?e :: ?r)) with (match stage_of e with
                                                | Some z => z :: stages r
                                                | None => stages r
                                                end).
  cbn [stage_of]. rewrite stages_deliveries. reflexivity.
Qed.

End InboundFacts.

Section InboundTheorem.

Variable env : Env.

Lemma process_message_run message this w socket :
  fromMe (key message) = false -> sock this = Some socket ->
  configs_cover (pluginManager this) = true ->
  let s := storeMessage env message this {| now := now w; issued := S (issued w) |} in
  let d := dispatch_plugins message this (world s) in
  let t := triggerWebhooks env "message.received"
             (MessageReceivedData message (instanceData this)) this (world d) in
  process_message env message this w =
  mkOutcome (inr tt) this (world t)
    (Log info ("Processing message from " +:+ Js.or_else (pushName message) "Unknown"
               +:+ " for instance " +:+ inst_phone (instanceData this))
     :: emitted s ++ emitted d ++ emitted t).
Proof.
  intros Hme Hsock Hcover s d t.
  unfold process_message. rewrite bind_get, Hme.
  assert (Hs : exists ws cs, s = mkOutcome (inr tt) this ws cs)
    by (subst s; rewrite (storeMessage_run env message this _ socket Hsock); eauto).
  destruct Hs as (ws & cs & Hs).
  assert (Hd : exists wd cd, d = mkOutcome (inr tt) this wd cd).
  { destruct (dispatch_plugins_run message this (world s) Hcover) as (Hdr & Hds & _ & _).
    fold d in Hdr, Hds. destruct d as [rd sd wd cd]. cbn [result state] in *. subst. eauto. }
  destruct Hd as (wd & cd & Hd).
  destruct (triggerWebhooks_outcome env "message.received"
              (MessageReceivedData message (instanceData this)) this (world d))
    as (wt & ct & Ht).
  fold t in Ht.
  unfold try_catch, bind, logger_info, emit. cbn [negb].
  fold s. rewrite Hs. cbn [world] in d. 
  assert (Hd' : dispatch_plugins message this ws = mkOutcome (inr tt) this wd cd)
    by (rewrite <- Hd; subst d; rewrite Hs; reflexivity).
  rewrite Hd'.
  assert (Ht' : triggerWebhooks env "message.received"
                  (MessageReceivedData message (instanceData this)) this wd
                = mkOutcome (inr tt) this wt ct)
    by (rewrite <- Ht; subst t; rewrite Hd; reflexivity).
  rewrite Ht'. rewrite Ht, Hd. cbn [world emitted app]. reflexivity.
Qed.

Lemma process_message_self message this w :
  fromMe (key message) = true ->
  process_message env message this w = mkOutcome (inr tt) this w [].
Proof. intros Hme. unfold process_message. rewrite bind_get, Hme. reflexivity. Qed.

Lemma process_message_stages message this w socket :
  sock this = Some socket -> configs_cover (pluginManager this) = true ->
  result (process_message env message this w) = inr tt
  /\ state (process_message env message this w) = this
  /\ stages (emitted (process_message env message this w))
     = steps_for (length (enabled_plugins (pluginManager this))) message.
Proof.
  intros Hsock Hcover. unfold steps_for.
  destruct (fromMe (key message)) eqn:Hme.
  - rewrite (process_message_self message this w Hme). auto.
  - rewrite (process_message_run message this w socket Hme Hsock Hcover).
    cbn [result state emitted]. split_and!; try reflexivity.
    change (stages (?e :: ?r)) with (match stage_of e with
                                     | Some z => z :: stages r
                                     | None => stages r
                                     end).
    cbn [stage_of]. rewrite !stages_app.
    rewrite (stages_dispatch message this _ Hcover), stages_triggerWebhooks.
    rewrite (storeMessage_run env message this _ socket Hsock). cbn [emitted].
    change (stages (?e :: ?r)) with (match stage_of e with
                                     | Some z => z :: stages r
                                     | None => stages r
                                     end).
    cbn [stage_of]. destruct (fault env _); reflexivity.
Qed.


End InboundTheorem.


(** A controller with an open session and the plugins of [plugin_dir]. *)
Definition busy_instance : Instance := set_pluginManager loaded_manager open_instance.

(** An environment in which every call that can fail does. *)
Definition everything_fails : Env :=
  with_fault (fun _ => Some (Error "down")) two_hooks.

Definition own_message : Message :=
  {| key := {| remoteJid := "628111@s.whatsapp.net"; fromMe := true; key_id := "M2" |};
     pushName := None; messageTimestamp := 1700000001;
     message := Some (conversation "sent by me") |}.


(** ** The welcome batch notifier *)

Module WelcomeFacts.

Import Welcome.

Definition count {A} (f : A -> bool) (l : list A) : nat := length (List.filter f l).

(** The timers outstanding for a group, and the flushes of it that have
    started and not ended. *)
Definition timers_for (g : string) (s : State) : nat := count (String.eqb g) (timers s).

Definition flushes_for (g : string) (s : State) : nat :=
  count (fun p => String.eqb g p.1) (flushing s).

Definition is_scheduled (g : string) (s : State) : bool :=
  scheduled (pending_of (groupParticipants s) g).

Definition pending_items (g : string) (s : State) : list Participant :=
  items (pending_of (groupParticipants s) g).

(** The [scheduled] flag of a group is set exactly while one timer or one
    flush of it is under way, and nothing is pending without the flag. *)
Definition consistent (s : State) : Prop :=
  forall g,
    (timers_for g s + flushes_for g s)%nat = (if is_scheduled g s then 1%nat else 0%nat)
    /\ (is_scheduled g s = false -> pending_items g s = []).

(** The steps of a window. *)
Definition fires (g : string) (st : Step) : bool :=
  match st with fire g' => String.eqb g g' | _ => false end.

Definition accumulates (g : string) (st : Step) : bool :=
  match st with accumulate g' _ => String.eqb g g' | _ => false end.

Definition batch_of (g : string) (st : Step) : list Participant :=
  match st with
  | accumulate g' participants => if String.eqb g g' then participants else []
  | _ => []
  end.

(** Everything accumulated for a group by the steps, in arrival order. *)
Definition batches_for (g : string) (window : list Step) : list Participant :=
  flat_map (batch_of g) window.

(** The steps that end a flush of a group: the three ways out of the
    metadata check without sending, and the two outcomes of the send. *)
Definition ends_flush (g : string) (st : Step) : bool :=
  match st with
  | metadata_arrives g' (metadata_error _) => String.eqb g g'
  | metadata_arrives g' (metadata _ None) => String.eqb g g'
  | metadata_arrives g' (metadata members (Some botJid)) =>
      String.eqb g g' && negb (isAdmin members botJid)
  | send_settles g' _ => String.eqb g g'
  | _ => false
  end.

Lemma count_app {A} (f : A -> bool) l1 l2 :
  count f (l1 ++ l2) = (count f l1 + count f l2)%nat.
Proof. unfold count. rewrite List.filter_app, length_app. reflexivity. Qed.

Lemma count_cons {A} (f : A -> bool) x l :
  count f (x :: l) = ((if f x then 1 else 0) + count f l)%nat.
Proof. unfold count. simpl. destruct (f x); reflexivity. Qed.

Lemma count_remove_one {A} `{EqDecision A} (f : A -> bool) (x : A) l :
  x ∈ l -> count f l = (count f (remove_one x l) + (if f x then 1 else 0))%nat.
Proof.
  induction l as [|y l IH]; intros Hin; [inversion Hin|].
  simpl remove_one. destruct (decide (x = y)) as [->|Hne].
  - rewrite count_cons. lia.
  - rewrite !count_cons. rewrite IH; [lia|].
    apply elem_of_cons in Hin as [Hin|Hin]; [contradiction|exact Hin].
Qed.

Lemma count_remove_one_other {A} `{EqDecision A} (f : A -> bool) (x : A) l :
  f x = false -> count f (remove_one x l) = count f l.
Proof.
  intros Hx. induction l as [|y l IH]; [reflexivity|].
  simpl remove_one. destruct (decide (x = y)) as [<-|Hne].
  - rewrite count_cons, Hx. reflexivity.
  - rewrite !count_cons, IH. reflexivity.
Qed.

Lemma pending_of_insert g e gp : pending_of (<[g := e]> gp) g = e.
Proof. unfold pending_of. rewrite lookup_insert_eq. reflexivity. Qed.

Lemma pending_of_insert_ne g g' e gp :
  g <> g' -> pending_of (<[g' := e]> gp) g = pending_of gp g.
Proof. intros Hne. unfold pending_of. rewrite lookup_insert_ne by congruence. reflexivity. Qed.

Lemma eqb_false g g' : g <> g' -> String.eqb g g' = false.
Proof. intros Hne. destruct (String.eqb_spec g g'); congruence. Qed.

(** *** The end of a flush *)

Lemma finish_other g g' phase log s :
  g <> g' ->
  timers_for g (finish g' phase log s) = timers_for g s
  /\ flushes_for g (finish g' phase log s) = flushes_for g s
  /\ pending_of (groupParticipants (finish g' phase log s)) g
     = pending_of (groupParticipants s) g.
Proof.
  intros Hne. unfold timers_for, flushes_for, finish. cbn [timers flushing groupParticipants].
  split_and!; [reflexivity| |apply pending_of_insert_ne; assumption].
  apply count_remove_one_other. cbn [fst]. apply eqb_false. assumption.
Qed.

Lemma finish_clears g phase log s :
  consistent s -> (g, phase) ∈ flushing s ->
  pending_of (groupParticipants (finish g phase log s)) g = fresh
  /\ timers_for g (finish g phase log s) = 0%nat
  /\ flushes_for g (finish g phase log s) = 0%nat.
Proof.
  intros Hs Hin. destruct (Hs g) as [Hsum _].
  pose proof (count_remove_one (fun p : string * Phase => String.eqb g p.1) (g, phase) _ Hin)
    as Hcount.
  cbn [fst] in Hcount. rewrite String.eqb_refl in Hcount.
  unfold timers_for, flushes_for, finish in *. cbn [timers flushing groupParticipants].
  split_and!; [apply pending_of_insert| |];
    destruct (is_scheduled g s); lia.
Qed.

Lemma finish_consistent g phase log s :
  consistent s -> (g, phase) ∈ flushing s -> consistent (finish g phase log s).
Proof.
  intros Hs Hin g0. destruct (decide (g0 = g)) as [->|Hne].
  - destruct (finish_clears g phase log s Hs Hin) as (Hp & Ht & Hf).
    unfold is_scheduled, pending_items. rewrite Hp, Ht, Hf. split; reflexivity.
  - destruct (finish_other g0 g phase log s Hne) as (Ht & Hf & Hp).
    unfold is_scheduled, pending_items. rewrite Hp, Ht, Hf. apply Hs.
Qed.

(** *** One step *)

Lemma scheduleWelcome_same g participants s :
  timers_for g (scheduleWelcome g participants s)
  = (timers_for g s + (if is_scheduled g s then 0 else 1))%nat
  /\ flushes_for g (scheduleWelcome g participants s) = flushes_for g s
  /\ pending_of (groupParticipants (scheduleWelcome g participants s)) g
     = {| items := pending_items g s ++ participants; scheduled := true |}.
Proof.
  unfold scheduleWelcome, timers_for, flushes_for, is_scheduled, pending_items.
  destruct (scheduled (pending_of (groupParticipants s) g)) eqn:Hsch;
    cbn [negb timers flushing groupParticipants].
  - rewrite pending_of_insert. split_and!; [lia | reflexivity | reflexivity].
  - rewrite pending_of_insert, count_app, count_cons, String.eqb_refl.
    split_and!; reflexivity.
Qed.

Lemma scheduleWelcome_other g g' participants s :
  g <> g' ->
  timers_for g (scheduleWelcome g' participants s) = timers_for g s
  /\ flushes_for g (scheduleWelcome g' participants s) = flushes_for g s
  /\ pending_of (groupParticipants (scheduleWelcome g' participants s)) g
     = pending_of (groupParticipants s) g.
Proof.
  intros Hne. unfold scheduleWelcome, timers_for, flushes_for.
  destruct (scheduled (pending_of (groupParticipants s) g'));
    cbn [negb timers flushing groupParticipants];
    rewrite pending_of_insert_ne by assumption.
  - split_and!; reflexivity.
  - rewrite count_app, count_cons, (eqb_false g g' Hne). split_and!; try reflexivity.
    unfold count. simpl. lia.
Qed.

Lemma step_consistent st s s' :
  consistent s -> step st s = Some s' -> consistent s'.
Proof.
  intros Hs Hstep. destruct st as [g' ps|g'|g' reply|g' reply]; simpl in Hstep.
  - (* scheduleWelcome *)
    injection Hstep as <-. intros g. destruct (decide (g = g')) as [->|Hne].
    + destruct (scheduleWelcome_same g' ps s) as (Ht & Hf & Hp).
      destruct (Hs g') as [Hsum _].
      unfold is_scheduled at 1 2, pending_items. rewrite Hp, Ht, Hf. cbn [scheduled].
      split; [|discriminate]. destruct (is_scheduled g' s); lia.
    + destruct (scheduleWelcome_other g g' ps s Hne) as (Ht & Hf & Hp).
      unfold is_scheduled, pending_items. rewrite Hp, Ht, Hf. apply Hs.
  - (* a timer fires *)
    destruct (bool_decide_reflect (g' ∈ timers s)) as [Hin|]; [|discriminate].
    injection Hstep as <-. intros g.
    unfold timers_for, flushes_for, is_scheduled, pending_items.
    cbn [timers flushing groupParticipants].
    destruct (Hs g) as [Hsum Hitems]. unfold timers_for, flushes_for, is_scheduled in Hsum.
    rewrite count_app, count_cons. cbn [fst]. split; [|exact Hitems].
    destruct (decide (g = g')) as [->|Hne].
    + rewrite (count_remove_one (String.eqb g') g' _ Hin) in Hsum.
      rewrite String.eqb_refl in *. unfold count at 3. simpl. lia.
    + rewrite (count_remove_one_other (String.eqb g) g') by (apply eqb_false; assumption).
      rewrite (eqb_false g g' Hne). unfold count at 3. simpl. lia.
  - (* the group metadata arrives *)
    destruct (bool_decide_reflect ((g', awaiting_metadata) ∈ flushing s)) as [Hin|];
      [|discriminate].
    destruct reply as [members [botJid|]|e].
    + destruct (isAdmin members botJid); cbn [negb] in Hstep; injection Hstep as <-.
      * intros g. unfold timers_for, flushes_for, is_scheduled, pending_items.
        cbn [timers flushing groupParticipants].
        destruct (Hs g) as [Hsum Hitems]. unfold timers_for, flushes_for, is_scheduled in Hsum.
        split; [|exact Hitems]. rewrite count_cons. cbn [fst].
        destruct (decide (g = g')) as [->|Hne].
        -- rewrite (count_remove_one (fun p : string * Phase => String.eqb g' p.1)
                      (g', awaiting_metadata) _ Hin) in Hsum.
           cbn [fst] in Hsum. rewrite String.eqb_refl in *. lia.
        -- rewrite (count_remove_one_other (fun p : string * Phase => String.eqb g p.1)
                      (g', awaiting_metadata))
             by (apply eqb_false; assumption).
           rewrite (eqb_false g g' Hne). lia.
      * apply finish_consistent; assumption.
    + injection Hstep as <-. apply finish_consistent; assumption.
    + injection Hstep as <-. apply finish_consistent; assumption.
  - (* the send settles *)
    destruct (bool_decide_reflect ((g', awaiting_send) ∈ flushing s)) as [Hin|];
      [|discriminate].
    destruct reply; injection Hstep as <-; apply finish_consistent; assumption.
Qed.

Lemma initial_consistent : consistent initial.
Proof. intros g. split; reflexivity. Qed.

Lemma run_consistent steps s s' :
  consistent s -> run steps s = Some s' -> consistent s'.
Proof.
  revert s. induction steps as [|st rest IH]; intros s Hs Hrun; simpl in Hrun.
  - injection Hrun as <-. exact Hs.
  - destruct (step st s) as [s1|] eqn:Hstep; [|discriminate].
    apply (IH s1); [eapply step_consistent; eassumption | exact Hrun].
Qed.

(** *** A window: steps among which the timer of [g] does not fire *)

Lemma not_flushing g phase s :
  flushes_for g s = 0%nat -> (g, phase) ∈ flushing s -> False.
Proof.
  intros Hzero Hin. unfold flushes_for in Hzero.
  rewrite (count_remove_one (fun p : string * Phase => String.eqb g p.1) (g, phase) _ Hin)
    in Hzero.
  cbn [fst] in Hzero. rewrite String.eqb_refl in Hzero. lia.
Qed.

Lemma window_step g st s s' :
  flushes_for g s = 0%nat -> fires g st = false -> step st s = Some s' ->
  flushes_for g s' = 0%nat
  /\ pending_items g s' = pending_items g s ++ batch_of g st
  /\ is_scheduled g s' = is_scheduled g s || accumulates g st.
Proof.
  intros Hzero Hfire Hstep.
  assert (Hfinish : forall g' phase log,
            (g', phase) ∈ flushing s ->
            flushes_for g (finish g' phase log s) = 0%nat
            /\ pending_items g (finish g' phase log s) = pending_items g s ++ []
            /\ is_scheduled g (finish g' phase log s) = is_scheduled g s || false).
  { intros g' phase log Hin. destruct (decide (g = g')) as [->|Hne].
    - destruct (not_flushing g' phase s Hzero Hin).
    - destruct (finish_other g g' phase log s Hne) as (_ & Hf & Hp).
      unfold pending_items, is_scheduled. rewrite Hp, Hf, app_nil_r, orb_false_r. auto. }
  destruct st as [g' ps|g'|g' reply|g' reply]; simpl in Hstep, Hfire |- *.
  - injection Hstep as <-. destruct (String.eqb_spec g g') as [->|Hne].
    + destruct (scheduleWelcome_same g' ps s) as (_ & Hf & Hp).
      unfold pending_items at 1, is_scheduled at 1. rewrite Hp, Hf, orb_true_r. auto.
    + destruct (scheduleWelcome_other g g' ps s Hne) as (_ & Hf & Hp).
      unfold pending_items, is_scheduled. rewrite Hp, Hf, app_nil_r, orb_false_r. auto.
  - destruct (bool_decide (g' ∈ timers s)); [|discriminate]. injection Hstep as <-.
    unfold flushes_for, pending_items, is_scheduled in *.
    cbn [flushing groupParticipants]. rewrite count_app, count_cons. cbn [fst].
    rewrite Hfire, Hzero, app_nil_r, orb_false_r. auto.
  - destruct (bool_decide_reflect ((g', awaiting_metadata) ∈ flushing s)) as [Hin|];
      [|discriminate].
    destruct reply as [members [botJid|]|e];
      [destruct (isAdmin members botJid); cbn [negb] in Hstep| |];
      injection Hstep as <-; try (apply Hfinish; assumption).
    destruct (decide (g = g')) as [->|Hne];
      [destruct (not_flushing g' awaiting_metadata s Hzero Hin)|].
    unfold flushes_for, pending_items, is_scheduled in *.
    cbn [flushing groupParticipants]. rewrite count_cons. cbn [fst].
    rewrite (eqb_false g g' Hne).
    rewrite (count_remove_one_other (fun p : string * Phase => String.eqb g p.1)
               (g', awaiting_metadata)) by (apply eqb_false; assumption).
    rewrite Hzero, app_nil_r, orb_false_r. auto.
  - destruct (bool_decide_reflect ((g', awaiting_send) ∈ flushing s)) as [Hin|];
      [|discriminate].
    destruct reply; injection Hstep as <-; apply Hfinish; assumption.
Qed.

Lemma window_run g window s s' :
  flushes_for g s = 0%nat -> forallb (fun st => negb (fires g st)) window = true ->
  run window s = Some s' ->
  flushes_for g s' = 0%nat
  /\ pending_items g s' = pending_items g s ++ batches_for g window
  /\ is_scheduled g s' = is_scheduled g s || existsb (accumulates g) window.
Proof.
  revert s. induction window as [|st rest IH]; intros s Hzero Hquiet Hrun; simpl in Hrun.
  - injection Hrun as <-. simpl. rewrite app_nil_r, orb_false_r. auto.
  - destruct (step st s) as [s1|] eqn:Hstep; [|discriminate].
    simpl in Hquiet. apply andb_prop in Hquiet as [Hst Hrest].
    apply negb_true_iff in Hst.
    destruct (window_step g st s s1 Hzero Hst Hstep) as (Hz1 & Hp1 & Hs1).
    destruct (IH s1 Hz1 Hrest Hrun) as (Hz' & Hp' & Hs').
    split_and!; [exact Hz'| |].
    + rewrite Hp', Hp1, <- app_assoc. reflexivity.
    + rewrite Hs', Hs1, <- orb_assoc. reflexivity.
Qed.

(** *** The flush of a window *)

Lemma timer_present g s : timers_for g s = 1%nat -> g ∈ timers s.
Proof.
  unfold timers_for, count. intros H.
  induction (timers s) as [|x l IH]; [discriminate|].
  simpl in H. destruct (String.eqb_spec g x) as [->|Hne].
  - apply list_elem_of_here.
  - apply list_elem_of_further, IH, H.
Qed.

Lemma flush_sends g members botJid s :
  g ∈ timers s -> isAdmin members botJid = true ->
  exists s2,
    run [fire g; metadata_arrives g (metadata members (Some botJid))] s = Some s2
    /\ calls s2
       = calls s
         ++ [GroupMetadata g;
             SockSendMessage g (WelcomeMessage (formattedWelcomeText (pending_items g s))
                                               (map p_id (pending_items g s)))].
Proof.
  intros Hin Hadmin. simpl.
  rewrite bool_decide_eq_true_2 by assumption.
  rewrite bool_decide_eq_true_2 by (cbn [flushing]; set_solver).
  rewrite Hadmin. cbn [negb]. eexists. split; [reflexivity|].
  cbn [calls groupParticipants]. rewrite <- app_assoc. reflexivity.
Qed.

(** C6: in every state the event loop can reach, a group has at most one
    flush timer outstanding, and never a timer together with a running
    flush.  Starting where nothing is scheduled for a group, a window of
    steps in which its timer does not fire leaves exactly one timer for it
    when it contains at least one accumulation (and none otherwise), and
    the pending sequence is everything accumulated, in arrival order; when
    that timer fires and the bot is found to be an administrator, the
    message sent mentions exactly that sequence.  Every way a flush can
    end (error of the metadata call, bot not administrator, send done, send
    failed) leaves a fresh, unscheduled entry with no timer and no flush
    for the group, from where the next accumulation starts a batch of its
    own with a timer of its own. *)
Theorem welcome_batches_flush_once (steps : list Step) (s : State) :
  run steps initial = Some s ->
  (forall g, (timers_for g s + flushes_for g s <= 1)%nat)
  /\ (forall g window s',
        is_scheduled g s = false ->
        forallb (fun st => negb (fires g st)) window = true ->
        run window s = Some s' ->
        pending_items g s' = batches_for g window
        /\ timers_for g s' = (if existsb (accumulates g) window then 1%nat else 0%nat)
        /\ flushes_for g s' = 0%nat
        /\ (existsb (accumulates g) window = true ->
            forall members botJid,
              isAdmin members botJid = true ->
              exists s2,
                run [fire g; metadata_arrives g (metadata members (Some botJid))] s' = Some s2
                /\ calls s2
                   = calls s'
                     ++ [GroupMetadata g;
                         SockSendMessage g
                           (WelcomeMessage (formattedWelcomeText (batches_for g window))
                                           (map p_id (batches_for g window)))]))
  /\ (forall g st s',
        ends_flush g st = true -> step st s = Some s' ->
        pending_of (groupParticipants s') g = fresh
        /\ timers_for g s' = 0%nat /\ flushes_for g s' = 0%nat
        /\ forall participants,
             pending_items g (scheduleWelcome g participants s') = participants
             /\ timers_for g (scheduleWelcome g participants s') = 1%nat).
Proof.
  intros Hrun.
  assert (Hs : consistent s) by (eapply run_consistent; [apply initial_consistent | exact Hrun]).
  split_and!.
  - intros g. destruct (Hs g) as [Hsum _]. destruct (is_scheduled g s); lia.
  - intros g window s' Hidle Hquiet Hwindow.
    destruct (Hs g) as [Hsum Hitems]. rewrite Hidle in Hsum.
    assert (Hzero : flushes_for g s = 0%nat) by lia.
    destruct (window_run g window s s' Hzero Hquiet Hwindow) as (Hz' & Hp' & Hs').
    rewrite (Hitems Hidle) in Hp'. simpl in Hp'. rewrite Hidle in Hs'. simpl in Hs'.
    assert (Hc' : consistent s') by (eapply run_consistent; eassumption).
    destruct (Hc' g) as [Hsum' _]. rewrite Hs', Hz' in Hsum'.
    assert (Ht' : timers_for g s'
                  = if existsb (accumulates g) window then 1%nat else 0%nat) by lia.
    split_and!; [exact Hp' | exact Ht' | exact Hz' |].
    intros Hacc members botJid Hadmin. rewrite Hacc in Ht'.
    destruct (flush_sends g members botJid s' (timer_present g s' Ht') Hadmin)
      as (s2 & Hrun2 & Hcalls).
    exists s2. rewrite Hp' in Hcalls. auto.
  - intros g st s' Hend Hstep.
    assert (Hfin : exists phase log, (g, phase) ∈ flushing s /\ s' = finish g phase log s).
    { destruct st as [g' ps|g'|g' reply|g' reply]; simpl in Hend; try discriminate.
      - simpl in Hstep.
        destruct (bool_decide_reflect ((g', awaiting_metadata) ∈ flushing s)) as [Hin|];
          [|discriminate].
        destruct reply as [members [botJid|]|e].
        + apply andb_prop in Hend as [Hg Hadmin]. apply String.eqb_eq in Hg as ->.
          rewrite Hadmin in Hstep. injection Hstep as <-. eauto.
        + apply String.eqb_eq in Hend as ->. injection Hstep as <-. eauto.
        + apply String.eqb_eq in Hend as ->. injection Hstep as <-. eauto.
      - simpl in Hstep. apply String.eqb_eq in Hend as ->.
        destruct (bool_decide_reflect ((g', awaiting_send) ∈ flushing s)) as [Hin|];
          [|discriminate].
        destruct reply; injection Hstep as <-; eauto. }
    destruct Hfin as (phase & log & Hin & ->).
    destruct (finish_clears g phase log s Hs Hin) as (Hp & Ht & Hf).
    split_and!; [exact Hp | exact Ht | exact Hf |].
    intros participants.
    destruct (scheduleWelcome_same g participants (finish g phase log s)) as (Ht1 & _ & Hp1).
    unfold pending_items at 1. rewrite Hp1. unfold pending_items, is_scheduled in *.
    rewrite Hp in *. cbn [items scheduled app fresh] in *. split; [reflexivity | lia].
Qed.

(** A scene: a first batch for group G is dropped because the bot is no
    administrator; then three accumulations for G arrive in one window,
    with one for another group in between. *)
Definition joined (id : string) (at_ : Z) : Participant :=
  {| p_id := id; p_joinedAt := at_ |}.

Definition dropped_batch : list Step :=
  [accumulate "G@g.us" [joined "a@s.whatsapp.net" 1];
   fire "G@g.us";
   metadata_arrives "G@g.us"
     (metadata [{| member_id := "bot@s.whatsapp.net"; member_admin := None |}]
               (Some "bot@s.whatsapp.net"))].

Definition burst : list Step :=
  [accumulate "G@g.us" [joined "b@s.whatsapp.net" 2];
   accumulate "H@g.us" [joined "x@s.whatsapp.net" 3];
   accumulate "G@g.us" [joined "c@s.whatsapp.net" 4; joined "d@s.whatsapp.net" 5];
   accumulate "G@g.us" [joined "e@s.whatsapp.net" 6]].

Definition after_drop : State := default initial (run dropped_batch initial).
Definition after_burst : State := default initial (run burst after_drop).

Lemma welcome_batches_witness :
  run dropped_batch initial = Some after_drop
  /\ run burst after_drop = Some after_burst
  /\ is_scheduled "G@g.us" after_drop = false
  /\ timers_for "G@g.us" after_burst = 1%nat
  /\ map p_id (pending_items "G@g.us" after_burst)
     = ["b@s.whatsapp.net"; "c@s.whatsapp.net"; "d@s.whatsapp.net"; "e@s.whatsapp.net"].
Proof.
  assert (Hdrop : run dropped_batch initial = Some after_drop) by (vm_compute; reflexivity).
  assert (Hburst : run burst after_drop = Some after_burst) by (vm_compute; reflexivity).
  assert (Hidle : is_scheduled "G@g.us" after_drop = false) by (vm_compute; reflexivity).
  destruct (welcome_batches_flush_once dropped_batch after_drop Hdrop) as (_ & Hwindow & _).
  destruct (Hwindow "G@g.us" burst after_burst Hidle eq_refl Hburst) as (Hitems & Htimers & _).
  split_and!; [exact Hdrop | exact Hburst | exact Hidle | exact Htimers |].
  rewrite Hitems. reflexivity.
Defined.

End WelcomeFacts.

(** * Further properties *)

(** ** Maps in insertion order *)

Lemma map_get_set_eq {V} k (v : V) m : map_get k (map_set k v m) = Some v.
Proof.
  induction m as [|[k' v'] rest IH]; simpl.
  - rewrite String.eqb_refl. reflexivity.
  - destruct (String.eqb k k') eqn:Hk; simpl.
    + rewrite String.eqb_refl. reflexivity.
    + rewrite Hk. exact IH.
Qed.

Lemma map_get_set_ne {V} k k' (v : V) m :
  k <> k' -> map_get k' (map_set k v m) = map_get k' m.
Proof.
  intros Hne. induction m as [|[k0 v0] rest IH]; simpl.
  - destruct (String.eqb_spec k' k); [congruence | reflexivity].
  - destruct (String.eqb_spec k k0) as [->|Hk]; simpl.
    + destruct (String.eqb_spec k' k0); [congruence | reflexivity].
    + destruct (String.eqb k' k0); [reflexivity | exact IH].
Qed.

Lemma map_has_set {V} k k' (v : V) m :
  map_has k' (map_set k v m) = String.eqb k' k || map_has k' m.
Proof.
  unfold map_has. destruct (String.eqb_spec k' k) as [->|Hne].
  - rewrite map_get_set_eq. reflexivity.
  - rewrite map_get_set_ne by congruence. reflexivity.
Qed.

Lemma map_has_keys {V} k (m : list (string * V)) : map_has k m = true <-> k ∈ m.*1.
Proof.
  unfold map_has. induction m as [|[k' v'] rest IH]; simpl.
  - split; [discriminate | intros H; inversion H].
  - destruct (String.eqb_spec k k') as [->|Hne].
    + split; [intros _; left | reflexivity].
    + rewrite IH. split; [intros H; right; exact H|].
      intros H. apply elem_of_cons in H as [H|H]; [congruence | exact H].
Qed.

Lemma keys_map_set {V} k (v : V) m k' :
  k' ∈ (map_set k v m).*1 <-> k' = k \/ k' ∈ m.*1.
Proof.
  rewrite <- !map_has_keys, map_has_set, orb_true_iff.
  destruct (String.eqb_spec k' k); intuition congruence.
Qed.

Lemma NoDup_map_set {V} k (v : V) m : NoDup m.*1 -> NoDup (map_set k v m).*1.
Proof.
  induction m as [|[k' v'] rest IH]; simpl; intros Hnd.
  - apply NoDup_singleton.
  - apply NoDup_cons in Hnd as [Hk' Hrest].
    destruct (String.eqb_spec k k') as [->|Hne]; simpl.
    + apply NoDup_cons. split; assumption.
    + apply NoDup_cons. split; [|auto].
      rewrite keys_map_set. intros [?|?]; [congruence | contradiction].
Qed.

(** ** Loading the plugins *)












(** The registry as a pair of maps: every name occurs once in each, and
    every registered plugin has a configuration entry. *)
Definition well_formed (pm : PluginManager) : Prop :=
  NoDup (plugins pm).*1 /\ NoDup (pluginConfigs pm).*1 /\ configs_cover pm = true.

Lemma configs_cover_spec pm :
  configs_cover pm = true
  <-> forall name, map_has name (plugins pm) = true -> map_has name (pluginConfigs pm) = true.
Proof.
  unfold configs_cover. rewrite forallb_forall. split.
  - intros H name Hname. apply map_has_keys in Hname.
    apply list_elem_of_fmap in Hname as (entry & -> & Hentry).
    apply (H entry). apply list_elem_of_In. exact Hentry.
  - intros H entry Hentry. apply H, map_has_keys.
    apply list_elem_of_fmap. exists entry. split; [reflexivity|].
    apply list_elem_of_In. exact Hentry.
Qed.

















(** ** Switching a plugin on and off *)

(** The manager once the flag of [name] has been set to [v]. *)
Definition switched (v : bool) (name : string) (pm : PluginManager) : PluginManager :=
  set_pluginConfigs
    (map_set name (with_enabled v (map_get name (pluginConfigs pm)))) pm.

Lemma enablePlugin_run name pm w :
  enablePlugin name pm w =
  if map_has name (plugins pm)
  then mkOutcome (inr true) (switched true name pm)
         {| now := now w; issued := S (issued w) |}
         [Log info ("Plugin " +:+ name +:+ " enabled")]
  else mkOutcome (inr false) pm w [].
Proof.
  unfold enablePlugin. rewrite bind_get.
  destruct (map_has name (plugins pm)); reflexivity.
Qed.

Lemma disablePlugin_run name pm w :
  disablePlugin name pm w =
  if map_has name (plugins pm)
  then mkOutcome (inr true) (switched false name pm)
         {| now := now w; issued := S (issued w) |}
         [Log info ("Plugin " +:+ name +:+ " disabled")]
  else mkOutcome (inr false) pm w [].
Proof.
  unfold disablePlugin. rewrite bind_get.
  destruct (map_has name (plugins pm)); reflexivity.
Qed.

Lemma switched_is_enabled v name pm other :
  is_enabled (pluginConfigs (switched v name pm)) other
  = if String.eqb other name then v else is_enabled (pluginConfigs pm) other.
Proof.
  unfold is_enabled, switched, set_pluginConfigs. cbn [pluginConfigs].
  destruct (String.eqb_spec other name) as [->|Hne].
  - rewrite map_get_set_eq. reflexivity.
  - rewrite map_get_set_ne by congruence. reflexivity.
Qed.

Lemma switched_well_formed v name pm : well_formed pm -> well_formed (switched v name pm).
Proof.
  intros (Hp & Hc & Hcover). split_and!.
  - exact Hp.
  - apply NoDup_map_set, Hc.
  - apply configs_cover_spec. intros other Hother.
    unfold switched, set_pluginConfigs in *. cbn [plugins pluginConfigs] in *.
    rewrite map_has_set, (proj1 (configs_cover_spec pm) Hcover other Hother).
    apply orb_true_r.
Qed.


(** The report lists a name with the flag of its entry. *)
Lemma getPluginStatus_lookup pm name :
  NoDup (pluginConfigs pm).*1 ->
  getPluginStatus pm !! name = cfg_enabled <$> map_get name (pluginConfigs pm).
Proof.
  unfold getPluginStatus. generalize (pluginConfigs pm). intros configs Hnd.
  assert (H : forall acc : gmap string bool,
             foldl (fun status (entry : string * PluginConfig) =>
                      <[entry.1 := cfg_enabled entry.2]> status) acc configs !! name
             = match map_get name configs with
               | Some config => Some (cfg_enabled config)
               | None => acc !! name
               end).
  { induction configs as [|[k config] rest IH]; intros acc; [reflexivity|].
    cbn [fmap list_fmap fst] in Hnd. apply NoDup_cons in Hnd as [Hk Hrest].
    cbn [foldl map_get fst snd]. rewrite (IH Hrest).
    destruct (String.eqb_spec name k) as [->|Hne].
    - assert (Hnone : map_get k rest = None).
      { destruct (map_get k rest) eqn:Hget; [|reflexivity].
        exfalso. apply Hk, map_has_keys. unfold map_has. rewrite Hget. reflexivity. }
      rewrite Hnone, lookup_insert_eq. reflexivity.
    - destruct (map_get name rest); [reflexivity|].
      rewrite lookup_insert_ne by congruence. reflexivity. }
  rewrite H, lookup_empty. destruct (map_get name configs); reflexivity.
Qed.

(** X3: [enablePlugin] and [disablePlugin] answer [false] for a name that is
    not registered, and then change and log nothing.  For a registered
    plugin they answer [true], set its flag and keep its other options,
    and leave the handlers and the entries of the other plugins as they
    were; the report of [getPluginStatus] then shows the new flag. *)
Theorem plugin_switch_sets_one_flag (v : bool) (name : string) (pm : PluginManager)
    (w : World) :
  let o := (if v then enablePlugin name else disablePlugin name) pm w in
  (map_has name (plugins pm) = false -> o = mkOutcome (inr false) pm w [])
  /\ (map_has name (plugins pm) = true ->
      result o = inr true
      /\ plugins (state o) = plugins pm
      /\ is_enabled (pluginConfigs (state o)) name = v
      /\ (forall other, other <> name ->
            map_get other (pluginConfigs (state o)) = map_get other (pluginConfigs pm))
      /\ cfg_options <$> map_get name (pluginConfigs (state o))
         = Some (default [] (cfg_options <$> map_get name (pluginConfigs pm)))
      /\ (well_formed pm ->
          well_formed (state o) /\ getPluginStatus (state o) !! name = Some v)).
Proof.
  intros o.
  assert (Ho : o = if map_has name (plugins pm)
                   then mkOutcome (inr true) (switched v name pm)
                          {| now := now w; issued := S (issued w) |}
                          [Log info ("Plugin " +:+ name +:+
                                     (if v then " enabled" else " disabled"))]
                   else mkOutcome (inr false) pm w []).
  { subst o. destruct v; [rewrite enablePlugin_run | rewrite disablePlugin_run];
      destruct (map_has name (plugins pm)); reflexivity. }
  rewrite Ho. split.
  - intros ->. reflexivity.
  - intros ->. cbn [result state]. split_and!.
    + reflexivity.
    + reflexivity.
    + rewrite switched_is_enabled, String.eqb_refl. reflexivity.
    + intros other Hne. unfold switched, set_pluginConfigs. cbn [pluginConfigs].
      apply map_get_set_ne. congruence.
    + unfold switched, set_pluginConfigs. cbn [pluginConfigs].
      rewrite map_get_set_eq. cbn. destruct (map_get name (pluginConfigs pm)); reflexivity.
    + intros Hwf. pose proof (switched_well_formed v name pm Hwf) as Hwf'.
      split; [exact Hwf'|]. destruct Hwf' as (_ & Hnd & _).
      rewrite (getPluginStatus_lookup _ _ Hnd).
      unfold switched, set_pluginConfigs. cbn [pluginConfigs].
      rewrite map_get_set_eq. reflexivity.
Qed.








(** ** Reloading *)






(** ** The registry over the life of a controller *)





(** The plugin manager of the controller is left as it was. *)
Definition same_plugins (s s' : Instance) : Prop := pluginManager s' = pluginManager s.

Global Instance same_plugins_preorder : PreOrder same_plugins.
Proof.
  split.
  - intros s. reflexivity.
  - intros s1 s2 s3 H1 H2. unfold same_plugins in *. congruence.
Qed.

Definition stays_well_formed (s s' : Instance) : Prop :=
  well_formed (pluginManager s) -> well_formed (pluginManager s').

Global Instance stays_well_formed_preorder : PreOrder stays_well_formed.
Proof.
  split.
  - intros s H. exact H.
  - intros s1 s2 s3 H1 H2 H. auto.
Qed.




Section RegistryFacts.

Variable env : Env.
Variable loggedOut : Z.







Lemma require_connected_keeps : keeps eq require_connected.
Proof.
  unfold require_connected.
  apply keeps_bind; [typeclasses eauto | keeps_step | intros this].
  destruct (negb (isConnected this)); keeps_step.
Qed.

Lemma watermarked_keeps text : keeps eq (watermarked env text).
Proof.
  unfold watermarked, product_name.
  apply keeps_bind; [typeclasses eauto | | intros ?; keeps_step].
  destruct (pkg_name env); keeps_step.
Qed.

Lemma sock_sendMessage_keeps jid content : keeps eq (sock_sendMessage env jid content).
Proof.
  unfold sock_sendMessage.
  apply keeps_bind; [typeclasses eauto | keeps_step | intros this].
  destruct (sock this); repeat keeps_step.
Qed.

Lemma watermarked_caption_keeps caption : keeps eq (watermarked_caption env caption).
Proof.
  unfold watermarked_caption. destruct caption as [text|]; [|keeps_step].
  destruct (Js.truthy (Some text)); [|keeps_step].
  apply keeps_bind; [typeclasses eauto | apply watermarked_keeps | intros ?; keeps_step].
Qed.

Lemma media_content_keeps mediaData : keeps eq (media_content env mediaData).
Proof.
  unfold media_content.
  repeat match goal with
         | |- keeps _ (if ?b then _ else _) => destruct b
         end;
    repeat first [ apply watermarked_caption_keeps | keeps_step ].
Qed.

Lemma sendMessage_keeps phoneNumber messageText :
  keeps eq (sendMessage env phoneNumber messageText).
Proof.
  unfold sendMessage, logger_info, logger_error.
  repeat first [ apply require_connected_keeps | apply watermarked_keeps
               | apply sock_sendMessage_keeps | apply triggerWebhooks_keeps
               | apply instanceLog_keeps | keeps_step ].
Qed.

Lemma sendGroupMessage_keeps groupId messageText :
  keeps eq (sendGroupMessage env groupId messageText).
Proof.
  unfold sendGroupMessage, logger_info, logger_error.
  repeat first [ apply require_connected_keeps | apply watermarked_keeps
               | apply sock_sendMessage_keeps | apply triggerWebhooks_keeps
               | apply instanceLog_keeps | keeps_step ].
Qed.

Lemma sendMediaMessage_keeps phoneNumber mediaData :
  keeps eq (sendMediaMessage env phoneNumber mediaData).
Proof.
  unfold sendMediaMessage, logger_info, logger_error.
  repeat first [ apply require_connected_keeps | apply media_content_keeps
               | apply sock_sendMessage_keeps | apply triggerWebhooks_keeps
               | apply instanceLog_keeps | keeps_step ].
Qed.






End RegistryFacts.


(** ** The [open] signal *)

(** The controller after the [open] block. *)
Definition after_open (this : Instance) : Instance :=
  set_reconnectAttempts 0
    (set_qrCode None (set_isConnected true (set_connectionStatus connected this))).

(** The data of the event the [open] block triggers: the counter is read
    after it has been reset. *)
Definition open_data (this : Instance) (timestamp : Z) : ConnectionData :=
  {| cd_status := connected; cd_qrCode := None;
     cd_instance := instanceData this; cd_timestamp := timestamp;
     cd_message := "WhatsApp connection established successfully";
     cd_reconnectAttempt := None; cd_maxReconnectAttempts := None;
     cd_disconnectReason := None; cd_wasManualRestart := None;
     cd_previousReconnectAttempts := Some 0 |}.

Definition open_log (this : Instance) : Event :=
  Log info ("WhatsApp connection established for " +:+ inst_phone (instanceData this)).

Section OpenFacts.

Variable env : Env.
Variable loggedOut : Z.

Lemma on_open_run this w :
  on_open env this w =
  match fault env (1 + issued w)%nat with
  | Some e =>
      mkOutcome (inl e) (after_open this)
        {| now := now w; issued := (2 + issued w)%nat |}
        [open_log this; UpdateStatus (inst_id (instanceData this)) db_active]
  | None =>
      let t := triggerWebhooks env "connection.update"
                 (ConnectionUpdateData (open_data this (now w)))
                 (after_open this)
                 {| now := now w; issued := (2 + issued w)%nat |} in
      mkOutcome (inr tt) (after_open this) (world t)
        ([open_log this; UpdateStatus (inst_id (instanceData this)) db_active]
         ++ emitted t)
  end.
Proof.
  unfold on_open, after_open, open_log, open_data, updateStatus.
  unfold bind, get, modify, date_now, logger_info, emit, call.
  cbn -[triggerWebhooks String.append].
  destruct (fault env (S (issued w))) as [e|]; [reflexivity|].
  match goal with
  | |- context [triggerWebhooks env ?ev ?d ?s ?w0] =>
      destruct (triggerWebhooks_outcome env ev d s w0) as (w' & calls & ->)
  end. reflexivity.
Qed.

Lemma opening_run update this w :
  connection update = Some conn_open -> Js.truthy (qr update) = false ->
  on_connection_update env loggedOut update this w
  = bind (on_open env)
         (fun _ => instanceLog env info "Connection status changed: open") this w.
Proof.
  intros Hc Hq. unfold on_connection_update. rewrite Hc.
  destruct (qr update) as [code|]; [rewrite Hq|]; rewrite bind_ret_l; reflexivity.
Qed.

Lemma opening_state update this w :
  connection update = Some conn_open -> Js.truthy (qr update) = false ->
  state (on_connection_update env loggedOut update this w) = after_open this.
Proof.
  intros Hc Hq. rewrite (opening_run update this w Hc Hq).
  rewrite state_bind_keeps by (intros a; apply instanceLog_keeps).
  rewrite on_open_run. destruct (fault env (1 + issued w)%nat); reflexivity.
Qed.

End OpenFacts.

(** X7: An [open] signal without pairing code marks the controller connected,
    forgets the pairing code and resets the attempts counter, before
    anything is persisted; it does not touch the manual-restart flag.  The
    first two outside calls are the log line and the [active] status.
    Every payload posted for it is a [connection.update] whose
    [previousReconnectAttempts] is 0, whatever the counter was: the field
    is read after the reset. *)
Theorem open_signal_resets_attempts (env : Env) (loggedOut : Z)
    (update : ConnectionUpdate) (this : Instance) (w : World) :
  connection update = Some conn_open -> Js.truthy (qr update) = false ->
  let o := on_connection_update env loggedOut update this w in
  state o = after_open this
  /\ reconnectAttempts (state o) = 0
  /\ isManualRestart (state o) = isManualRestart this
  /\ (exists rest,
        emitted o = open_log this
                    :: UpdateStatus (inst_id (instanceData this)) db_active :: rest)
  /\ (forall url p c,
        HttpPost url p c ∈ emitted o ->
        pl_event p = "connection.update"
        /\ pl_data p = ConnectionUpdateData (open_data this (now w))
        /\ exists d, pl_data p = ConnectionUpdateData d
                     /\ cd_status d = connected
                     /\ cd_previousReconnectAttempts d = Some 0).
Proof.
  intros Hc Hq o. subst o.
  pose proof (opening_state env loggedOut update this w Hc Hq) as Hstate.
  rewrite (opening_run env loggedOut update this w Hc Hq) in *.
  split_and!.
  - exact Hstate.
  - rewrite Hstate. reflexivity.
  - rewrite Hstate. reflexivity.
  - destruct (result (on_open env this w)) as [e|[]] eqn:Hr.
    + rewrite (bind_inl _ _ _ _ _ Hr). cbn [emitted]. rewrite on_open_run.
      destruct (fault env (1 + issued w)%nat); cbn [emitted app]; eauto.
    + rewrite (bind_inr _ _ _ _ _ Hr). cbn [emitted]. rewrite on_open_run.
      destruct (fault env (1 + issued w)%nat); cbn [emitted app]; eauto.
  - intros url p c Hin.
    assert (Hopen : HttpPost url p c ∈ emitted (on_open env this w)).
    { destruct (result (on_open env this w)) as [e|[]] eqn:Hr.
      - rewrite (bind_inl _ _ _ _ _ Hr) in Hin. exact Hin.
      - rewrite (bind_inr _ _ _ _ _ Hr) in Hin. cbn [emitted] in Hin.
        apply elem_of_app in Hin as [Hin|Hin]; [exact Hin|].
        unfold instanceLog in Hin. rewrite bind_get in Hin. cbn [call emitted] in Hin.
        apply list_elem_of_singleton in Hin. discriminate. }
    rewrite on_open_run in Hopen.
    assert (Hdata : pl_event p = "connection.update"
                    /\ pl_data p = ConnectionUpdateData (open_data this (now w))).
    { destruct (fault env (1 + issued w)%nat) as [e|]; cbn [emitted] in Hopen.
      - apply elem_of_cons in Hopen as [Hopen|Hopen]; [discriminate|].
        apply elem_of_cons in Hopen as [Hopen|Hopen]; [discriminate|]. inversion Hopen.
      - apply elem_of_app in Hopen as [Hopen|Hopen].
        + apply elem_of_cons in Hopen as [Hopen|Hopen]; [discriminate|].
          apply elem_of_cons in Hopen as [Hopen|Hopen]; [discriminate|]. inversion Hopen.
        + apply triggerWebhooks_posts in Hopen. exact Hopen. }
    destruct Hdata as [Hevent Hdata]. split_and!; [exact Hevent | exact Hdata |].
    eexists. split_and!; [exact Hdata | reflexivity | reflexivity].
Qed.

(** A controller that has used three of its attempts. *)
Definition thrice_retried : Instance := set_reconnectAttempts 3 open_instance.

Lemma open_signal_witness :
  let update := {| connection := Some conn_open; statusCode := None; qr := None |} in
  let o := on_connection_update one_hook 401 update thrice_retried dawn in
  reconnectAttempts thrice_retried = 3
  /\ reconnectAttempts (state o) = 0
  /\ (posts (emitted o)).*1 = ["http://fast.test/hook"]
  /\ (forall url p c,
        HttpPost url p c ∈ emitted o ->
        pl_data p = ConnectionUpdateData (open_data thrice_retried 0)).
Proof.
  destruct (open_signal_resets_attempts one_hook 401
              {| connection := Some conn_open; statusCode := None; qr := None |}
              thrice_retried dawn eq_refl eq_refl)
    as (_ & Hzero & _ & _ & Hposts).
  split_and!; [reflexivity | exact Hzero | vm_compute; reflexivity |].
  intros url p c Hin. apply (Hposts url p c Hin).
Defined.

(** ** Initialisation *)

(** The two halves of [initialize]: the [try] block and the [catch]
    block. *)
Definition initialize_body (env : Env) : M Instance unit :=
  let* this := get in
  logger_info ("Initializing WhatsApp instance for "
               +:+ inst_phone (instanceData this) +:+ "...") ;;
  updateStatus env db_connecting ;;
  call env EnsureAuthDir ;;
  within pluginManager set_pluginManager (loadPlugins env) ;;
  call env UseAuthState ;;
  let* n := position in
  call env FetchVersion ;;
  let '(version, isLatest) := wa_version env n in
  logger_info ("Using WA version " +:+ version +:+ ", isLatest: "
               +:+ (if isLatest : bool then "true" else "false") +:+ " for "
               +:+ inst_phone (instanceData this)) ;;
  call env MakeSocket ;;
  modify (set_sock (Some {| sock_user := None |})) ;;
  instanceLog env info ("WhatsApp instance initialized. WA version " +:+ version
                        +:+ " is latest? " +:+ (if isLatest : bool then "true" else "false")).

Definition initialize_handler (env : Env) (error : JsError) : M Instance unit :=
  let* this := get in
  logger_error ("Error initializing WhatsApp instance "
                +:+ inst_phone (instanceData this) +:+ ":") ;;
  instanceLog env error_level ("Error initializing WhatsApp instance: "
                               +:+ err_message error) ;;
  modify (set_connectionStatus error_status) ;;
  updateStatus env db_error.

Lemma initialize_unfold env :
  initialize env = try_catch (initialize_body env) (initialize_handler env).
Proof. reflexivity. Qed.

(** The outside calls of an initialisation. *)
Definition startup_call (e : Event) : bool :=
  match e with
  | Log _ _ | InstanceLogCreate _ _ _
  | UpdateStatus _ db_connecting | UpdateStatus _ db_error
  | EnsureAuthDir | ReadPluginDir | RequirePlugin _
  | UseAuthState | FetchVersion | MakeSocket => true
  | _ => false
  end.

(** The lines the [catch] block writes. *)
Definition failure_lines (this : Instance) (error : JsError) : list Event :=
  [Log error_level ("Error initializing WhatsApp instance "
                    +:+ inst_phone (instanceData this) +:+ ":");
   InstanceLogCreate (inst_id (instanceData this)) error_level
     ("Error initializing WhatsApp instance: " +:+ err_message error)].

Definition error_write (this : Instance) : Event :=
  UpdateStatus (inst_id (instanceData this)) db_error.

(** A computation that, when it returns, leaves an object satisfying [P]. *)
Definition ensures {St A} (P : St -> Prop) (m : M St A) : Prop :=
  forall s w a, result (m s w) = inr a -> P (state (m s w)).

Lemma ensures_bind {St A B} (P : St -> Prop) (m : M St A) (k : A -> M St B) :
  (forall a, ensures P (k a)) -> ensures P (bind m k).
Proof.
  intros Hk s w b Hr. destruct (result (m s w)) as [e|a] eqn:Hm.
  - rewrite (bind_inl _ _ _ _ _ Hm) in Hr. discriminate.
  - rewrite (bind_inr _ _ _ _ _ Hm) in Hr |- *. cbn [result state] in *.
    eapply Hk, Hr.
Qed.

(** What an initialisation leaves alone. *)
Definition same_session (s s' : Instance) : Prop :=
  instanceData s' = instanceData s
  /\ connectionStatus s' = connectionStatus s
  /\ isConnected s' = isConnected s
  /\ qrCode s' = qrCode s.

Global Instance same_session_preorder : PreOrder same_session.
Proof.
  split.
  - intros s. repeat split.
  - intros s1 s2 s3 (H1 & H2 & H3 & H4) (H5 & H6 & H7 & H8).
    unfold same_session. split_and!; congruence.
Qed.

Section InitializeFacts.

Variable env : Env.

Lemma initialize_handler_run error this w :
  initialize_handler env error this w =
  match fault env (1 + issued w)%nat with
  | Some e =>
      mkOutcome (inl e) this {| now := now w; issued := (2 + issued w)%nat |}
        (failure_lines this error)
  | None =>
      mkOutcome (match fault env (2 + issued w)%nat with
                 | Some e => inl e
                 | None => inr tt
                 end)
        (set_connectionStatus error_status this)
        {| now := now w; issued := (3 + issued w)%nat |}
        (failure_lines this error ++ [error_write this])
  end.
Proof.
  unfold initialize_handler, failure_lines, error_write, instanceLog, updateStatus.
  unfold bind, get, modify, logger_error, emit, call.
  cbn -[String.append].
  destruct (fault env (S (issued w))); [reflexivity|].
  destruct (fault env (S (S (issued w)))); reflexivity.
Qed.

Lemma initialize_body_same_session : keeps same_session (initialize_body env).
Proof.
  unfold initialize_body, logger_info.
  apply keeps_bind; [typeclasses eauto|keeps_step|]. intros this.
  apply keeps_bind; [typeclasses eauto|keeps_step|]. intros _.
  apply keeps_bind; [typeclasses eauto|
                     apply updateStatus_keeps_any; typeclasses eauto|]. intros _.
  apply keeps_bind; [typeclasses eauto|keeps_step|]. intros _.
  apply keeps_bind; [typeclasses eauto|apply keeps_within; intros; repeat split|]. intros _.
  apply keeps_bind; [typeclasses eauto|keeps_step|]. intros _.
  apply keeps_bind; [typeclasses eauto|keeps_step|]. intros n.
  apply keeps_bind; [typeclasses eauto|keeps_step|]. intros _.
  destruct (wa_version env n) as [version isLatest].
  repeat first [ apply instanceLog_keeps_any; typeclasses eauto | keeps_step ].
  repeat split.
Qed.

Lemma initialize_body_makes_socket :
  ensures (fun s => sock s = Some {| sock_user := None |}) (initialize_body env).
Proof.
  unfold initialize_body.
  apply ensures_bind. intros this.
  do 7 (apply ensures_bind; intros ?).
  destruct (wa_version env _) as [version isLatest].
  do 2 (apply ensures_bind; intros ?).
  intros s w r _. rewrite state_bind_keeps by (intros ?; apply instanceLog_keeps).
  reflexivity.
Qed.

Lemma initialize_startup_calls : emits_only (passes startup_call) (initialize env).
Proof. apply initialize_allowed; intros; reflexivity. Qed.

End InitializeFacts.


(** What an initialisation leaves behind. *)
Lemma initialize_settles (env : Env) (this : Instance) (w : World) :
  let o := initialize env this w in
  Forall (fun e => startup_call e = true) (emitted o)
  /\ instanceData (state o) = instanceData this
  /\ isConnected (state o) = isConnected this
  /\ qrCode (state o) = qrCode this
  /\ same_policy this (state o)
  /\ (result o = inr tt ->
      (sock (state o) = Some {| sock_user := None |}
       /\ connectionStatus (state o) = connectionStatus this)
      \/ (connectionStatus (state o) = error_status
          /\ exists before error,
               emitted o = before ++ failure_lines this error ++ [error_write this]))
  /\ (forall e, result o = inl e ->
      exists before error,
        emitted o = before ++ failure_lines this error
        \/ emitted o = before ++ failure_lines this error ++ [error_write this]).
Proof.
  intros o.
  pose proof (initialize_startup_calls env this w) as Hcalls.
  pose proof (initialize_same_policy env this w) as Hpolicy.
  pose proof (initialize_body_same_session env this w) as (Hdata & Hstatus & Hconn & Hqr).
  pose proof (initialize_body_makes_socket env this w) as Hsock.
  fold o in Hcalls, Hpolicy. subst o. rewrite initialize_unfold in *.
  destruct (result (initialize_body env this w)) as [error|[]] eqn:Hbody.
  - rewrite (try_catch_inl _ _ _ _ _ Hbody) in *. rewrite initialize_handler_run in *.
    set (s1 := state (initialize_body env this w)) in *.
    set (w1 := world (initialize_body env this w)) in *.
    assert (Hlines : failure_lines s1 error = failure_lines this error)
      by (unfold failure_lines; rewrite Hdata; reflexivity).
    assert (Hwrite : error_write s1 = error_write this)
      by (unfold error_write; rewrite Hdata; reflexivity).
    rewrite Hlines, Hwrite in *.
    destruct (fault env (1 + issued w1)%nat) as [e1|]; cbn [result state emitted] in *.
    + split_and!; try assumption; [discriminate|].
      intros e _. exists (emitted (initialize_body env this w)), error. left. reflexivity.
    + split_and!; try assumption.
      * intros _. right. split; [reflexivity|]. eauto.
      * intros e _. exists (emitted (initialize_body env this w)), error. right. reflexivity.
  - rewrite (try_catch_inr _ _ _ _ _ Hbody) in *.
    split_and!; try assumption.
    + intros _. left. split; [apply (Hsock tt eq_refl) | exact Hstatus].
    + intros e He. rewrite Hbody in He. discriminate.
Qed.

(** X8: An initialisation absorbs its failures.  Whatever fails outside, it
    makes no other calls than those of a start-up (no timer, no webhook,
    no close and no log out), and it leaves the instance row, the
    connected flag, the pairing code and the reconnection policy as they
    were.  When it returns, either the socket has been made and the
    connection status is untouched, or the status is [error] and the last
    two calls are the error entry of the instance log and the [error]
    status.  It throws only when one of those two writes fails. *)
Theorem initialize_absorbs_failures (env : Env) (this : Instance) (w : World) :
  let o := initialize env this w in
  Forall (fun e => startup_call e = true) (emitted o)
  /\ instanceData (state o) = instanceData this
  /\ isConnected (state o) = isConnected this
  /\ qrCode (state o) = qrCode this
  /\ same_policy this (state o)
  /\ (result o = inr tt ->
      (sock (state o) = Some {| sock_user := None |}
       /\ connectionStatus (state o) = connectionStatus this)
      \/ (connectionStatus (state o) = error_status
          /\ exists before error,
               emitted o = before ++ failure_lines this error ++ [error_write this]))
  /\ (forall e, result o = inl e ->
      exists before error,
        emitted o = before ++ failure_lines this error
        \/ emitted o = before ++ failure_lines this error ++ [error_write this]).
Proof. exact (initialize_settles env this w). Qed.

(** ** Logging out *)

(** The controller after [close()] and after [disconnect()] alike. *)
Definition after_disconnect (this : Instance) : Instance :=
  set_connectionStatus disconnected (set_isConnected false this).

(** What [disconnect] does with the socket before it writes the status. *)
Definition logout_calls (env : Env) (this : Instance) (w : World) : list Event :=
  match sock this with
  | None => []
  | Some _ =>
      [SockLogout;
       match fault env (issued w) with
       | Some _ => Log error_level ("Error logging out instance "
                                    +:+ inst_phone (instanceData this))
       | None => Log info ("Instance " +:+ inst_phone (instanceData this) +:+ " logged out")
       end]
  end.

Lemma disconnect_run env this w :
  let before := logout_calls env this w in
  let at_ := (issued w + length before)%nat in
  disconnect env this w
  = mkOutcome (match fault env at_ with Some e => inl e | None => inr tt end)
      (after_disconnect this)
      {| now := now w; issued := S at_ |}
      (before ++ [UpdateStatus (inst_id (instanceData this)) db_inactive]).
Proof.
  cbv zeta. unfold disconnect, logout_calls, after_disconnect, updateStatus.
  rewrite bind_get. destruct (sock this) as [socket|].
  - unfold try_catch, bind, call, logger_info, logger_error, emit, modify, get.
    cbn -[String.append]. rewrite !Nat.add_succ_r, Nat.add_0_r.
    destruct (fault env (issued w)); cbn -[String.append];
      destruct (fault env (S (S (issued w)))); reflexivity.
  - unfold bind, ret, call, modify, get. cbn. rewrite Nat.add_0_r.
    destruct (fault env (issued w)); reflexivity.
Qed.

Lemma close_run env this w :
  exists calls w',
    close env this w = mkOutcome (inr tt) (after_disconnect this) w' calls
    /\ Forall (fun e => e = WsClose \/ exists level text, e = Log level text) calls.
Proof.
  unfold close, after_disconnect. rewrite bind_get. destruct (sock this) as [socket|].
  - unfold try_catch, bind, call, logger_info, logger_error, emit, modify, get.
    cbn -[String.append].
    destruct (fault env (issued w)); cbn -[String.append];
      eexists _, _; (split; [reflexivity|]);
      (constructor; [left; reflexivity|]); (constructor; [right; eauto|]); constructor.
  - unfold bind, ret, modify. cbn. eexists _, _. split; [reflexivity | constructor].
Qed.

(** X9: [disconnect] and [close] leave the controller in the same state:
    disconnected, with its socket handle, its instance row and its
    reconnection policy untouched.  [disconnect] logs out when there is a
    socket, absorbs a failure of the log out, and in every case ends by
    writing the [inactive] status; it throws exactly when that write
    fails.  [close] never throws and calls nothing but the socket and the
    logger. *)
Theorem disconnect_always_writes_inactive (env : Env) (this : Instance) (w : World) :
  let o := disconnect env this w in
  let before := logout_calls env this w in
  state o = after_disconnect this
  /\ state (close env this w) = state o
  /\ emitted o = before ++ [UpdateStatus (inst_id (instanceData this)) db_inactive]
  /\ (SockLogout ∈ emitted o <-> is_Some (sock this))
  /\ result o = match fault env (issued w + length before)%nat with
                | Some e => inl e
                | None => inr tt
                end
  /\ result (close env this w) = inr tt
  /\ Forall (fun e => forall id status, e <> UpdateStatus id status /\ e <> SockLogout)
            (emitted (close env this w)).
Proof.
  intros o before. subst o before. rewrite disconnect_run. cbv zeta. cbn [result state emitted].
  destruct (close_run env this w) as (calls & w' & -> & Hcalls). cbn [result state emitted].
  split_and!; try reflexivity.
  - unfold logout_calls. destruct (sock this) as [socket|]; cbn [app].
    + split; [eauto | intros _; left].
    + split; [|intros [? [=]]]. intros Hin.
      apply list_elem_of_singleton in Hin. discriminate.
  - eapply Forall_impl; [exact Hcalls|]. intros e [->|(level & text & ->)] id status;
      split; discriminate.
Qed.

(** ** The three send operations *)

(** The common shape of [sendMessage], [sendGroupMessage] and
    [sendMediaMessage]: the guard, the announcement, the content, the
    socket, the message store, the webhooks, the instance log; and the
    [catch] that logs and throws again. *)
Definition send_pipeline {X} (env : Env)
    (sending : Instance -> string) (prepare : M Instance X) (jid : string)
    (content : X -> Outgoing) (record : Instance -> string -> Z -> MessageData)
    (sent_data : Instance -> MessageData -> EventData)
    (done : Instance -> string) (entry answer : string)
    (failed : Instance -> string) (failure : string) : M Instance SendResult :=
  let* this := get in
  try_catch
    (require_connected ;;
     logger_info (sending this) ;;
     let* x := prepare in
     let* messageId := sock_sendMessage env jid (content x) in
     let* sentAt := date_now in
     call env (MessageCreate (record this messageId sentAt)) ;;
     triggerWebhooks env "message.sent" (sent_data this (record this messageId sentAt)) ;;
     logger_info (done this) ;;
     instanceLog env info entry ;;
     ret {| sr_success := true; sr_message := answer; sr_messageId := messageId |})
    (fun error =>
       logger_error (failed this) ;;
       instanceLog env error_level (failure +:+ err_message error) ;;
       throw error).

Lemma sendMessage_pipeline env phoneNumber messageText :
  sendMessage env phoneNumber messageText
  = send_pipeline env
      (fun this => "Sending message from " +:+ inst_phone (instanceData this) +:+ " to "
                   +:+ Phone.jid_of (Phone.formattedNumber phoneNumber) +:+ ": "
                   +:+ messageText)
      (watermarked env messageText)
      (Phone.jid_of (Phone.formattedNumber phoneNumber))
      TextMessage
      (fun this messageId sentAt =>
         outgoing_record this (Phone.formattedNumber phoneNumber) "text" messageText
                         messageId false None None sentAt)
      (fun this messageData =>
         MessageSentData messageData (instanceData this)
                         (Phone.formattedNumber phoneNumber) false None)
      (fun this => "Message sent successfully from " +:+ inst_phone (instanceData this)
                   +:+ " to " +:+ phoneNumber)
      ("Message sent: " +:+ messageText) "Message sent successfully"
      (fun this => "Error sending message from " +:+ inst_phone (instanceData this) +:+ ":")
      "Error sending message: ".
Proof. reflexivity. Qed.

Definition group_jid (groupId : string) : string :=
  if Js.includes groupId "@g.us" then groupId else groupId +:+ "@g.us".

Lemma sendGroupMessage_pipeline env groupId messageText :
  sendGroupMessage env groupId messageText
  = send_pipeline env
      (fun this => "Sending group message from " +:+ inst_phone (instanceData this)
                   +:+ " to " +:+ group_jid groupId +:+ ": " +:+ messageText)
      (watermarked env messageText)
      (group_jid groupId)
      TextMessage
      (fun this messageId sentAt =>
         outgoing_record this groupId "text" messageText messageId true None None sentAt)
      (fun this messageData =>
         MessageSentData messageData (instanceData this) groupId true None)
      (fun this => "Group message sent successfully from "
                   +:+ inst_phone (instanceData this) +:+ " to " +:+ groupId)
      ("Group message sent to " +:+ groupId +:+ ": " +:+ messageText)
      "Group message sent successfully"
      (fun this => "Error sending group message from "
                   +:+ inst_phone (instanceData this) +:+ ":")
      "Error sending group message: ".
Proof. reflexivity. Qed.

Lemma sendMediaMessage_pipeline env phoneNumber mediaData :
  sendMediaMessage env phoneNumber mediaData
  = send_pipeline env
      (fun this => "Sending " +:+ media_type mediaData +:+ " media from "
                   +:+ inst_phone (instanceData this) +:+ " to "
                   +:+ Phone.jid_of (Phone.formattedNumber phoneNumber))
      (media_content env mediaData)
      (Phone.jid_of (Phone.formattedNumber phoneNumber))
      (fun messageContent => messageContent)
      (fun this messageId sentAt =>
         outgoing_record this (Phone.formattedNumber phoneNumber)
           (toLowerCase (media_type mediaData))
           (Js.or_else (media_caption mediaData) (media_type mediaData +:+ " media"))
           messageId false (Some (media_url mediaData)) (media_filename mediaData) sentAt)
      (fun this messageData =>
         MessageSentData messageData (instanceData this)
                         (Phone.formattedNumber phoneNumber) false
                         (Some (toLowerCase (media_type mediaData))))
      (fun this => media_type mediaData +:+ " media sent successfully from "
                   +:+ inst_phone (instanceData this) +:+ " to " +:+ phoneNumber)
      (media_type mediaData +:+ " media sent"
       +:+ (if Js.truthy (media_caption mediaData)
            then " with caption: " +:+ Js.or_else (media_caption mediaData) ""
            else ""))
      (media_type mediaData +:+ " media sent successfully")
      (fun this => "Error sending media message from "
                   +:+ inst_phone (instanceData this) +:+ ":")
      "Error sending media message: ".
Proof. reflexivity. Qed.

(** A computation that only computes: it returns or throws, and touches
    neither the object nor the world. *)
Definition computes {St A} (m : M St A) : Prop :=
  forall s w, state (m s w) = s /\ world (m s w) = w /\ emitted (m s w) = [].

Lemma computes_outcome {St A} (m : M St A) s w :
  computes m -> m s w = mkOutcome (result (m s w)) s w [].
Proof.
  intros H. destruct (H s w) as (Hs & Hw & He).
  destruct (m s w) as [r s1 w1 c1]. cbn in *. subst. reflexivity.
Qed.

Lemma watermarked_computes env text : computes (watermarked env text).
Proof.
  intros s w. unfold watermarked, product_name, bind.
  destruct (pkg_name env); cbn; auto.
Qed.

Lemma watermarked_caption_computes env caption : computes (watermarked_caption env caption).
Proof.
  intros s w. unfold watermarked_caption.
  destruct caption as [text|]; [|cbn; auto].
  destruct (Js.truthy (Some text)); [|cbn; auto].
  unfold bind. rewrite (computes_outcome _ s w (watermarked_computes env text)).
  destruct (result (watermarked env text s w)); cbn; auto.
Qed.

Lemma media_content_computes env mediaData : computes (media_content env mediaData).
Proof.
  intros s w. unfold media_content.
  repeat match goal with
         | |- context [if String.eqb ?a ?b then _ else _] => destruct (String.eqb a b)
         end;
    try (unfold bind;
         rewrite (computes_outcome _ s w
                    (watermarked_caption_computes env (media_caption mediaData)));
         destruct (result (watermarked_caption env (media_caption mediaData) s w)));
    cbn; auto.
Qed.

(** What the [catch] of a send operation makes of an error thrown after
    the calls [before]. *)
Definition caught (env : Env) (failed failure : string) (this : Instance)
    (error : JsError) (w : World) (before : list Event) : Outcome Instance SendResult :=
  mkOutcome (match fault env (1 + issued w)%nat with
             | Some logError => inl logError
             | None => inl error
             end)
            this {| now := now w; issued := (2 + issued w)%nat |}
            (before ++ [Log error_level failed;
                        InstanceLogCreate (inst_id (instanceData this)) error_level
                          (failure +:+ err_message error)]).

Section PipelineFacts.

Variable env : Env.
Context {X : Type}.
Variables (sending : Instance -> string) (prepare : M Instance X) (jid : string)
  (content : X -> Outgoing) (record : Instance -> string -> Z -> MessageData)
  (sent_data : Instance -> MessageData -> EventData)
  (done : Instance -> string) (entry answer : string)
  (failed : Instance -> string) (failure : string).

Hypothesis prepare_computes : computes prepare.

Local Abbreviation pipeline :=
  (send_pipeline env sending prepare jid content record sent_data done entry answer
                 failed failure).

(** A send operation on a connected controller, run symbolically. *)
Lemma pipeline_run this w :
  isConnected this = true ->
  let w1 := {| now := now w; issued := S (issued w) |} in
  let announced := Log info (sending this) in
  pipeline this w =
  match result (prepare this w1) with
  | inl e => caught env (failed this) failure this e w1 [announced]
  | inr x =>
      match sock this with
      | None =>
          caught env (failed this) failure this
                 (Error "Cannot read properties of null (reading 'sendMessage')")
                 w1 [announced]
      | Some _ =>
          let handed := SockSendMessage jid (content x) in
          let w2 := {| now := now w; issued := (2 + issued w)%nat |} in
          match fault env (1 + issued w)%nat with
          | Some e => caught env (failed this) failure this e w2 [announced; handed]
          | None =>
              let written := record this (send_key env (1 + issued w)%nat) (now w) in
              let w3 := {| now := now w; issued := (3 + issued w)%nat |} in
              match fault env (2 + issued w)%nat with
              | Some e =>
                  caught env (failed this) failure this e w3
                         [announced; handed; MessageCreate written]
              | None =>
                  let t := triggerWebhooks env "message.sent" (sent_data this written)
                                           this w3 in
                  let w4 := {| now := now (world t); issued := (2 + issued (world t))%nat |} in
                  let calls :=
                    [announced; handed; MessageCreate written] ++ emitted t
                    ++ [Log info (done this);
                        InstanceLogCreate (inst_id (instanceData this)) info entry] in
                  match fault env (1 + issued (world t))%nat with
                  | Some e => caught env (failed this) failure this e w4 calls
                  | None =>
                      mkOutcome (inr {| sr_success := true; sr_message := answer;
                                        sr_messageId := send_key env (1 + issued w)%nat |})
                                this w4 calls
                  end
              end
          end
      end
  end.
Proof.
  intros Hc. cbv zeta. unfold send_pipeline, caught. cbn [Nat.add]. rewrite bind_get.
  unfold try_catch, bind at 1, require_connected. rewrite bind_get, Hc.
  cbn [negb ret result state world emitted].
  unfold bind at 1, logger_info at 1, emit at 1. cbn [result state world emitted].
  unfold bind at 1.
  rewrite (computes_outcome prepare this _ prepare_computes).
  destruct (result (prepare this {| now := now w; issued := S (issued w) |})) as [e|x].
  - unfold bind, logger_error, instanceLog, get, emit, call, throw.
    cbn -[String.append].
    destruct (fault env (S (S (issued w)))); reflexivity.
  - unfold bind at 1, sock_sendMessage. rewrite bind_get.
    destruct (sock this) as [socket|].
    + unfold bind at 1, position. cbn [result state world emitted].
      unfold bind at 1, call at 1. cbn [result state world emitted now issued].
      destruct (fault env (S (issued w))) as [e|].
      * unfold bind, logger_error, instanceLog, get, emit, call, throw.
        cbn -[String.append].
        destruct (fault env (S (S (S (issued w))))); reflexivity.
      * cbn [ret result state world emitted].
        unfold bind at 1, date_now at 1. cbn [result state world emitted now issued].
        unfold bind at 1, call at 1. cbn [result state world emitted now issued].
        destruct (fault env (S (S (issued w)))) as [e|].
        -- unfold bind, logger_error, instanceLog, get, emit, call, throw.
           cbn -[String.append].
           destruct (fault env (S (S (S (S (issued w)))))); reflexivity.
        -- unfold bind at 1.
           match goal with
           | |- context [triggerWebhooks env ?ev ?d ?s ?w0] =>
               destruct (triggerWebhooks_outcome env ev d s w0) as (w' & calls & ->)
           end.
           unfold bind, logger_info, logger_error, instanceLog, get, emit, call, throw, ret.
           cbn -[String.append].
           destruct (fault env (S (issued w'))) as [e|]; [|reflexivity].
           cbn -[String.append].
           destruct (fault env (S (S (S (issued w'))))); cbn -[String.append];
             rewrite <- ?app_assoc; reflexivity.
    + cbn [throw result state world emitted].
      unfold bind, logger_error, instanceLog, get, emit, call, throw.
      cbn -[String.append].
      destruct (fault env (S (S (issued w)))); reflexivity.
Qed.

End PipelineFacts.

(** The steps of a send operation: the message is handed to the socket,
    written to the message store, announced to the webhooks. *)
Inductive SendStep := to_socket | to_store | to_webhooks.

Definition send_step (e : Event) : option SendStep :=
  match e with
  | SockSendMessage _ _ => Some to_socket
  | MessageCreate _ => Some to_store
  | GetEnabledWebhooks _ _ => Some to_webhooks
  | _ => None
  end.

Definition send_steps (tr : list Event) : list SendStep := omap send_step tr.

Lemma send_steps_app tr1 tr2 : send_steps (tr1 ++ tr2) = send_steps tr1 ++ send_steps tr2.
Proof. apply omap_app. Qed.

Lemma send_steps_cons e tr :
  send_steps (e :: tr)
  = match send_step e with Some step => step :: send_steps tr | None => send_steps tr end.
Proof. reflexivity. Qed.

Lemma omap_none {A B} (f : A -> option B) (l : list A) :
  Forall (fun x => f x = None) l -> omap f l = [].
Proof.
  induction 1 as [|x l Hx _ IH]; [reflexivity|].
  change (omap f (x :: l)) with (match f x with Some y => y :: omap f l | None => omap f l end).
  rewrite Hx. exact IH.
Qed.

(** The calls of a webhook trigger apart from the registry query. *)
Definition delivery_call (e : Event) : Prop :=
  match e with
  | Log _ _ | HttpPost _ _ _ | HttpSettled _ _ | HistoryCreate _ => True
  | _ => False
  end.

Lemma triggerWebhooks_calls env event data this w :
  exists rest,
    emitted (triggerWebhooks env event data this w)
    = GetEnabledWebhooks (inst_id (instanceData this)) event :: rest
    /\ Forall delivery_call rest.
Proof.
  rewrite triggerWebhooks_run. destruct (fault env (issued w)) as [e|].
  - eexists. split; [reflexivity|]. repeat constructor.
  - cbv zeta. cbn [emitted]. eexists. split; [reflexivity|].
    apply (emits_for_of delivery_call). intros webhook s w0. rewrite deliver_run.
    cbn [emitted]. apply Forall_app. split.
    + repeat constructor. unfold attempt_log.
      destruct (post_result env (issued w0) (wh_url webhook) 5000).1; exact I.
    + destruct (fault env (3 + issued w0)%nat); repeat constructor.
Qed.

Lemma send_steps_triggerWebhooks env event data this w :
  send_steps (emitted (triggerWebhooks env event data this w)) = [to_webhooks].
Proof.
  destruct (triggerWebhooks_calls env event data this w) as (rest & -> & Hrest).
  rewrite send_steps_cons. cbn [send_step]. f_equal. apply omap_none.
  eapply Forall_impl; [exact Hrest|]. intros [] H; try reflexivity; destruct H.
Qed.

Lemma sends_triggerWebhooks env event data this w :
  sends (emitted (triggerWebhooks env event data this w)) = []
  /\ stored (emitted (triggerWebhooks env event data this w)) = [].
Proof.
  destruct (triggerWebhooks_calls env event data this w) as (rest & -> & Hrest).
  split.
  - change (sends (?e :: ?r)) with (sends r). apply omap_none.
    eapply Forall_impl; [exact Hrest|]. intros [] H; try reflexivity; destruct H.
  - change (stored (?e :: ?r)) with (stored r). apply omap_none.
    eapply Forall_impl; [exact Hrest|]. intros [] H; try reflexivity; destruct H.
Qed.

(** What holds of every run of a send operation. *)
Definition orderly (this : Instance) (o : Outcome Instance SendResult) : Prop :=
  send_steps (emitted o) `prefix_of` [to_socket; to_store; to_webhooks]
  /\ state o = this
  /\ (forall r, result o = inr r ->
        send_steps (emitted o) = [to_socket; to_store; to_webhooks]
        /\ sr_success r = true)
  /\ (forall e, result o = inl e ->
        exists text,
          InstanceLogCreate (inst_id (instanceData this)) error_level text ∈ emitted o).

Section PipelineOrder.

Variable env : Env.
Context {X : Type}.
Variables (sending : Instance -> string) (prepare : M Instance X) (jid : string)
  (content : X -> Outgoing) (record : Instance -> string -> Z -> MessageData)
  (sent_data : Instance -> MessageData -> EventData)
  (done : Instance -> string) (entry answer : string)
  (failed : Instance -> string) (failure : string).

Hypothesis prepare_computes : computes prepare.

Local Abbreviation pipeline :=
  (send_pipeline env sending prepare jid content record sent_data done entry answer
                 failed failure).

Lemma pipeline_refused this w :
  isConnected this = false ->
  pipeline this w = refusal env (failed this) failure this w.
Proof.
  intros Hc. unfold send_pipeline, refusal. rewrite bind_get.
  unfold try_catch, bind at 1, require_connected. rewrite bind_get, Hc.
  cbn [negb throw]. unfold bind, logger_error, instanceLog, get, emit, call, throw.
  cbn -[String.append NotConnected].
  destruct (fault env (S (issued w))); reflexivity.
Qed.

Lemma caught_orderly this error w before steps :
  send_steps before = steps ->
  steps `prefix_of` [to_socket; to_store; to_webhooks] ->
  orderly this (caught env (failed this) failure this error w before).
Proof.
  intros Hsteps Hprefix. unfold orderly, caught. cbn [result state emitted].
  rewrite send_steps_app, Hsteps. cbn [send_steps omap]. rewrite app_nil_r.
  split_and!; [exact Hprefix | reflexivity | |].
  - intros r Hr. destruct (fault env (1 + issued w)%nat); discriminate.
  - intros e _. eexists. apply elem_of_app. right. right. left.
Qed.

Lemma pipeline_orderly this w : orderly this (pipeline this w).
Proof.
  destruct (isConnected this) eqn:Hc.
  - rewrite (pipeline_run env sending prepare jid content record sent_data done entry answer
               failed failure prepare_computes this w Hc).
    cbv zeta.
    destruct (result (prepare this _)) as [e|x];
      [apply (caught_orderly _ _ _ _ []); [reflexivity | apply prefix_nil]|].
    destruct (sock this) as [socket|];
      [|apply (caught_orderly _ _ _ _ []); [reflexivity | apply prefix_nil]].
    destruct (fault env (1 + issued w)%nat) as [e|];
      [apply (caught_orderly _ _ _ _ [to_socket]);
       [reflexivity | exists [to_store; to_webhooks]; reflexivity]|].
    destruct (fault env (2 + issued w)%nat) as [e|];
      [apply (caught_orderly _ _ _ _ [to_socket; to_store]);
       [reflexivity | exists [to_webhooks]; reflexivity]|].
    match goal with
    | |- context [triggerWebhooks env ?ev ?d ?s ?w0] => set (t := triggerWebhooks env ev d s w0)
    end.
    assert (Hsteps : send_steps ([Log info (sending this);
                                  SockSendMessage jid (content x);
                                  MessageCreate (record this (send_key env (1 + issued w)%nat)
                                                        (now w))]
                                 ++ emitted t
                                 ++ [Log info (done this);
                                     InstanceLogCreate (inst_id (instanceData this)) info entry])
                     = [to_socket; to_store; to_webhooks]).
    { rewrite !send_steps_app. subst t. rewrite send_steps_triggerWebhooks. reflexivity. }
    destruct (fault env (1 + issued (world t))%nat) as [e|];
      [apply (caught_orderly _ _ _ _ _ Hsteps); reflexivity|].
    unfold orderly. cbn [result state emitted]. rewrite Hsteps.
    split_and!; [reflexivity | reflexivity | |].
    + intros r [= <-]. split; reflexivity.
    + intros e [=].
  - rewrite (pipeline_refused this w Hc). unfold orderly, refusal.
    cbn [result state emitted]. split_and!.
    + apply prefix_nil.
    + reflexivity.
    + intros r Hr. destruct (fault env (1 + issued w)%nat); discriminate.
    + intros e _. eexists. right. left.
Qed.

End PipelineOrder.

(** X10: Every send operation, on any controller and whatever fails outside,
    takes its steps in one order and each at most once: the socket, then
    the message store, then the webhooks; nothing is written to the store
    that was not handed to the socket first.  It reports success only when
    the three steps have been taken, it leaves the controller as it was,
    and when it throws it has first tried to write an error entry to the
    instance log. *)
Theorem send_steps_in_order (env : Env) (this : Instance) (w : World)
    (phoneNumber groupId messageText : string) (mediaData : MediaData) :
  orderly this (sendMessage env phoneNumber messageText this w)
  /\ orderly this (sendGroupMessage env groupId messageText this w)
  /\ orderly this (sendMediaMessage env phoneNumber mediaData this w).
Proof.
  rewrite sendMessage_pipeline, sendGroupMessage_pipeline, sendMediaMessage_pipeline.
  split_and!; apply pipeline_orderly;
    [apply watermarked_computes | apply watermarked_computes | apply media_content_computes].
Qed.

(** ** The watermark *)

Lemma append_cons (c : ascii) (s t : string) : String c s +:+ t = String c (s +:+ t).
Proof. reflexivity. Qed.

Lemma append_empty (t : string) : "" +:+ t = t.
Proof. reflexivity. Qed.

Lemma substring_prefix (pre rest : string) :
  String.substring 0 (String.length pre) (pre +:+ rest) = pre.
Proof.
  induction pre as [|c pre IH].
  - rewrite append_empty. destruct rest; reflexivity.
  - rewrite append_cons. cbn [String.length String.substring]. rewrite IH. reflexivity.
Qed.

Lemma length_app_one (body : string) (last : ascii) :
  String.length (body +:+ String last "") = S (String.length body).
Proof.
  induction body as [|c body IH]; [reflexivity|].
  rewrite append_cons. cbn [String.length]. rewrite IH. reflexivity.
Qed.

Lemma indexOf_app_none (sep : ascii) (pre rest : string) :
  indexOf sep pre = None ->
  indexOf sep (pre +:+ String sep rest) = Some (String.length pre).
Proof.
  induction pre as [|c pre IH].
  - intros _. rewrite append_empty. cbn [indexOf]. rewrite Ascii.eqb_refl. reflexivity.
  - rewrite append_cons. cbn [indexOf String.length].
    destruct (Ascii.eqb c sep); [discriminate|].
    destruct (indexOf sep pre); [discriminate|]. intros _. rewrite IH; reflexivity.
Qed.

Lemma watermarked_result env text s w s' w' :
  result (watermarked env text s w) = result (watermarked env text s' w').
Proof. unfold watermarked, product_name, bind. destruct (pkg_name env); reflexivity. Qed.

(** The text with the watermark made with the product name [product]. *)
Definition with_watermark (env : Env) (product text : string) : string :=
  text +:+ nl +:+ nl +:+ "> Sent via " +:+ product +:+ nl
  +:+ "> @" +:+ pkg_author env +:+ "/" +:+ pkg_name env +:+ ".git".

(** X11: The product name in the watermark is made from the package name: the
    first character in upper case, followed by the characters up to the
    first hyphen.  When the name has no hyphen, the index of the hyphen is
    -1 and the slice drops the last character of the name instead.  When
    the name is empty there is no first character, and the watermark
    cannot be made: the error is the one of reading a property of
    [undefined]. *)
Theorem watermark_names_the_product (env : Env) (text : string) (s : Instance) (w : World) :
  (forall c pre rest,
     pkg_name env = String c (pre +:+ String "-" rest) ->
     indexOf "-" (String c pre) = None ->
     result (watermarked env text s w)
     = inr (with_watermark env (String (upper_ascii c) pre) text))
  /\ (forall c body last,
        pkg_name env = String c (body +:+ String last "") ->
        indexOf "-" (pkg_name env) = None ->
        result (watermarked env text s w)
        = inr (with_watermark env (String (upper_ascii c) body) text))
  /\ (pkg_name env = "" ->
      result (watermarked env text s w)
      = inl (Error "Cannot read properties of undefined (reading 'toUpperCase')")).
Proof.
  unfold watermarked, product_name, with_watermark, bind. split_and!.
  - intros c pre rest Hname Hnone. rewrite Hname. cbn [ret result].
    assert (Hindex : indexOf "-" (String c (pre +:+ String "-" rest))
                     = Some (S (String.length pre)))
      by (rewrite <- append_cons; apply (indexOf_app_none "-" (String c pre) rest Hnone)).
    assert (Hslice : String.substring 1 (S (String.length pre) - 1)
                       (String c (pre +:+ String "-" rest)) = pre)
      by (cbn [Nat.sub String.substring]; rewrite Nat.sub_0_r; apply substring_prefix).
    rewrite Hindex. unfold slice1. rewrite Hslice. reflexivity.
  - intros c body last Hname Hnone. rewrite Hnone, Hname. cbn [ret result].
    assert (Hslice : String.substring 1 (String.length (String c (body +:+ String last "")) - 2)
                       (String c (body +:+ String last "")) = body).
    { cbn [String.length]. rewrite length_app_one. cbn [Nat.sub String.substring].
      rewrite Nat.sub_0_r. apply substring_prefix. }
    unfold slice1. rewrite Hslice. reflexivity.
  - intros ->. reflexivity.
Qed.

(** ** What is sent and what is recorded *)

Lemma sends_cons e tr :
  sends (e :: tr)
  = match e with SockSendMessage jid c => (jid, c) :: sends tr | _ => sends tr end.
Proof. destruct e; reflexivity. Qed.

Lemma stored_cons e tr :
  stored (e :: tr) = match e with MessageCreate m => m :: stored tr | _ => stored tr end.
Proof. destruct e; reflexivity. Qed.

Lemma sends_app tr1 tr2 : sends (tr1 ++ tr2) = sends tr1 ++ sends tr2.
Proof. apply omap_app. Qed.

Lemma stored_app tr1 tr2 : stored (tr1 ++ tr2) = stored tr1 ++ stored tr2.
Proof. apply omap_app. Qed.

(** A result that is an error in every case is not a value. *)
Ltac thrown H :=
  match type of H with
  | context [match ?scrutinee with _ => _ end] => destruct scrutinee; discriminate H
  end.

Section PipelineContent.

Variable env : Env.
Context {X : Type}.
Variables (sending : Instance -> string) (prepare : M Instance X) (jid : string)
  (content : X -> Outgoing) (record : Instance -> string -> Z -> MessageData)
  (sent_data : Instance -> MessageData -> EventData)
  (done : Instance -> string) (entry answer : string)
  (failed : Instance -> string) (failure : string).

Hypothesis prepare_computes : computes prepare.

Local Abbreviation pipeline :=
  (send_pipeline env sending prepare jid content record sent_data done entry answer
                 failed failure).

(** What a connected controller with a socket sends and records, given
    the content that was prepared. *)
Lemma pipeline_sent this w socket x :
  isConnected this = true -> sock this = Some socket ->
  result (prepare this {| now := now w; issued := S (issued w) |}) = inr x ->
  let o := pipeline this w in
  let id := send_key env (1 + issued w)%nat in
  sends (emitted o) = [(jid, content x)]
  /\ stored (emitted o)
     = match fault env (1 + issued w)%nat with
       | Some _ => []
       | None => [record this id (now w)]
       end
  /\ (forall e, fault env (1 + issued w)%nat = Some e ->
        send_steps (emitted o) = [to_socket]
        /\ result o = inl (default e (fault env (3 + issued w)%nat)))
  /\ (forall r, result o = inr r -> sr_messageId r = id /\ sr_message r = answer).
Proof.
  intros Hc Hsock Hx o id. subst o id.
  rewrite (pipeline_run env sending prepare jid content record sent_data done entry answer
             failed failure prepare_computes this w Hc).
  cbv zeta. rewrite Hx, Hsock. unfold caught.
  destruct (fault env (1 + issued w)%nat) as [e|] eqn:Hsend; cbn [result state emitted].
  - split_and!.
    + reflexivity.
    + reflexivity.
    + intros e' [= <-]. split; [reflexivity|].
      cbn [now issued]. change (1 + (2 + issued w))%nat with (3 + issued w)%nat.
      destruct (fault env (3 + issued w)%nat); reflexivity.
    + intros r Hr. thrown Hr.
  - destruct (fault env (2 + issued w)%nat) as [e|]; cbn [result state emitted].
    + split_and!.
      * reflexivity.
      * reflexivity.
      * intros e' He'. discriminate.
      * intros r Hr. thrown Hr.
    + match goal with
      | |- context [triggerWebhooks env ?ev ?d ?s ?w0] =>
          set (t := triggerWebhooks env ev d s w0)
      end.
      assert (Hsends : sends (emitted t) = [] /\ stored (emitted t) = [])
        by apply sends_triggerWebhooks.
      destruct Hsends as [Hsends Hstored].
      destruct (fault env (1 + issued (world t))%nat) as [e|]; cbn [result state emitted];
        rewrite ?sends_app, ?stored_app, Hsends, Hstored; split_and!.
      * reflexivity.
      * reflexivity.
      * intros e' He'. discriminate.
      * intros r Hr. thrown Hr.
      * reflexivity.
      * reflexivity.
      * intros e' He'. discriminate.
      * intros r [= <-]. split; reflexivity.
Qed.

End PipelineContent.

(** X12: A text message sent by a connected controller with a socket, when
    the watermark can be made.  The message is handed to the socket once,
    addressed to the normalised number at [s.whatsapp.net] and carrying
    the watermark; the record written to the message store keeps the text
    as the caller gave it and the normalised number alone, with the id
    the socket answered.  When the socket rejects the message nothing is
    recorded and no webhook is asked for, and the caller gets the socket's
    error, or that of the instance log when the error entry cannot be
    written. *)
Theorem text_message_sent_then_recorded (env : Env) (this : Instance) (w : World)
    (phoneNumber messageText final : string) (socket : Sock) :
  isConnected this = true -> sock this = Some socket ->
  result (watermarked env messageText this w) = inr final ->
  let o := sendMessage env phoneNumber messageText this w in
  let number := Phone.formattedNumber phoneNumber in
  let id := send_key env (1 + issued w)%nat in
  sends (emitted o) = [(number +:+ "@s.whatsapp.net", TextMessage final)]
  /\ stored (emitted o)
     = match fault env (1 + issued w)%nat with
       | Some _ => []
       | None => [outgoing_record this number "text" messageText id false None None (now w)]
       end
  /\ (forall m, m ∈ stored (emitted o) ->
        md_content m = messageText /\ md_to m = number /\ md_messageId m = id
        /\ md_from m = inst_phone (instanceData this) /\ md_direction m = outgoing)
  /\ (forall e, fault env (1 + issued w)%nat = Some e ->
        send_steps (emitted o) = [to_socket]
        /\ result o = inl (default e (fault env (3 + issued w)%nat)))
  /\ (forall r, result o = inr r ->
        sr_messageId r = id /\ sr_message r = "Message sent successfully").
Proof.
  intros Hc Hsock Hfinal o number id. subst o number id.
  rewrite sendMessage_pipeline.
  rewrite (watermarked_result env messageText this w this
             {| now := now w; issued := S (issued w) |}) in Hfinal.
  match goal with
  | |- context [send_pipeline env ?a ?b ?c ?d ?e ?f ?g ?h ?i ?j ?k] =>
      destruct (pipeline_sent env a b c d e f g h i j k (watermarked_computes env messageText)
                  this w socket final Hc Hsock Hfinal) as (Hsends & Hstored & Hfail & Hok)
  end.
  cbv zeta in *. split_and!; [exact Hsends | exact Hstored | | exact Hfail | exact Hok].
  intros m Hm. rewrite Hstored in Hm.
  destruct (fault env (1 + issued w)%nat); [inversion Hm|].
  apply list_elem_of_singleton in Hm as ->. repeat split.
Qed.

(** A healthy controller: connected, with a socket, and nothing failing
    outside. *)
Lemma text_message_witness :
  let o := sendMessage calm "0812-3456-7" "halo" open_instance dawn in
  isConnected open_instance = true
  /\ (sends (emitted o)).*1 = ["6281234567@s.whatsapp.net"]
  /\ md_content <$> stored (emitted o) = ["halo"]
  /\ md_to <$> stored (emitted o) = ["6281234567"].
Proof.
  destruct (text_message_sent_then_recorded calm open_instance dawn "0812-3456-7" "halo"
              (with_watermark calm "Whisper" "halo")
              {| sock_user := Some "6281234567:1@s.whatsapp.net" |}
              eq_refl eq_refl eq_refl)
    as (Hsends & Hstored & _).
  cbv zeta. split_and!; [reflexivity | rewrite Hsends | rewrite Hstored | rewrite Hstored];
    reflexivity.
Defined.

Lemma prefix_refl (p : string) : String.prefix p p = true.
Proof.
  induction p as [|c p IH]; [reflexivity|]. cbn [String.prefix].
  destruct (ascii_dec c c); [exact IH | congruence].
Qed.

Lemma includes_suffix (g p : string) : Js.includes (g +:+ p) p = true.
Proof.
  induction g as [|c g IH].
  - rewrite append_empty. destruct p; cbn [Js.includes]; rewrite prefix_refl; reflexivity.
  - rewrite append_cons. cbn [Js.includes]. rewrite IH. apply orb_true_r.
Qed.

(** X13: A group message sent by a connected controller with a socket.  The
    address handed to the socket always contains [@g.us]: the id is used
    as it is when it contains the suffix and gets it appended otherwise.
    The record written to the message store is marked as a group message
    and keeps the id and the text as the caller gave them. *)
Theorem group_message_addressed_to_group (env : Env) (this : Instance) (w : World)
    (groupId messageText final : string) (socket : Sock) :
  isConnected this = true -> sock this = Some socket ->
  result (watermarked env messageText this w) = inr final ->
  let o := sendGroupMessage env groupId messageText this w in
  let jid := group_jid groupId in
  Js.includes jid "@g.us" = true
  /\ jid = (if Js.includes groupId "@g.us" then groupId else groupId +:+ "@g.us")
  /\ group_jid jid = jid
  /\ sends (emitted o) = [(jid, TextMessage final)]
  /\ (forall m, m ∈ stored (emitted o) ->
        md_to m = groupId /\ md_isGroup m = true /\ md_content m = messageText
        /\ md_messageId m = send_key env (1 + issued w)%nat)
  /\ (fault env (1 + issued w)%nat = None -> length (stored (emitted o)) = 1%nat).
Proof.
  intros Hc Hsock Hfinal o jid. subst o jid.
  assert (Hjid : Js.includes (group_jid groupId) "@g.us" = true).
  { unfold group_jid. destruct (Js.includes groupId "@g.us") eqn:H; [exact H|].
    apply includes_suffix. }
  rewrite sendGroupMessage_pipeline.
  rewrite (watermarked_result env messageText this w this
             {| now := now w; issued := S (issued w) |}) in Hfinal.
  match goal with
  | |- context [send_pipeline env ?a ?b ?c ?d ?e ?f ?g ?h ?i ?j ?k] =>
      destruct (pipeline_sent env a b c d e f g h i j k (watermarked_computes env messageText)
                  this w socket final Hc Hsock Hfinal) as (Hsends & Hstored & _ & _)
  end.
  cbv zeta in *. split_and!.
  - exact Hjid.
  - reflexivity.
  - unfold group_jid at 1. rewrite Hjid. reflexivity.
  - exact Hsends.
  - intros m Hm. rewrite Hstored in Hm.
    destruct (fault env (1 + issued w)%nat); [inversion Hm|].
    apply list_elem_of_singleton in Hm as ->. repeat split.
  - intros Hok. rewrite Hstored, Hok. reflexivity.
Qed.

Lemma group_message_witness :
  let o := sendGroupMessage calm "120363041234567890" "halo" open_instance dawn in
  isConnected open_instance = true
  /\ (sends (emitted o)).*1 = ["120363041234567890@g.us"]
  /\ length (stored (emitted o)) = 1%nat.
Proof.
  destruct (group_message_addressed_to_group calm open_instance dawn "120363041234567890"
              "halo" (with_watermark calm "Whisper" "halo")
              {| sock_user := Some "6281234567:1@s.whatsapp.net" |}
              eq_refl eq_refl eq_refl)
    as (_ & _ & _ & Hsends & _ & Hstored).
  cbv zeta. split_and!; [reflexivity | rewrite Hsends; reflexivity | exact (Hstored eq_refl)].
Defined.

(** ** Media messages *)

Definition supported_media (kind : string) : bool :=
  String.eqb kind "image" || String.eqb kind "video"
  || String.eqb kind "audio" || String.eqb kind "document".

Definition unsupported (type : string) : JsError :=
  Error ("Unsupported media type: " +:+ type
         +:+ ". Supported types: image, video, audio, document").

Section PipelineUnprepared.

Variable env : Env.
Context {X : Type}.
Variables (sending : Instance -> string) (prepare : M Instance X) (jid : string)
  (content : X -> Outgoing) (record : Instance -> string -> Z -> MessageData)
  (sent_data : Instance -> MessageData -> EventData)
  (done : Instance -> string) (entry answer : string)
  (failed : Instance -> string) (failure : string).

Hypothesis prepare_computes : computes prepare.

Lemma pipeline_unprepared this w e :
  isConnected this = true ->
  result (prepare this {| now := now w; issued := S (issued w) |}) = inl e ->
  let o := send_pipeline env sending prepare jid content record sent_data done entry answer
                         failed failure this w in
  send_steps (emitted o) = []
  /\ sends (emitted o) = [] /\ stored (emitted o) = []
  /\ result o = inl (default e (fault env (2 + issued w)%nat)).
Proof.
  intros Hc He. cbv zeta.
  rewrite (pipeline_run env sending prepare jid content record sent_data done entry answer
             failed failure prepare_computes this w Hc).
  cbv zeta. rewrite He. unfold caught. cbn [result state emitted now issued].
  split_and!; try reflexivity.
  change (1 + S (issued w))%nat with (2 + issued w)%nat.
  destruct (fault env (2 + issued w)%nat); reflexivity.
Qed.

End PipelineUnprepared.

Lemma media_content_result env mediaData s w s' w' :
  result (media_content env mediaData s w) = result (media_content env mediaData s' w').
Proof.
  assert (Hcaption : result (watermarked_caption env (media_caption mediaData) s w)
                     = result (watermarked_caption env (media_caption mediaData) s' w')).
  { unfold watermarked_caption. destruct (media_caption mediaData) as [text|]; [|reflexivity].
    destruct (Js.truthy (Some text)); [|reflexivity].
    unfold bind.
    rewrite (computes_outcome _ s w (watermarked_computes env text)),
            (computes_outcome _ s' w' (watermarked_computes env text)),
            (watermarked_result env text s w s' w').
    destruct (result (watermarked env text s' w')); reflexivity. }
  unfold media_content.
  repeat match goal with
         | |- context [if String.eqb ?a ?b then _ else _] => destruct (String.eqb a b)
         end;
    try reflexivity;
    unfold bind;
    rewrite (computes_outcome _ s w
               (watermarked_caption_computes env (media_caption mediaData))),
            (computes_outcome _ s' w'
               (watermarked_caption_computes env (media_caption mediaData))), Hcaption;
    destruct (result (watermarked_caption env (media_caption mediaData) s' w')); reflexivity.
Qed.

(** The caption a media message is sent with. *)
Definition sent_caption (env : Env) (mediaData : MediaData) (s : Instance) (w : World)
    : JsError + option string :=
  result (watermarked_caption env (media_caption mediaData) s w).

(** X14: A media message is made by the type of the media, compared without
    regard to case.  An audio message carries the fixed mime type and
    never a caption; an image, a video and a document carry the caption
    with the watermark when there is a caption, and a document without a
    file name is called [document].  Any other type is refused with an
    error naming the type as given, before anything is handed to the
    socket or written to the store.  What is recorded for a message that
    was sent is the type in lower case, the URL and the file name, and as
    content the caption as given or, without one, the type followed by
    [media]. *)
Theorem media_message_by_type (env : Env) (mediaData : MediaData) (this : Instance)
    (w : World) (phoneNumber : string) :
  let kind := toLowerCase (media_type mediaData) in
  let url := media_url mediaData in
  let made := result (media_content env mediaData this w) in
  let o := sendMediaMessage env phoneNumber mediaData this w in
  (kind = "audio" -> made = inr (AudioMessage url "audio/mp4"))
  /\ (forall caption, sent_caption env mediaData this w = inr caption ->
        (kind = "image" -> made = inr (ImageMessage url caption))
        /\ (kind = "video" -> made = inr (VideoMessage url caption))
        /\ (kind = "document" ->
            made = inr (DocumentMessage url (Js.or_else (media_filename mediaData) "document")
                                        caption)))
  /\ (Js.truthy (media_caption mediaData) = false ->
      sent_caption env mediaData this w = inr None)
  /\ (supported_media kind = false ->
      made = inl (unsupported (media_type mediaData))
      /\ (isConnected this = true ->
          sends (emitted o) = [] /\ stored (emitted o) = []
          /\ result o = inl (default (unsupported (media_type mediaData))
                                     (fault env (2 + issued w)%nat))))
  /\ (forall messageContent socket,
        made = inr messageContent -> isConnected this = true -> sock this = Some socket ->
        sends (emitted o)
        = [(Phone.formattedNumber phoneNumber +:+ "@s.whatsapp.net", messageContent)]
        /\ forall m, m ∈ stored (emitted o) ->
             md_type m = kind
             /\ md_content m = Js.or_else (media_caption mediaData)
                                          (media_type mediaData +:+ " media")
             /\ md_mediaUrl m = Some url
             /\ md_filename m = media_filename mediaData
             /\ md_to m = Phone.formattedNumber phoneNumber).
Proof.
  intros kind url made o. subst kind url made o. unfold sent_caption. split_and!.
  - intros Hkind. unfold media_content. rewrite Hkind. reflexivity.
  - intros caption Hcaption.
    assert (Hmade : forall (wrap : option string -> Outgoing),
               result ((let* c := watermarked_caption env (media_caption mediaData) in
                        ret (wrap c)) this w) = inr (wrap caption)).
    { intros wrap. unfold bind.
      rewrite (computes_outcome _ this w
                 (watermarked_caption_computes env (media_caption mediaData))), Hcaption.
      reflexivity. }
    split_and!; intros Hkind; unfold media_content; rewrite Hkind; cbn [String.eqb Ascii.eqb Bool.eqb];
      apply Hmade.
  - intros Hfalsy. unfold watermarked_caption.
    destruct (media_caption mediaData) as [text|]; [|reflexivity].
    rewrite Hfalsy. reflexivity.
  - unfold supported_media. rewrite !orb_false_iff. intros [[[H1 H2] H3] H4].
    assert (Hmade : result (media_content env mediaData this w)
                    = inl (unsupported (media_type mediaData)))
      by (unfold media_content; rewrite H1, H2, H3, H4; reflexivity).
    split; [exact Hmade|]. intros Hc.
    rewrite sendMediaMessage_pipeline.
    rewrite (media_content_result env mediaData this w this
               {| now := now w; issued := S (issued w) |}) in Hmade.
    match goal with
    | |- context [send_pipeline env ?a ?b ?c ?d ?e ?f ?g ?h ?i ?j ?k] =>
        destruct (pipeline_unprepared env a b c d e f g h i j k
                    (media_content_computes env mediaData) this w _ Hc Hmade)
          as (_ & Hsends & Hstored & Hres)
    end.
    cbv zeta in *. auto.
  - intros messageContent socket Hmade Hc Hsock.
    rewrite sendMediaMessage_pipeline.
    rewrite (media_content_result env mediaData this w this
               {| now := now w; issued := S (issued w) |}) in Hmade.
    match goal with
    | |- context [send_pipeline env ?a ?b ?c ?d ?e ?f ?g ?h ?i ?j ?k] =>
        destruct (pipeline_sent env a b c d e f g h i j k
                    (media_content_computes env mediaData) this w socket messageContent
                    Hc Hsock Hmade) as (Hsends & Hstored & _ & _)
    end.
    cbv zeta in *. split; [exact Hsends|].
    intros m Hm. rewrite Hstored in Hm.
    destruct (fault env (1 + issued w)%nat); [inversion Hm|].
    apply list_elem_of_singleton in Hm as ->. repeat split.
Qed.

(** ** Group updates *)






(** ** The welcome plugin: members who join while a flush is running *)

Module WelcomeLate.

Import Welcome WelcomeFacts.

Lemma flushing_scheduled g phase s :
  consistent s -> (g, phase) ∈ flushing s -> is_scheduled g s = true.
Proof.
  intros Hs Hin. destruct (Hs g) as [Hsum _].
  destruct (is_scheduled g s) eqn:Hsch; [reflexivity|]. exfalso.
  apply (not_flushing g phase s); [lia | exact Hin].
Qed.

(** A call of [scheduleWelcome] for a group that is already scheduled only
    appends to its pending members. *)
Lemma scheduleWelcome_scheduled g late s :
  is_scheduled g s = true ->
  scheduleWelcome g late s
  = {| groupParticipants :=
         <[g := {| items := pending_items g s ++ late; scheduled := true |}]>
           (groupParticipants s);
       timers := timers s; flushing := flushing s; calls := calls s |}.
Proof.
  unfold is_scheduled, pending_items, scheduleWelcome. intros ->. reflexivity.
Qed.

(** X16: Members who join a group while its flush waits for the group metadata
    are welcomed with the batch: the message, made when the metadata has
    arrived, mentions them after the members that were pending.  Members
    who join while the message is being sent are not welcomed at all: when
    the send settles the pending list is emptied with them in it, no timer
    is left for the group, and nothing has been sent for them; the line
    logged for a successful send counts them all the same. *)
Theorem members_joining_during_a_flush (steps : list Step) (s : State) (g : string)
    (late : list Participant) :
  run steps initial = Some s ->
  ((g, awaiting_metadata) ∈ flushing s ->
   forall members botJid,
     isAdmin members botJid = true ->
     exists s',
       run [accumulate g late; metadata_arrives g (metadata members (Some botJid))] s
       = Some s'
       /\ calls s'
          = calls s
            ++ [SockSendMessage g
                  (WelcomeMessage (formattedWelcomeText (pending_items g s ++ late))
                                  (map p_id (pending_items g s ++ late)))])
  /\ ((g, awaiting_send) ∈ flushing s ->
      forall reply,
      exists s',
        run [accumulate g late; send_settles g reply] s = Some s'
        /\ calls s'
           = calls s
             ++ [match reply with
                 | sent =>
                     Log info ("Welcomed "
                               +:+ pretty (length (pending_items g s ++ late))
                               +:+ " new members to " +:+ g)
                 | send_error e =>
                     Log error_level ("Error sending welcome message to " +:+ g
                                      +:+ ": " +:+ err_message e)
                 end]
        /\ pending_of (groupParticipants s') g = fresh
        /\ timers_for g s' = 0%nat
        /\ flushes_for g s' = 0%nat).
Proof.
  intros Hrun.
  assert (Hs : consistent s) by (eapply run_consistent; [apply initial_consistent | exact Hrun]).
  split.
  - intros Hin members botJid Hadmin.
    pose proof (flushing_scheduled g _ s Hs Hin) as Hsch.
    cbn [run step]. rewrite (scheduleWelcome_scheduled g late s Hsch).
    cbn [flushing groupParticipants calls].
    rewrite bool_decide_eq_true_2 by exact Hin.
    rewrite Hadmin. cbn [negb]. rewrite pending_of_insert. cbn [items].
    eexists. split; reflexivity.
  - intros Hin reply.
    pose proof (flushing_scheduled g _ s Hs Hin) as Hsch.
    set (s1 := scheduleWelcome g late s).
    assert (Hs1 : consistent s1)
      by (apply (step_consistent (accumulate g late) s s1 Hs); reflexivity).
    assert (Hin1 : (g, awaiting_send) ∈ flushing s1)
      by (subst s1; rewrite (scheduleWelcome_scheduled g late s Hsch); exact Hin).
    assert (Hitems : items (pending_of (groupParticipants s1) g) = pending_items g s ++ late)
      by (subst s1; rewrite (scheduleWelcome_scheduled g late s Hsch);
          cbn [groupParticipants]; rewrite pending_of_insert; reflexivity).
    assert (Hcalls : calls s1 = calls s)
      by (subst s1; rewrite (scheduleWelcome_scheduled g late s Hsch); reflexivity).
    cbn [run step]. fold s1. rewrite bool_decide_eq_true_2 by exact Hin1.
    destruct reply as [|e]; (eexists; split; [reflexivity|]).
    + destruct (finish_clears g awaiting_send
                  (Log info ("Welcomed "
                             +:+ pretty (length (items (pending_of (groupParticipants s1) g)))
                             +:+ " new members to " +:+ g)) s1 Hs1 Hin1) as (Hp & Ht & Hf).
      split_and!; [|exact Hp | exact Ht | exact Hf].
      cbn [finish calls]. rewrite Hitems, Hcalls. reflexivity.
    + destruct (finish_clears g awaiting_send
                  (Log error_level ("Error sending welcome message to " +:+ g
                                    +:+ ": " +:+ err_message e)) s1 Hs1 Hin1)
        as (Hp & Ht & Hf).
      split_and!; [|exact Hp | exact Ht | exact Hf].
      cbn [finish calls]. rewrite Hcalls. reflexivity.
Qed.

(** A flush of [G] is sending its message when two more members join. *)
Definition sending : list Step :=
  [accumulate "G" [joined "a@s.whatsapp.net" 1];
   fire "G";
   metadata_arrives "G" (metadata [{| member_id := "bot"; member_admin := Some "admin" |}]
                                  (Some "bot"))].

Definition while_sending : State := default initial (run sending initial).

Lemma members_joining_witness :
  run sending initial = Some while_sending
  /\ exists s',
       run [accumulate "G" [joined "b@s.whatsapp.net" 2; joined "c@s.whatsapp.net" 3];
            send_settles "G" sent] while_sending = Some s'
       /\ pending_of (groupParticipants s') "G" = fresh
       /\ timers_for "G" s' = 0%nat
       /\ length (calls s') = S (length (calls while_sending)).
Proof.
  assert (Hrun : run sending initial = Some while_sending) by reflexivity.
  assert (Hin : ("G", awaiting_send) ∈ flushing while_sending) by (vm_compute; left).
  destruct (members_joining_during_a_flush sending while_sending "G"
              [joined "b@s.whatsapp.net" 2; joined "c@s.whatsapp.net" 3] Hrun)
    as [_ Hsend].
  destruct (Hsend Hin sent) as (s' & Hrun' & Hcalls & Hp & Ht & _).
  split; [exact Hrun|]. exists s'. split_and!; [exact Hrun' | exact Hp | exact Ht |].
  rewrite Hcalls, length_app. cbn [length]. lia.
Defined.

End WelcomeLate.

(** ** The manager's operations on one instance *)

Lemma set_instance_same phone instance mgr :
  instances mgr !! phone = Some instance -> set_instance phone instance mgr = mgr.
Proof.
  intros H. destruct mgr as [insts init]. unfold set_instance. cbn in *.
  f_equal. apply insert_id, H.
Qed.

(** What the manager makes of an operation [m] of a controller when asked
    for it under [phone]: the not-found error and nothing else when it has
    no such controller, and otherwise what the controller does, with the
    registry left as it was. *)
Definition delegates {A} (mgr : Manager) (w : World) (phone : string)
    (op : M Manager A) (m : M Instance A) : Prop :=
  match instances mgr !! phone with
  | None => op mgr w = mkOutcome (inl (InstanceManager.NotFound phone)) mgr w []
  | Some instance =>
      op mgr w = mkOutcome (result (m instance w)) mgr (world (m instance w))
                           (emitted (m instance w))
  end.

Lemma on_instance_delegates {A} phone (m : M Instance A) mgr w instance :
  instances mgr !! phone = Some instance ->
  keeps eq m ->
  on_instance phone instance m mgr w
  = mkOutcome (result (m instance w)) mgr (world (m instance w)) (emitted (m instance w)).
Proof.
  intros Hfound Hkeeps. rewrite (on_instance_run phone instance m mgr w instance Hfound).
  rewrite <- (Hkeeps instance w), (set_instance_same phone instance mgr Hfound). reflexivity.
Qed.

(** X17: The three send operations of the manager do what those of the
    controller registered under the phone number do, and leave the
    registry as it was.  For a phone number without a controller they
    throw the not-found error, as [restartInstance] does, without any
    outside call, not even a log line. *)
Theorem manager_sends_delegate (env : Env) (mgr : Manager) (w : World)
    (phone recipientNumber groupId message : string) (mediaData : MediaData) :
  delegates mgr w phone
    (InstanceManager.sendMessage env phone recipientNumber message)
    (sendMessage env recipientNumber message)
  /\ delegates mgr w phone
       (InstanceManager.sendGroupMessage env phone groupId message)
       (sendGroupMessage env groupId message)
  /\ delegates mgr w phone
       (InstanceManager.sendMediaMessage env phone recipientNumber mediaData)
       (sendMediaMessage env recipientNumber mediaData)
  /\ (instances mgr !! phone = None ->
      restartInstance env phone mgr w
      = mkOutcome (inl (InstanceManager.NotFound phone)) mgr w []).
Proof.
  unfold delegates, InstanceManager.sendMessage, InstanceManager.sendGroupMessage,
    InstanceManager.sendMediaMessage, restartInstance.
  rewrite !bind_get.
  destruct (instances mgr !! phone) as [instance|] eqn:Hfound.
  - split_and!; [| | |discriminate]; apply on_instance_delegates; try exact Hfound.
    + apply sendMessage_keeps.
    + apply sendGroupMessage_keeps.
    + apply sendMediaMessage_keeps.
  - split_and!; reflexivity.
Qed.

(** ** After a restart *)




(** ** The manager's report *)

Lemma filter_fmap_length {A B} (f : A -> B) (p : B -> bool) (l : list A) :
  length (List.filter p (f <$> l)) = length (List.filter (fun x => p (f x)) l).
Proof.
  induction l as [|x l IH]; [reflexivity|].
  cbn [fmap list_fmap List.filter]. fold (f <$> l).
  destruct (p (f x)); cbn [length]; rewrite IH; reflexivity.
Qed.

(** X19: The report of [getManagerStatus] agrees with the registry and with
    itself.  Making it calls nothing outside and changes nothing.  It
    lists one status for each controller of the registry, made as
    [getStatus] makes it; the total is the number of statuses listed, and
    the number of connected instances is the number of listed statuses
    that say connected, which is at most the total. *)
Theorem manager_report_agrees_with_registry (mgr : Manager) (w : World) :
  exists report,
    InstanceManager.getManagerStatus mgr w = mkOutcome (inr report) mgr w []
    /\ InstanceManager.ms_initialized report = initialized mgr
    /\ InstanceManager.ms_totalInstances report
       = Z.of_nat (length (InstanceManager.ms_instances report))
    /\ InstanceManager.ms_connectedInstances report
       = Z.of_nat (length (List.filter st_isConnected (InstanceManager.ms_instances report)))
    /\ 0 <= InstanceManager.ms_connectedInstances report
       <= InstanceManager.ms_totalInstances report
    /\ (forall status,
          status ∈ InstanceManager.ms_instances report
          <-> exists phone instance,
                instances mgr !! phone = Some instance
                /\ status = status_record instance (now w))
    /\ (forall phone instance,
          instances mgr !! phone = Some instance ->
          result (getStatus instance w) = inr (status_record instance (now w))).
Proof.
  eexists. split; [reflexivity|]. cbn.
  split_and!.
  - reflexivity.
  - rewrite length_fmap, length_map_to_list. reflexivity.
  - rewrite filter_fmap_length. reflexivity.
  - lia.
  - pose proof (List.filter_length_le (fun entry : string * Instance => isConnected entry.2)
                  (map_to_list (instances mgr))) as Hle.
    rewrite length_map_to_list in Hle. lia.
  - intros status. rewrite list_elem_of_fmap. split.
    + intros ([phone instance] & -> & Hin). apply elem_of_map_to_list in Hin. eauto.
    + intros (phone & instance & Hin & ->). exists (phone, instance).
      split; [reflexivity|]. apply elem_of_map_to_list. exact Hin.
  - intros phone instance _. reflexivity.
Qed.

(** ** The group metadata cache *)

Module GroupCacheFacts.

Import GroupCache.

Section CacheFacts.

Variable env : Env.
Variable metadata_of : nat -> string -> list Welcome.Member.

(** The line logged when the metadata cannot be had. *)
Definition miss_log (jid : string) (this : Cached) (error : JsError) : Event :=
  Log error_level ("Error getting group metadata of " +:+ jid +:+ " for "
                   +:+ inst_phone (instanceData (controller this)) +:+ ": "
                   +:+ err_message error).

Lemma cachedGroupMetadata_run jid this w :
  cachedGroupMetadata env metadata_of jid this w =
  match groupMetadataCache this !! jid with
  | Some metadata => mkOutcome (inr (Some metadata)) this w []
  | None =>
      match sock (controller this) with
      | None =>
          mkOutcome (inr None) this {| now := now w; issued := S (issued w) |}
            [miss_log jid this
               (Error "Cannot read properties of null (reading 'groupMetadata')")]
      | Some _ =>
          match fault env (issued w) with
          | Some error =>
              mkOutcome (inr None) this {| now := now w; issued := S (S (issued w)) |}
                [GroupMetadata jid; miss_log jid this error]
          | None =>
              mkOutcome (inr (Some (metadata_of (issued w) jid)))
                (set_cache <[jid := metadata_of (issued w) jid]> this)
                {| now := now w; issued := S (issued w) |}
                [GroupMetadata jid]
          end
      end
  end.
Proof.
  unfold cachedGroupMetadata, miss_log. rewrite bind_get.
  destruct (groupMetadataCache this !! jid) as [metadata|]; [reflexivity|].
  destruct (sock (controller this)) as [socket|].
  - unfold try_catch, bind, position, call, modify, logger_error, emit, ret.
    cbn -[String.append].
    destruct (fault env (issued w)); reflexivity.
  - reflexivity.
Qed.

Lemma lookups_cons jid rest this w :
  lookups env metadata_of (jid :: rest) this w
  = let first := cachedGroupMetadata env metadata_of jid this w in
    let others := lookups env metadata_of rest (state first) (world first) in
    mkOutcome (result others) (state others) (world others)
              (emitted first ++ emitted others).
Proof.
  cbn [lookups]. cbv zeta. unfold bind at 1. rewrite cachedGroupMetadata_run.
  destruct (groupMetadataCache this !! jid) as [metadata|];
    [|destruct (sock (controller this)); [destruct (fault env (issued w))|]];
    cbn [result state world emitted]; destruct (lookups env metadata_of rest _ _); reflexivity.
Qed.

Lemma lookups_facts jids : forall this w,
  let o := lookups env metadata_of jids this w in
  result o = inr tt
  /\ controller (state o) = controller this
  /\ groupMetadataCache this ⊆ groupMetadataCache (state o)
  /\ (forall jid, GroupMetadata jid ∈ emitted o ->
        groupMetadataCache this !! jid = None /\ jid ∈ jids)
  /\ (forall jid, is_Some (groupMetadataCache (state o) !! jid) ->
        is_Some (groupMetadataCache this !! jid) \/ jid ∈ jids).
Proof.
  induction jids as [|jid rest IH]; intros this w.
  - cbn. split_and!; try reflexivity.
    + intros jid Hin. inversion Hin.
    + intros jid H. left. exact H.
  - cbv zeta. rewrite lookups_cons. cbv zeta. cbn [result state emitted].
    set (first := cachedGroupMetadata env metadata_of jid this w).
    destruct (IH (state first) (world first)) as (Hres & Hctl & Hsub & Hcalls & Hdom).
    assert (Hfirst : controller (state first) = controller this
                     /\ groupMetadataCache this ⊆ groupMetadataCache (state first)
                     /\ (forall g, GroupMetadata g ∈ emitted first ->
                           groupMetadataCache this !! g = None /\ g = jid)
                     /\ (forall g, is_Some (groupMetadataCache (state first) !! g) ->
                           is_Some (groupMetadataCache this !! g) \/ g = jid)).
    { subst first. rewrite cachedGroupMetadata_run.
      destruct (groupMetadataCache this !! jid) as [metadata|] eqn:Hjid;
        [|destruct (sock (controller this)) as [socket|];
          [destruct (fault env (issued w)) as [error|]|]];
        cbn [state emitted set_cache controller groupMetadataCache].
      - split_and!; [reflexivity | reflexivity | |].
        + intros g Hin. inversion Hin.
        + intros g H. left. exact H.
      - split_and!; [reflexivity | reflexivity | |].
        + intros g Hin. apply elem_of_cons in Hin as [[= ->]|Hin]; [auto|].
          apply list_elem_of_singleton in Hin. discriminate.
        + intros g H. left. exact H.
      - split_and!; [reflexivity | apply insert_subseteq, Hjid | |].
        + intros g Hin. apply list_elem_of_singleton in Hin as [= ->]. auto.
        + intros g. rewrite lookup_insert_is_Some. intros [->|[_ H]]; auto.
      - split_and!; [reflexivity | reflexivity | |].
        + intros g Hin. apply list_elem_of_singleton in Hin. discriminate.
        + intros g H. left. exact H. }
    destruct Hfirst as (Hctl1 & Hsub1 & Hcalls1 & Hdom1).
    split_and!.
    + exact Hres.
    + rewrite Hctl. exact Hctl1.
    + etransitivity; eassumption.
    + intros g Hin. apply elem_of_app in Hin as [Hin|Hin].
      * destruct (Hcalls1 g Hin) as [Hnone ->]. split; [exact Hnone | left].
      * destruct (Hcalls g Hin) as [Hnone Hrest]. split; [|right; exact Hrest].
        destruct (groupMetadataCache this !! g) as [metadata|] eqn:Hg; [|reflexivity].
        rewrite (lookup_weaken _ _ _ _ Hg Hsub1) in Hnone. discriminate.
    + intros g Hg. destruct (Hdom g Hg) as [H|H]; [|right; right; exact H].
      destruct (Hdom1 g H) as [H1| ->]; [left; exact H1 | right; left].
Qed.

End CacheFacts.

(** X20: The closure given to the socket never throws, and answers from the
    cache when it can: for a group it holds it returns what it holds,
    without a call and without a change.  For a group it does not hold it
    asks the socket once; a reply is returned and kept, and a failure
    (also that of having no socket) is logged and answered with [null],
    leaving the cache as it was, so that the next request asks again. *)
Theorem group_metadata_is_cached (env : Env)
    (metadata_of : nat -> string -> list Welcome.Member) (jid : string)
    (this : Cached) (w : World) :
  let o := cachedGroupMetadata env metadata_of jid this w in
  (exists answer, result o = inr answer)
  /\ controller (state o) = controller this
  /\ (forall metadata,
        groupMetadataCache this !! jid = Some metadata ->
        o = mkOutcome (inr (Some metadata)) this w [])
  /\ (groupMetadataCache this !! jid = None ->
      (result o = inr None -> state o = this /\ exists e, miss_log jid this e ∈ emitted o)
      /\ (forall metadata,
            result o = inr (Some metadata) ->
            emitted o = [GroupMetadata jid]
            /\ metadata = metadata_of (issued w) jid
            /\ groupMetadataCache (state o) = <[jid := metadata]> (groupMetadataCache this)
            /\ cachedGroupMetadata env metadata_of jid (state o) (world o)
               = mkOutcome (inr (Some metadata)) (state o) (world o) [])
      /\ (is_Some (sock (controller this)) -> fault env (issued w) = None ->
          result o = inr (Some (metadata_of (issued w) jid)))).
Proof.
  intros o. subst o. rewrite cachedGroupMetadata_run.
  destruct (groupMetadataCache this !! jid) as [cached|] eqn:Hjid.
  - cbn [result state emitted]. split_and!; eauto; [|discriminate].
    intros metadata [= <-]. reflexivity.
  - destruct (sock (controller this)) as [socket|];
      [destruct (fault env (issued w)) as [error|]|];
      cbn [result state world emitted set_cache controller];
      (split_and!; [eauto | reflexivity | discriminate |]); intros _; split_and!.
    + intros _. split; [reflexivity|]. exists error. right. left.
    + discriminate.
    + intros _ [=].
    + discriminate.
    + intros metadata [= <-]. split_and!; try reflexivity.
      rewrite cachedGroupMetadata_run. cbn [groupMetadataCache set_cache].
      rewrite lookup_insert_eq. reflexivity.
    + reflexivity.
    + intros _. split; [reflexivity|]. eexists. left.
    + discriminate.
    + intros [? [=]].
Qed.

(** X21: Whatever groups the socket asks for, in whatever order and whatever
    fails: the requests never throw, an entry of the cache is never
    dropped nor replaced, the socket is asked only for groups the cache
    did not hold at the start, and nothing enters the cache but groups
    that were asked for. *)
Theorem cached_groups_are_not_asked_again (env : Env)
    (metadata_of : nat -> string -> list Welcome.Member) (jids : list string)
    (this : Cached) (w : World) :
  let o := lookups env metadata_of jids this w in
  result o = inr tt
  /\ controller (state o) = controller this
  /\ groupMetadataCache this ⊆ groupMetadataCache (state o)
  /\ (forall jid, GroupMetadata jid ∈ emitted o ->
        groupMetadataCache this !! jid = None /\ jid ∈ jids)
  /\ (forall jid, is_Some (groupMetadataCache (state o) !! jid) ->
        is_Some (groupMetadataCache this !! jid) \/ jid ∈ jids).
Proof. exact (lookups_facts env metadata_of jids this w). Qed.

End GroupCacheFacts.

(** ** The manager's methods on the instance table *)

Module ManagerFacts.

Import Table.

Lemma set_instance_twice phone a b mgr :
  set_instance phone a (set_instance phone b mgr) = set_instance phone a mgr.
Proof. unfold set_instance. cbn [instances initialized]. rewrite insert_insert_eq. reflexivity. Qed.

Lemma lookup_set_instance_ne phone other i mgr :
  other <> phone -> instances (set_instance phone i mgr) !! other = instances mgr !! other.
Proof. intros H. unfold set_instance. cbn [instances]. apply lookup_insert_ne. congruence. Qed.

(** A method of a controller the manager has just registered. *)
Lemma on_controller_fresh {A} phone instance (m : M Instance A) mgr w :
  on_controller phone instance m (set_instance phone instance mgr) w
  = mkRun (result (m instance w)) (set_instance phone (state (m instance w)) mgr)
          (world (m instance w)) (outside <$> emitted (m instance w)).
Proof.
  unfold on_controller, lift.
  rewrite (on_instance_run phone instance m _ w instance (lookup_set_instance _ _ _)).
  rewrite set_instance_twice. reflexivity.
Qed.

(** A method of a controller the manager holds. *)
Lemma on_controller_held {A} phone instance (m : M Instance A) mgr w :
  instances mgr !! phone = Some instance ->
  on_controller phone instance m mgr w
  = mkRun (result (m instance w)) (set_instance phone (state (m instance w)) mgr)
          (world (m instance w)) (outside <$> emitted (m instance w)).
Proof.
  intros H. unfold on_controller, lift.
  rewrite (on_instance_run phone instance m _ w instance H). reflexivity.
Qed.

Definition creation_failed : Call := outside (Log error_level "Error creating WhatsApp instance:").

Lemma createInstance_run env answers data mgr w :
  let row := created answers (issued w) data in
  let fresh := new_WhatsAppInstance row in
  let o := initialize env fresh {| now := now w; issued := S (issued w) |} in
  let at_end := {| now := now (world o); issued := S (issued (world o)) |} in
  Registry.createInstance env answers data mgr w =
  match fault env (issued w) with
  | Some err =>
      mkRun (inl err) mgr {| now := now w; issued := S (S (issued w)) |}
            [store (Create data); creation_failed]
  | None =>
      let mgr' := set_instance (inst_phone row) (state o) mgr in
      match result o with
      | inl e =>
          mkRun (inl e) mgr' at_end
                (store (Create data) :: (outside <$> emitted o) ++ [creation_failed])
      | inr _ =>
          mkRun (inr row) mgr' at_end
                (store (Create data) :: (outside <$> emitted o)
                 ++ [outside (Log info ("WhatsApp instance created for " +:+ inst_phone row))])
      end
  end.
Proof.
  cbv zeta. unfold Registry.createInstance, attempt, andThen at 1 2 3.
  unfold at_position, ask, creation_failed. cbn [answer registry after made app].
  destruct (fault env (issued w)) as [err|].
  - reflexivity.
  - unfold andThen at 1 2. unfold update at 1. cbn [answer registry after made app].
    unfold andThen at 1. rewrite on_controller_fresh.
    destruct (initialize env _ _) as [[e|[]] s1 w1 calls1]; cbn [result state world emitted].
    + unfold log, raise, andThen. cbn. rewrite ?app_nil_r. reflexivity.
    + unfold log, pure, andThen. cbn -[String.append]. rewrite ?app_nil_r. reflexivity.
Qed.

(** Once the row is written its controller is held, whatever the start does. *)
Lemma createInstance_holds env answers data mgr w :
  let row := created answers (issued w) data in
  fault env (issued w) = None ->
  exists controller,
    instances (registry (Registry.createInstance env answers data mgr w)) !! inst_phone row
    = Some controller
    /\ instanceData controller = row
    /\ isConnected controller = false
    /\ same_policy (new_WhatsAppInstance row) controller.
Proof.
  cbv zeta. intros Hfault. rewrite createInstance_run. cbv zeta. rewrite Hfault.
  set (row := created answers (issued w) data).
  set (w1 := {| now := now w; issued := S (issued w) |}).
  pose proof (initialize_settles env (new_WhatsAppInstance row) w1)
    as (_ & Hdata & Hconn & _ & Hpolicy & _).
  cbv zeta in *.
  exists (state (initialize env (new_WhatsAppInstance row) w1)).
  destruct (result (initialize env (new_WhatsAppInstance row) w1)) as [e|[]];
    cbn [registry]; rewrite lookup_set_instance;
    (split_and!; [reflexivity | exact Hdata | exact Hconn | exact Hpolicy]).
Qed.

(** X22: [createInstance] writes the row first; when that write fails nothing
    is registered.  Otherwise the controller made from the row the table
    returned is registered under the phone number of that row before it is
    started, in the place of any controller held under that number, and it
    stays registered when the start throws.  The other phone numbers keep
    their controllers.  What is returned is the row of the table; what is
    thrown has been logged last. *)
Theorem createInstance_registers_before_starting (env : Env) (answers : Answers)
    (data : InstanceData) (mgr : Manager) (w : World) :
  let run := Registry.createInstance env answers data mgr w in
  let row := created answers (issued w) data in
  (forall other, other <> inst_phone row ->
     instances (registry run) !! other = instances mgr !! other)
  /\ initialized (registry run) = initialized mgr
  /\ head (made run) = Some (store (Create data))
  /\ match fault env (issued w) with
     | Some err => answer run = inl err /\ registry run = mgr
     | None =>
         (exists controller,
            instances (registry run) !! inst_phone row = Some controller
            /\ instanceData controller = row
            /\ isConnected controller = false
            /\ same_policy (new_WhatsAppInstance row) controller)
         /\ forall r, answer run = inr r -> r = row
     end
  /\ (forall e, answer run = inl e -> last (made run) = Some creation_failed).
Proof.
  cbv zeta. pose proof (createInstance_holds env answers data mgr w) as Hheld.
  cbv zeta in Hheld. rewrite createInstance_run in *. cbv zeta in *.
  destruct (fault env (issued w)) as [err|].
  - cbn [answer registry made]. split_and!; reflexivity.
  - specialize (Hheld eq_refl).
    destruct (result (initialize env _ _)) as [e|[]]; cbn [answer registry made head] in *.
    + split; [intros other H; apply lookup_set_instance_ne, H|].
      split; [reflexivity|]. split; [reflexivity|].
      split; [split; [exact Hheld | discriminate]|].
      intros _ _. rewrite app_comm_cons. apply last_snoc.
    + split; [intros other H; apply lookup_set_instance_ne, H|].
      split; [reflexivity|]. split; [reflexivity|].
      split; [split; [exact Hheld | congruence]|].
      discriminate.
Qed.

(** *** Deleting an instance *)

Definition deleted : Registry.DeleteResult :=
  {| Registry.dr_success := true; Registry.dr_message := "Instance deleted successfully" |}.

Definition deletion_failed (phone : string) : Call :=
  outside (Log error_level ("Error deleting WhatsApp instance " +:+ phone +:+ ":")).

(** What [deleteInstance] does once the controller is out of the way. *)
Definition forget (env : Env) (answers : Answers) (phone : string) : Task Registry.DeleteResult :=
  (let* n := at_position in
   ask env (FindByPhone phone) ;;
   match found_by_phone answers n phone with
   | Some dbInstance => ask env (Delete (inst_id dbInstance))
   | None => pure tt
   end ;;
   let* there := existsSync answers phone in
   (if there then ask env (RemoveAuthDir phone) else pure tt) ;;
   log info ("WhatsApp instance deleted for " +:+ phone) ;;
   pure {| Registry.dr_success := true;
           Registry.dr_message := "Instance deleted successfully" |})%task.

(** A [catch] block that logs one line and throws the error again. *)
Definition reported {A} (failure : Call) (t : Run A) : Run A :=
  match answer t with
  | inl e => mkRun (inl e) (registry t)
                   {| now := now (after t); issued := S (issued (after t)) |}
                   (made t ++ [failure])
  | inr _ => t
  end.

Lemma attempt_reported {A} (body : Task A) level text s w :
  attempt body (fun error => andThen (log level text) (fun _ => raise error)) s w
  = reported (outside (Log level text)) (body s w).
Proof.
  unfold attempt, reported. destruct (body s w) as [[e|a] s1 w1 calls1]; [|reflexivity].
  unfold andThen, log, raise. cbn. reflexivity.
Qed.

Lemma deleteInstance_run env answers phone mgr w :
  Registry.deleteInstance env answers phone mgr w
  = reported (deletion_failed phone)
      match instances mgr !! phone with
      | None => forget env answers phone mgr w
      | Some c =>
          let o := disconnect env c w in
          match result o with
          | inl e => mkRun (inl e) (set_instance phone (state o) mgr) (world o)
                           (outside <$> emitted o)
          | inr _ =>
              let t := forget env answers phone
                         (delete_instance phone (set_instance phone (state o) mgr))
                         (world o) in
              mkRun (answer t) (registry t) (after t) ((outside <$> emitted o) ++ made t)
          end
      end.
Proof.
  unfold Registry.deleteInstance. rewrite attempt_reported. f_equal.
  fold (forget env answers phone).
  unfold andThen at 1. unfold this_manager at 1. cbn [answer registry after made app].
  destruct (instances mgr !! phone) as [c|] eqn:Hheld.
  - unfold andThen at 1 2. rewrite (on_controller_held phone c _ mgr w Hheld).
    destruct (disconnect env c w) as [[e|[]] s1 w1 calls1]; cbn [result state world emitted].
    + reflexivity.
    + unfold update. cbn [answer registry after made]. rewrite app_nil_r.
      destruct (forget env answers phone _ w1) as [r s2 w2 calls2]. reflexivity.
  - unfold andThen at 1. unfold pure at 1. cbn [answer registry after made app].
    destruct (forget env answers phone mgr w) as [r s2 w2 calls2]. reflexivity.
Qed.

(** Membership in a list that is written out. *)
Ltac among H :=
  repeat match type of H with
         | _ ∈ _ :: _ =>
             apply elem_of_cons in H as [H|H];
             [ first [ discriminate H | injection H as H; try (symmetry; exact H); try exact H ] | ]
         | _ ∈ [] => apply elem_of_nil in H; contradiction
         end.

Ltac listed := repeat first [ apply list_elem_of_here | apply list_elem_of_further ].

Ltac forget_done :=
  split_and!;
  [ reflexivity
  | reflexivity
  | intros id Hin; try (eexists; split; [reflexivity|]); among Hin
  | intros p Hin; among Hin
  | intros e Hin; among Hin
  | intros r Hr;
    first [ discriminate Hr
          | injection Hr as <-; split; [reflexivity|];
            intros row' Hrow;
            first [ discriminate Hrow | injection Hrow as <-; listed ] ] ].

Lemma forget_spec env answers phone s w :
  let t := forget env answers phone s w in
  registry t = s
  /\ head (made t) = Some (store (FindByPhone phone))
  /\ (forall id, store (Delete id) ∈ made t ->
      exists row, found_by_phone answers (issued w) phone = Some row /\ inst_id row = id)
  /\ (forall p, store (RemoveAuthDir p) ∈ made t -> p = phone)
  /\ (forall e, outside e ∈ made t ->
      e = Log info ("WhatsApp instance deleted for " +:+ phone))
  /\ (forall r, answer t = inr r ->
      r = deleted
      /\ forall row, found_by_phone answers (issued w) phone = Some row ->
                     store (Delete (inst_id row)) ∈ made t).
Proof.
  cbv zeta. unfold forget, andThen, at_position, ask, existsSync, log, pure.
  cbn [answer registry after made app issued now].
  destruct (fault env (issued w)); cbn [answer registry after made app issued now].
  { forget_done. }
  destruct (found_by_phone answers (issued w) phone) as [row|];
    cbn [answer registry after made app issued now].
  - destruct (fault env (S (issued w))); cbn [answer registry after made app issued now].
    { forget_done. }
    destruct (auth_dir_exists answers _ phone); cbn [answer registry after made app issued now].
    + destruct (fault env _); cbn -[String.append]; forget_done.
    + cbn -[String.append]. forget_done.
  - destruct (auth_dir_exists answers _ phone); cbn [answer registry after made app issued now].
    + destruct (fault env _); cbn -[String.append]; forget_done.
    + cbn -[String.append]. forget_done.
Qed.

Lemma reported_registry {A} failure (t : Run A) : registry (reported failure t) = registry t.
Proof. unfold reported. destruct (answer t); reflexivity. Qed.

Lemma reported_answer {A} failure (t : Run A) : answer (reported failure t) = answer t.
Proof. unfold reported. destruct (answer t) eqn:H; [reflexivity | exact H]. Qed.

Lemma reported_made {A} failure (t : Run A) :
  made (reported failure t)
  = made t ++ match answer t with inl _ => [failure] | inr _ => [] end.
Proof. unfold reported. destruct (answer t); [reflexivity | symmetry; apply app_nil_r]. Qed.


Lemma reported_last {A} failure (t : Run A) e :
  answer (reported failure t) = inl e -> last (made (reported failure t)) = Some failure.
Proof.
  rewrite reported_answer, reported_made. intros ->. apply last_snoc.
Qed.

Lemma lookup_delete_instance phone mgr : instances (delete_instance phone mgr) !! phone = None.
Proof. unfold delete_instance. cbn [instances]. apply lookup_delete_eq. Qed.

Lemma lookup_delete_instance_ne phone other mgr :
  other <> phone -> instances (delete_instance phone mgr) !! other = instances mgr !! other.
Proof. intros H. unfold delete_instance. cbn [instances]. apply lookup_delete_ne. congruence. Qed.

(** A deletion that returns leaves no controller under the phone number. *)
Lemma deleteInstance_forgets env answers phone mgr w r :
  answer (Registry.deleteInstance env answers phone mgr w) = inr r ->
  instances (registry (Registry.deleteInstance env answers phone mgr w)) !! phone = None.
Proof.
  rewrite deleteInstance_run, reported_answer, reported_registry.
  destruct (instances mgr !! phone) as [c|] eqn:Hheld; cbv zeta.
  - destruct (result (disconnect env c w)); cbn [answer registry]; [discriminate|].
    intros _. rewrite (proj1 (forget_spec env answers phone _ _)).
    apply lookup_delete_instance.
  - intros _. rewrite (proj1 (forget_spec env answers phone _ _)). exact Hheld.
Qed.



(** *** Starting the manager *)

(** What [initialize] of the manager does with one row of the table. *)
Definition revive (env : Env) (instanceData : InstanceData) : Task unit :=
  (let instance := new_WhatsAppInstance instanceData in
   update (set_instance (inst_phone instanceData) instance) ;;
   if was_running instanceData
   then on_controller (inst_phone instanceData) instance (initialize env)
   else pure tt)%task.

Definition start_failed : Call :=
  outside (Log error_level "Error initializing WhatsApp Instance Manager:").

Definition opening : list Call :=
  [outside (Log info "Initializing WhatsApp Instance Manager..."); store FindAll].

Definition started (rows : list InstanceData) : Call :=
  outside (Log info ("WhatsApp Instance Manager initialized with "
                     +:+ pretty (length rows) +:+ " instances")).

Lemma manager_initialize_run env answers mgr w :
  let rows := found_all answers (S (issued w)) in
  Registry.initialize env answers mgr w
  = reported start_failed
      match fault env (S (issued w)) with
      | Some e => mkRun (inl e) mgr {| now := now w; issued := S (S (issued w)) |} opening
      | None =>
          let loop := each rows (revive env) mgr
                           {| now := now w; issued := S (S (issued w)) |} in
          match answer loop with
          | inl e => mkRun (inl e) (registry loop) (after loop) (opening ++ made loop)
          | inr _ =>
              mkRun (inr tt) (set_initialized true (registry loop))
                    {| now := now (after loop); issued := S (issued (after loop)) |}
                    (opening ++ made loop ++ [started rows])
          end
      end.
Proof.
  cbv zeta. unfold Registry.initialize. rewrite attempt_reported. f_equal.
  fold (revive env). unfold andThen at 1 2 3. unfold log at 1, at_position, ask.
  cbn [answer registry after made app issued now].
  destruct (fault env (S (issued w))) as [e|]; [reflexivity|].
  unfold andThen at 1.
  destruct (each _ (revive env) mgr _) as [[e|[]] s1 w1 calls1];
    cbn [answer registry after made]; [reflexivity|].
  unfold andThen, update, log, started. cbn -[String.append pretty]. reflexivity.
Qed.

Lemma revive_run env row mgr w :
  let fresh := new_WhatsAppInstance row in
  let o := initialize env fresh w in
  revive env row mgr w
  = if was_running row
    then mkRun (result o) (set_instance (inst_phone row) (state o) mgr) (world o)
               (outside <$> emitted o)
    else mkRun (inr tt) (set_instance (inst_phone row) fresh mgr) w [].
Proof.
  cbv zeta. unfold revive, andThen at 1, update at 1.
  cbn [answer registry after made app].
  destruct (was_running row).
  - rewrite on_controller_fresh.
    destruct (initialize env _ w) as [r s1 w1 calls1]. reflexivity.
  - reflexivity.
Qed.


Lemma revive_spec env row mgr w :
  let t := revive env row mgr w in
  exists c,
    registry t = set_instance (inst_phone row) c mgr
    /\ instanceData c = row
    /\ (was_running row = false -> c = new_WhatsAppInstance row)
    /\ forall call, store call ∉ made t.
Proof.
  cbv zeta. rewrite revive_run. cbv zeta.
  pose proof (initialize_settles env (new_WhatsAppInstance row) w) as (_ & Hdata & _).
  destruct (was_running row); cbn [registry made].
  - eexists. split_and!; [reflexivity | exact Hdata | discriminate |].
    intros call H. apply list_elem_of_fmap in H as (ev & [=] & _).
  - eexists. split_and!; [reflexivity | reflexivity | reflexivity |].
    intros call H. among H.
Qed.

Lemma each_cons {X} (x : X) rest (body : X -> Task unit) s w :
  each (x :: rest) body s w
  = match body x s w with
    | mkRun (inl e) s1 w1 calls1 => mkRun (inl e) s1 w1 calls1
    | mkRun (inr _) s1 w1 calls1 =>
        mkRun (answer (each rest body s1 w1)) (registry (each rest body s1 w1))
              (after (each rest body s1 w1)) (calls1 ++ made (each rest body s1 w1))
    end.
Proof.
  cbn [each]. unfold andThen. destruct (body x s w) as [[e|a] s1 w1 calls1]; [reflexivity|].
  destruct (each rest body s1 w1). reflexivity.
Qed.



(** *** The status of one phone number *)

(** The status made from a row of the table. *)
Definition offline (row : InstanceData) (timestamp : Z) : Status :=
  {| st_instanceId := inst_id row; st_phone := inst_phone row; st_name := inst_name row;
     st_alias := inst_alias row; st_isConnected := false;
     st_connectionStatus := disconnected; st_qrCode := None;
     st_reconnectAttempts := None; st_timestamp := timestamp |}.

Lemma getInstanceByPhone_run env answers phone mgr w :
  Registry.getInstanceByPhone env answers phone mgr w
  = match instances mgr !! phone with
    | Some c => mkRun (inr (Some (status_record c (now w)))) mgr w []
    | None =>
        mkRun (match fault env (issued w) with
               | Some e => inl e
               | None => inr ((fun row => offline row (now w))
                                <$> found_by_phone answers (issued w) phone)
               end)
              mgr {| now := now w; issued := S (issued w) |} [store (FindByPhone phone)]
    end.
Proof.
  unfold Registry.getInstanceByPhone, andThen at 1, this_manager.
  cbn [answer registry after made app].
  destruct (instances mgr !! phone) as [c|] eqn:Hheld.
  - unfold andThen. rewrite (on_controller_held phone c _ mgr w Hheld).
    unfold getStatus, bind, get, date_now, ret, pure.
    cbn [result state world emitted answer registry after made app fmap list_fmap].
    rewrite (set_instance_same phone c mgr Hheld). reflexivity.
  - unfold andThen, at_position, ask, clock, pure, offline.
    cbn [answer registry after made app now issued].
    destruct (fault env (issued w)); [reflexivity|].
    cbn [answer registry after made app now issued].
    destruct (found_by_phone answers (issued w) phone); reflexivity.
Qed.

(** X25: [getInstanceByPhone] never changes the registry, and asks the table
    only for a phone number the manager holds no controller of: a held
    number is answered with the status of its controller and no call.  So,
    once [createInstance] has written the row, the status of the phone
    number of that row is that of its controller, with the id of the row,
    not connected, and the table is not asked, whether or not the start
    threw.  And once [deleteInstance] has returned, the status of the
    phone number comes from the table: it is asked once, and whatever row
    it still answers is reported disconnected, without a reconnection
    count. *)
Theorem status_after_create_and_delete (env env' : Env) (answers answers' : Answers)
    (data : InstanceData) (phone : string) (mgr : Manager) (w w' : World) :
  let status_of p m := Registry.getInstanceByPhone env' answers' p m w' in
  (forall p m, registry (status_of p m) = m)
  /\ (forall p m c, instances m !! p = Some c ->
      made (status_of p m) = []
      /\ answer (status_of p m) = inr (Some (status_record c (now w'))))
  /\ (forall p m, instances m !! p = None ->
      made (status_of p m) = [store (FindByPhone p)])
  /\ (let creation := Registry.createInstance env answers data mgr w in
      let row := created answers (issued w) data in
      fault env (issued w) = None ->
      made (status_of (inst_phone row) (registry creation)) = []
      /\ exists status,
           answer (status_of (inst_phone row) (registry creation)) = inr (Some status)
           /\ st_instanceId status = inst_id row
           /\ st_phone status = inst_phone row
           /\ st_isConnected status = false
           /\ st_timestamp status = now w')
  /\ (let gone := Registry.deleteInstance env answers phone mgr w in
      forall r, answer gone = inr r ->
      made (status_of phone (registry gone)) = [store (FindByPhone phone)]
      /\ forall status, answer (status_of phone (registry gone)) = inr (Some status) ->
           st_isConnected status = false
           /\ st_connectionStatus status = disconnected
           /\ st_reconnectAttempts status = None).
Proof.
  cbv zeta. split_and!.
  - intros p m. rewrite getInstanceByPhone_run. destruct (instances m !! p); reflexivity.
  - intros p m c H. rewrite getInstanceByPhone_run, H. split; reflexivity.
  - intros p m H. rewrite getInstanceByPhone_run, H. reflexivity.
  - intros Hfault.
    pose proof (createInstance_holds env answers data mgr w) as Hheld.
    cbv zeta in Hheld. destruct (Hheld Hfault) as (c & Hc & Hdata & Hconn & _).
    rewrite getInstanceByPhone_run, Hc. cbn [made answer]. split; [reflexivity|].
    eexists. split; [reflexivity|]. unfold status_record.
    cbn [st_instanceId st_phone st_isConnected st_timestamp].
    rewrite Hdata. split_and!; [reflexivity | reflexivity | exact Hconn | reflexivity].
  - intros r Hr.
    pose proof (deleteInstance_forgets env answers phone mgr w r Hr) as Hnone.
    rewrite getInstanceByPhone_run, Hnone. cbn [made answer]. split; [reflexivity|].
    intros status H. destruct (fault env' (issued w')); [discriminate|].
    destruct (found_by_phone answers' (issued w') phone) as [row|]; [|discriminate].
    cbn [fmap option_fmap option_map] in H. injection H as <-.
    split_and!; reflexivity.
Qed.

(** *** The keys of the registry *)

(** Every controller is held under the phone number of its own row. *)
Definition keyed (mgr : Manager) : Prop :=
  forall phone c, instances mgr !! phone = Some c -> inst_phone (instanceData c) = phone.

Lemma keyed_set_instance phone c mgr :
  inst_phone (instanceData c) = phone -> keyed mgr -> keyed (set_instance phone c mgr).
Proof.
  intros Hc Hkeyed p c' H. destruct (decide (p = phone)) as [->|Hne].
  - rewrite lookup_set_instance in H. injection H as <-. exact Hc.
  - rewrite lookup_set_instance_ne in H by exact Hne. apply Hkeyed, H.
Qed.

Lemma keyed_delete_instance phone mgr : keyed mgr -> keyed (delete_instance phone mgr).
Proof.
  intros Hkeyed p c H. destruct (decide (p = phone)) as [->|Hne].
  - rewrite lookup_delete_instance in H. discriminate.
  - rewrite lookup_delete_instance_ne in H by exact Hne. apply Hkeyed, H.
Qed.

Lemma each_revive_keyed env rows : forall mgr w,
  keyed mgr -> keyed (registry (each rows (revive env) mgr w)).
Proof.
  induction rows as [|row rest IH]; intros mgr w Hkeyed; [exact Hkeyed|].
  rewrite each_cons.
  pose proof (revive_spec env row mgr w) as (c & Hreg & Hdata & _). cbv zeta in Hreg.
  assert (Hnext : keyed (registry (revive env row mgr w))).
  { rewrite Hreg. apply keyed_set_instance; [rewrite Hdata; reflexivity | exact Hkeyed]. }
  destruct (revive env row mgr w) as [[e|[]] s1 w1 calls1]; cbn [registry] in *.
  - exact Hnext.
  - apply IH, Hnext.
Qed.

Lemma close_state_data env this w : instanceData (state (close env this w)) = instanceData this.
Proof. destruct (close_run env this w) as (calls & w' & -> & _). reflexivity. Qed.

(** X26: The manager keeps its controllers under their own phone numbers:
    starting the manager, creating, deleting and restarting an instance
    all leave a registry in which every controller is held under the phone
    number of its row.  So every status [getAllInstances] lists carries a
    phone number the manager holds a controller of. *)
Theorem registry_stays_keyed (env : Env) (answers : Answers) (mgr : Manager) (w : World)
    (Hkeyed : keyed mgr) :
  keyed (registry (Registry.initialize env answers mgr w))
  /\ (forall data, keyed (registry (Registry.createInstance env answers data mgr w)))
  /\ (forall phone, keyed (registry (Registry.deleteInstance env answers phone mgr w)))
  /\ (forall phone, keyed (state (restartInstance env phone mgr w)))
  /\ (forall statuses, result (InstanceManager.getAllInstances mgr w) = inr statuses ->
      forall status, status ∈ statuses -> is_Some (instances mgr !! st_phone status)).
Proof.
  split_and!.
  - rewrite manager_initialize_run. cbv zeta. rewrite reported_registry.
    destruct (fault env (S (issued w))); [exact Hkeyed|].
    pose proof (each_revive_keyed env (found_all answers (S (issued w))) mgr
                  {| now := now w; issued := S (S (issued w)) |} Hkeyed) as Hloop.
    destruct (answer (each _ (revive env) mgr _)); cbn [registry]; exact Hloop.
  - intros data. rewrite createInstance_run. cbv zeta.
    destruct (fault env (issued w)); [exact Hkeyed|].
    set (row := created answers (issued w) data).
    pose proof (initialize_settles env (new_WhatsAppInstance row)
                  {| now := now w; issued := S (issued w) |}) as (_ & Hdata & _).
    cbv zeta in Hdata.
    destruct (result (initialize env _ _)); cbn [registry];
      (apply keyed_set_instance; [rewrite Hdata; reflexivity | exact Hkeyed]).
  - intros phone. rewrite deleteInstance_run, reported_registry.
    destruct (instances mgr !! phone) as [c|] eqn:Hheld; cbv zeta.
    + assert (Hset : keyed (set_instance phone (state (disconnect env c w)) mgr)).
      { apply keyed_set_instance; [|exact Hkeyed].
        rewrite disconnect_run. cbv zeta. cbn [state]. apply (Hkeyed phone c Hheld). }
      destruct (result (disconnect env c w)); cbn [registry]; [exact Hset|].
      rewrite (proj1 (forget_spec env answers phone _ _)).
      apply keyed_delete_instance, Hset.
    + rewrite (proj1 (forget_spec env answers phone _ _)). exact Hkeyed.
  - intros phone. destruct (instances mgr !! phone) as [c|] eqn:Hheld.
    + rewrite (restartInstance_run env phone mgr w c Hheld). cbv zeta. cbn [state].
      pose proof (Hkeyed phone c Hheld) as Hc.
      set (flagged := set_isManualRestart true c).
      pose proof (close_state_data env flagged w) as Hclose.
      pose proof (initialize_settles env (state (close env flagged w))
                    {| now := now (world (close env flagged w));
                       issued := S (issued (world (close env flagged w))) |})
        as (_ & Hdata & _).
      cbv zeta in Hdata.
      repeat apply keyed_set_instance; try exact Hkeyed.
      * rewrite Hdata, Hclose. exact Hc.
      * rewrite Hclose. exact Hc.
      * exact Hc.
    + unfold restartInstance. rewrite bind_get, Hheld. exact Hkeyed.
  - intros statuses H status Hin.
    unfold InstanceManager.getAllInstances, bind, get, date_now, ret in H.
    cbn [result] in H. injection H as <-.
    apply list_elem_of_fmap in Hin as ([phone c] & -> & Hin).
    apply elem_of_map_to_list in Hin. cbn [snd status_record st_phone].
    rewrite (Hkeyed phone c Hin), Hin. eauto.
Qed.

Definition empty_table : Answers :=
  {| found_all := fun _ => [];
     created := fun _ data => data;
     found_by_phone := fun _ _ => None;
     auth_dir_exists := fun _ _ => false |}.

Lemma registry_stays_keyed_witness :
  keyed one_instance
  /\ keyed (registry (Registry.deleteInstance calm empty_table "6281234567" one_instance dawn)).
Proof.
  assert (Hkeyed : keyed one_instance).
  { intros phone c H. unfold one_instance in H. cbn [instances] in H.
    apply lookup_singleton_Some in H as [<- <-]. reflexivity. }
  split; [exact Hkeyed|].
  apply (registry_stays_keyed calm empty_table one_instance dawn Hkeyed).
Defined.

End ManagerFacts.

(** ** The status in memory and the status written to the table *)

(** The status the table is asked to hold for a connection status. *)
Definition persisted (status : ConnectionStatus) : option DbStatus :=
  match status with
  | qr_ready => Some db_qr_ready
  | reconnecting => Some db_reconnecting
  | logged_out => Some db_inactive
  | connected => Some db_active
  | connecting => Some db_connecting
  | disconnected | error_status => None
  end.

Definition status_write (e : Event) : option (string * DbStatus) :=
  match e with
  | UpdateStatus id status => Some (id, status)
  | _ => None
  end.

(** The status writes among the calls, first write first. *)
Definition status_writes (calls : list Event) : list (string * DbStatus) :=
  omap status_write calls.

Lemma status_writes_app calls calls' :
  status_writes (calls ++ calls') = status_writes calls ++ status_writes calls'.
Proof. apply omap_app. Qed.

Lemma status_writes_none calls :
  Forall (fun e => status_write e = None) calls -> status_writes calls = [].
Proof.
  induction 1 as [|e calls He _ IH]; [reflexivity|].
  unfold status_writes in *. cbn [omap list_omap]. rewrite He. exact IH.
Qed.

Section StatusFacts.

Variable env : Env.
Variable loggedOut : Z.

Lemma triggerWebhooks_writes event data this w :
  status_writes (emitted (triggerWebhooks env event data this w)) = [].
Proof.
  apply status_writes_none.
  apply (triggerWebhooks_emits env (fun e => status_write e = None) event data).
  split; intros; reflexivity.
Qed.

(** One block of the handler: it writes one status, that of the
    connection status it leaves, whether or not the write fails. *)
Definition writes_its_status {A} (m : M Instance A) : Prop :=
  forall this w,
    instanceData (state (m this w)) = instanceData this
    /\ exists status,
         persisted (connectionStatus (state (m this w))) = Some status
         /\ status_writes (emitted (m this w)) = [(inst_id (instanceData this), status)].

Lemma on_open_writes : writes_its_status (on_open env).
Proof.
  intros this w. rewrite on_open_run.
  destruct (fault env (1 + issued w)%nat); cbv zeta; cbn [state emitted].
  - split; [reflexivity|]. exists db_active. split; reflexivity.
  - split; [reflexivity|]. exists db_active. split; [reflexivity|].
    rewrite status_writes_app, triggerWebhooks_writes. reflexivity.
Qed.

Lemma on_close_writes update : writes_its_status (on_close env loggedOut update).
Proof.
  intros this w. unfold on_close. rewrite bind_get.
  destruct (shouldReconnect loggedOut update
            && (reconnectAttempts this <? maxReconnectAttempts this)
            && negb (isManualRestart this)).
  - rewrite on_close_reconnect_run.
    destruct (fault env (1 + issued w)%nat); cbv zeta; cbn [state emitted].
    + split; [reflexivity|]. exists db_reconnecting. split; reflexivity.
    + split; [reflexivity|]. exists db_reconnecting. split; [reflexivity|].
      rewrite !status_writes_app, triggerWebhooks_writes. reflexivity.
  - rewrite on_close_logout_run. unfold after_logout, logout_log.
    destruct (fault env (1 + issued w)%nat); cbv zeta; cbn [state emitted];
      (split; [destruct (isManualRestart this); reflexivity|]);
      exists db_inactive; (split; [reflexivity|]);
      rewrite ?status_writes_app, ?triggerWebhooks_writes;
      destruct (isManualRestart this); reflexivity.
Qed.

Lemma on_connecting_writes : writes_its_status (on_connecting env).
Proof.
  intros this w. unfold on_connecting, updateStatus.
  unfold bind, get, modify, date_now, logger_info, emit, call.
  cbn -[triggerWebhooks String.append].
  destruct (fault env (S (issued w))) as [e|]; cbn -[triggerWebhooks String.append].
  - split; [reflexivity|]. exists db_connecting. split; reflexivity.
  - match goal with
    | |- context [triggerWebhooks env ?ev ?d ?s ?w0] =>
        pose proof (triggerWebhooks_writes ev d s w0) as Hw;
        destruct (triggerWebhooks_outcome env ev d s w0) as (w' & calls & Ht);
        rewrite Ht in Hw |- *
    end.
    cbn [state emitted] in *. split; [reflexivity|]. exists db_connecting.
    split; [reflexivity|].
    change (status_writes (?a :: ?b :: calls)) with (status_writes ([a; b] ++ calls)).
    rewrite status_writes_app, Hw. reflexivity.
Qed.

Lemma on_qr_writes code : writes_its_status (on_qr env code).
Proof.
  intros this w. unfold on_qr, updateStatus.
  unfold bind, get, modify, date_now, logger_info, emit, call, ret.
  destruct (is_development env); cbn -[triggerWebhooks String.append].
  - destruct (fault env (S (S (issued w)))) as [e|]; cbn -[triggerWebhooks String.append].
    + split; [reflexivity|]. exists db_qr_ready. split; reflexivity.
    + match goal with
      | |- context [triggerWebhooks env ?ev ?d ?s ?w0] =>
          pose proof (triggerWebhooks_writes ev d s w0) as Hw;
          destruct (triggerWebhooks_outcome env ev d s w0) as (w' & calls & Ht);
          rewrite Ht in Hw |- *
      end.
      cbn [state emitted] in *. split; [reflexivity|]. exists db_qr_ready.
      split; [reflexivity|].
      change (status_writes (?a :: ?b :: ?c :: calls))
        with (status_writes ([a; b; c] ++ calls)).
      rewrite status_writes_app, Hw. reflexivity.
  - destruct (fault env (S (issued w))) as [e|]; cbn -[triggerWebhooks String.append].
    + split; [reflexivity|]. exists db_qr_ready. split; reflexivity.
    + match goal with
      | |- context [triggerWebhooks env ?ev ?d ?s ?w0] =>
          pose proof (triggerWebhooks_writes ev d s w0) as Hw;
          destruct (triggerWebhooks_outcome env ev d s w0) as (w' & calls & Ht);
          rewrite Ht in Hw |- *
      end.
      cbn [state emitted] in *. split; [reflexivity|]. exists db_qr_ready.
      split; [reflexivity|].
      change (status_writes (?a :: ?b :: calls)) with (status_writes ([a; b] ++ calls)).
      rewrite status_writes_app, Hw. reflexivity.
Qed.

(** A computation in step: the instance row is kept, every status is
    written under the id of the row, and the connection status it leaves
    is the one it wrote last, or the one it found when it wrote none. *)
Definition in_step {A} (m : M Instance A) : Prop :=
  forall this w,
    instanceData (state (m this w)) = instanceData this
    /\ Forall (fun write => write.1 = inst_id (instanceData this))
              (status_writes (emitted (m this w)))
    /\ match last (status_writes (emitted (m this w))) with
       | Some write => persisted (connectionStatus (state (m this w))) = Some write.2
       | None => connectionStatus (state (m this w)) = connectionStatus this
       end.

Lemma emitted_bind {A B} (m : M Instance A) (k : A -> M Instance B) s w :
  emitted (bind m k s w)
  = emitted (m s w)
    ++ match result (m s w) with
       | inr a => emitted (k a (state (m s w)) (world (m s w)))
       | inl _ => []
       end.
Proof.
  destruct (result (m s w)) as [e|a] eqn:Hr.
  - rewrite (bind_inl _ _ _ _ _ Hr). cbn [emitted]. symmetry. apply app_nil_r.
  - rewrite (bind_inr _ _ _ _ _ Hr). reflexivity.
Qed.

Lemma in_step_bind {A B} (m : M Instance A) (k : A -> M Instance B) :
  in_step m -> (forall a, in_step (k a)) -> in_step (bind m k).
Proof.
  intros Hm Hk this w. destruct (Hm this w) as (Hdata & Hids & Hlast).
  destruct (result (m this w)) as [e|a] eqn:Hr.
  - rewrite (bind_inl _ _ _ _ _ Hr). cbn [state emitted]. split_and!; assumption.
  - rewrite (bind_inr _ _ _ _ _ Hr). cbn [state emitted].
    destruct (Hk a (state (m this w)) (world (m this w))) as (Hdata' & Hids' & Hlast').
    rewrite status_writes_app. split_and!.
    + rewrite Hdata'. exact Hdata.
    + apply Forall_app. split; [exact Hids|]. rewrite Hdata in Hids'. exact Hids'.
    + destruct (status_writes (emitted (k a (state (m this w)) (world (m this w)))))
        as [|write rest] eqn:Hw using rev_ind.
      * rewrite app_nil_r. cbn [last] in Hlast'.
        destruct (last (status_writes (emitted (m this w)))); congruence.
      * rewrite app_assoc, last_snoc. rewrite last_snoc in Hlast'. exact Hlast'.
Qed.

Lemma in_step_block {A} (m : M Instance A) : writes_its_status m -> in_step m.
Proof.
  intros Hm this w. destruct (Hm this w) as (Hdata & status & Hp & ->).
  split_and!; [exact Hdata | repeat constructor | exact Hp].
Qed.

Lemma in_step_ret {A} (a : A) : in_step (ret a).
Proof. intros this w. split_and!; [reflexivity | constructor | reflexivity]. Qed.

Lemma in_step_instanceLog level text : in_step (instanceLog env level text).
Proof.
  intros this w. unfold instanceLog, bind, get, call. cbn.
  split_and!; [reflexivity | constructor | reflexivity].
Qed.

(** The two blocks of the handler. *)
Definition pairing_block (update : ConnectionUpdate) : M Instance unit :=
  match qr update with
  | Some code => if Js.truthy (Some code) then on_qr env code else ret tt
  | None => ret tt
  end.

Definition connection_block (update : ConnectionUpdate) : M Instance unit :=
  match connection update with
  | Some conn_close => on_close env loggedOut update
  | Some conn_open => on_open env
  | Some conn_connecting => on_connecting env
  | None => ret tt
  end.

Lemma on_connection_update_blocks update :
  on_connection_update env loggedOut update
  = bind (pairing_block update)
      (fun _ => bind (connection_block update)
                  (fun _ => instanceLog env info
                              ("Connection status changed: "
                               +:+ show_connection (connection update)))).
Proof. reflexivity. Qed.

(** The number of statuses a block is to write. *)
Definition asked (present : bool) : nat := if present then 1%nat else 0%nat.

Lemma pairing_block_writes update this w :
  length (status_writes (emitted (pairing_block update this w)))
  = asked (Js.truthy (qr update)).
Proof.
  unfold pairing_block. destruct (qr update) as [code|]; [|reflexivity].
  destruct (Js.truthy (Some code)); [|reflexivity].
  destruct (on_qr_writes code this w) as (_ & status & _ & ->). reflexivity.
Qed.

Lemma connection_block_writes update this w :
  length (status_writes (emitted (connection_block update this w)))
  = asked (bool_decide (is_Some (connection update))).
Proof.
  unfold connection_block. destruct (connection update) as [[]|]; [| | |reflexivity].
  - destruct (on_close_writes update this w) as (_ & status & _ & ->). reflexivity.
  - destruct (on_open_writes this w) as (_ & status & _ & ->). reflexivity.
  - destruct (on_connecting_writes this w) as (_ & status & _ & ->). reflexivity.
Qed.

Lemma on_connection_update_in_step update : in_step (on_connection_update env loggedOut update).
Proof.
  rewrite on_connection_update_blocks.
  apply in_step_bind; [|intros _; apply in_step_bind; [|intros _; apply in_step_instanceLog]].
  - unfold pairing_block. destruct (qr update) as [code|]; [|apply in_step_ret].
    destruct (Js.truthy (Some code)); [apply in_step_block, on_qr_writes | apply in_step_ret].
  - unfold connection_block. destruct (connection update) as [[]|].
    + apply in_step_block, on_close_writes.
    + apply in_step_block, on_open_writes.
    + apply in_step_block, on_connecting_writes.
    + apply in_step_ret.
Qed.

Lemma on_connection_update_writes update this w :
  let o := on_connection_update env loggedOut update this w in
  let pairing := pairing_block update this w in
  length (status_writes (emitted o))
  = (asked (Js.truthy (qr update))
     + match result pairing with
       | inr _ => asked (bool_decide (is_Some (connection update)))
       | inl _ => 0
       end)%nat.
Proof.
  cbv zeta. rewrite on_connection_update_blocks, emitted_bind, status_writes_app, length_app.
  rewrite pairing_block_writes. f_equal.
  destruct (result (pairing_block update this w)) as [e|[]]; [reflexivity|].
  rewrite emitted_bind, status_writes_app, length_app, connection_block_writes.
  destruct (result (connection_block update _ _)) as [e|[]].
  - cbn. lia.
  - unfold instanceLog, bind, get, call. cbn. lia.
Qed.

End StatusFacts.

(** X27: Memory leads and the table follows.  Whatever a connection update
    carries and whatever fails outside, the handler keeps the instance row
    and writes every status under the id of that row; it writes one status
    for the pairing code and one for the connection, at most two, and none
    for an update with neither.  The connection status it leaves in memory
    is the one it asked the table to record last, also when that write
    failed or the handler threw after it; and it is the status it found
    when no write was made.  A handler that returns has made all its
    writes. *)
Theorem status_writes_follow_memory (env : Env) (loggedOut : Z)
    (update : ConnectionUpdate) (this : Instance) (w : World) :
  let o := on_connection_update env loggedOut update this w in
  let writes := status_writes (emitted o) in
  let wanted := (asked (Js.truthy (qr update))
                 + asked (bool_decide (is_Some (connection update))))%nat in
  instanceData (state o) = instanceData this
  /\ Forall (fun write => write.1 = inst_id (instanceData this)) writes
  /\ (length writes <= wanted <= 2)%nat
  /\ (writes = [] <-> wanted = 0%nat)
  /\ (writes = [] -> connectionStatus (state o) = connectionStatus this)
  /\ (forall write, last writes = Some write ->
      persisted (connectionStatus (state o)) = Some write.2)
  /\ (result o = inr tt -> length writes = wanted).
Proof.
  cbv zeta.
  destruct (on_connection_update_in_step env loggedOut update this w) as (Hdata & Hids & Hlast).
  pose proof (on_connection_update_writes env loggedOut update this w) as Hcount.
  cbv zeta in Hcount.
  assert (Hpairing : result (pairing_block env update this w) = inr tt
                     \/ asked (Js.truthy (qr update)) = 1%nat).
  { unfold pairing_block. destruct (qr update) as [code|]; [|left; reflexivity].
    destruct (Js.truthy (Some code)); [right; reflexivity | left; reflexivity]. }
  assert (Hthrown : forall e, result (pairing_block env update this w) = inl e ->
                              exists e', result (on_connection_update env loggedOut update this w)
                                         = inl e').
  { intros e He. rewrite on_connection_update_blocks, (bind_inl _ _ _ _ _ He). eauto. }
  split_and!.
  - exact Hdata.
  - exact Hids.
  - rewrite Hcount. destruct (result (pairing_block env update this w)); lia.
  - destruct (Js.truthy (qr update)), (bool_decide (is_Some (connection update)));
      cbn [asked]; lia.
  - rewrite <- length_zero_iff_nil, Hcount. split.
    + destruct Hpairing as [->|Hq]; lia.
    + intros H. destruct (result (pairing_block env update this w)); lia.
  - intros H. rewrite H in Hlast. exact Hlast.
  - intros write H. rewrite H in Hlast. exact Hlast.
  - intros Hr. rewrite Hcount.
    destruct (result (pairing_block env update this w)) as [e|[]] eqn:Hp; [|reflexivity].
    destruct (Hthrown e eq_refl) as (e' & He'). congruence.
Qed.

(** ** What is recorded of the inbound messages *)

Lemma stored_without_persistence tr : persistence ∉ stages tr -> stored tr = [].
Proof.
  induction tr as [|e tr IH]; [reflexivity|]. intros H.
  rewrite stored_cons. unfold stages in *. cbn [omap list_omap] in H.
  destruct e; cbn [stage_of] in H;
    try (apply IH; exact H);
    try (apply IH; intros Hin; apply H; apply list_elem_of_further, Hin).
  exfalso. apply H. apply list_elem_of_here.
Qed.

Lemma or_else_nonempty o d : d <> "" -> Js.or_else o d <> "".
Proof. intros Hd. destruct o as [[|c r]|]; cbn; [exact Hd | discriminate | exact Hd]. Qed.

Lemma content_text_nonempty m : content_text m <> "".
Proof.
  unfold content_text.
  destruct (message m) as [[text|text|participants action|kind]|];
    try discriminate; apply or_else_nonempty; discriminate.
Qed.

Lemma content_type_nonempty m : content_type m <> "".
Proof.
  unfold content_type.
  destruct (message m) as [[text|text|participants action|kind]|];
    try discriminate; apply or_else_nonempty; discriminate.
Qed.

Section RecordFacts.

Variable env : Env.

Lemma process_message_stored message this w socket :
  sock this = Some socket -> configs_cover (pluginManager this) = true ->
  stored (emitted (process_message env message this w))
  = if fromMe (key message) then [] else [incoming_record this socket message].
Proof.
  intros Hsock Hcover. destruct (fromMe (key message)) eqn:Hme.
  - rewrite (process_message_self env message this w Hme). reflexivity.
  - rewrite (process_message_run env message this w socket Hme Hsock Hcover).
    cbv zeta. cbn [emitted]. rewrite stored_cons, !stored_app.
    rewrite (storeMessage_run env message this _ socket Hsock). cbn [emitted world].
    rewrite stored_cons.
    rewrite (stored_without_persistence (emitted (dispatch_plugins message this _))).
    2: { rewrite (stages_dispatch message this _ Hcover).
         intros H. apply elem_of_replicate in H as [[=] _]. }
    rewrite (stored_without_persistence (emitted (triggerWebhooks env _ _ this _))).
    2: { rewrite stages_triggerWebhooks. intros H.
         apply list_elem_of_singleton in H. discriminate. }
    destruct (fault env _); reflexivity.
Qed.

Lemma messages_stored messages this socket :
  sock this = Some socket -> configs_cover (pluginManager this) = true ->
  forall w,
    stored (emitted (for_of messages (process_message env) this w))
    = incoming_record this socket
        <$> filter (fun message => fromMe (key message) = false) messages.
Proof.
  intros Hsock Hcover.
  induction messages as [|message rest IH]; intros w; [reflexivity|].
  destruct (process_message_stages env message this w socket Hsock Hcover) as (Hr & Hs & _).
  cbn [for_of]. rewrite (bind_inr _ _ _ _ _ Hr). cbn [emitted].
  rewrite stored_app, Hs, IH, (process_message_stored message this w socket Hsock Hcover).
  rewrite filter_cons. destruct (fromMe (key message)).
  - rewrite decide_False by discriminate. reflexivity.
  - rewrite decide_True by reflexivity. reflexivity.
Qed.

End RecordFacts.

(** X28: For a controller with a socket whose plugins all have a
    configuration entry, and whatever fails outside: the records handed to the message
    store for a [notify] event are those of its messages not sent by self,
    one for each and in their order, also when the store rejects them.
    Each is an incoming record of this instance with status [received],
    sent from the chat of the message, and neither its content nor its
    type is ever empty: a message without text, or with an empty text, is
    recorded as [Media message], and one without content as of type
    [unknown]. *)
Theorem inbound_messages_recorded (env : Env) (this : Instance) (w : World)
    (messages : list Message) (socket : Sock) :
  sock this = Some socket ->
  configs_cover (pluginManager this) = true ->
  let o := handleMessagesUpsert env messages "notify" this w in
  stored (emitted o)
  = incoming_record this socket
      <$> filter (fun message => fromMe (key message) = false) messages
  /\ Forall (fun record =>
               md_instanceId record = inst_id (instanceData this)
               /\ md_direction record = incoming
               /\ md_status record = "received"
               /\ md_content record <> ""
               /\ md_type record <> "")
            (stored (emitted o))
  /\ (forall m,
        m ∈ messages -> fromMe (key m) = false ->
        exists record,
          record ∈ stored (emitted o)
          /\ md_from record = remoteJid (key m)
          /\ md_messageId record = key_id (key m)
          /\ (message m = Some (conversation "") \/ message m = None ->
              md_content record = "Media message")
          /\ (message m = None -> md_type record = "unknown")).
Proof.
  intros Hsock Hcover o.
  assert (Ho : stored (emitted o)
               = incoming_record this socket
                   <$> filter (fun message => fromMe (key message) = false) messages)
    by (subst o; unfold handleMessagesUpsert; cbn [String.eqb negb];
        apply (messages_stored env messages this socket Hsock Hcover)).
  split; [exact Ho|]. rewrite Ho. split.
  - apply Forall_fmap, Forall_forall. intros m _. cbn.
    split_and!; try reflexivity; [apply content_text_nonempty | apply content_type_nonempty].
  - intros m Hin Hme. exists (incoming_record this socket m). split_and!.
    + apply list_elem_of_fmap. exists m. split; [reflexivity|].
      apply list_elem_of_filter. split; assumption.
    + reflexivity.
    + reflexivity.
    + intros [H|H]; cbn [incoming_record md_content]; unfold content_text; rewrite H;
        reflexivity.
    + intros H. cbn [incoming_record md_type]. unfold content_type. rewrite H. reflexivity.
Qed.

Definition empty_text : Message :=
  {| key := {| remoteJid := "628111@s.whatsapp.net"; fromMe := false; key_id := "M3" |};
     pushName := None; messageTimestamp := 1700000002;
     message := Some (conversation "") |}.

Lemma inbound_messages_recorded_witness :
  let o := handleMessagesUpsert everything_fails [greeting; own_message; empty_text] "notify"
             busy_instance dawn in
  sock busy_instance = Some {| sock_user := Some "6281234567:1@s.whatsapp.net" |}
  /\ configs_cover (pluginManager busy_instance) = true
  /\ md_content <$> stored (emitted o) = [content_text greeting; "Media message"].
Proof.
  assert (Hcover : configs_cover (pluginManager busy_instance) = true)
    by (vm_compute; reflexivity).
  destruct (inbound_messages_recorded everything_fails busy_instance dawn
              [greeting; own_message; empty_text]
              {| sock_user := Some "6281234567:1@s.whatsapp.net" |} eq_refl Hcover)
    as (Hstored & _).
  split_and!; [reflexivity | exact Hcover |].
  cbv zeta. rewrite Hstored. reflexivity.
Defined.
